(** * scrape_host.py: a shallow embedding and its verified properties

    The development follows the layout of [src/scrape_host.py]:

    - Python text primitives ([str.strip], [str.split], [str.isdigit]) and the
      fragment of the [re] module the script's four patterns live in;
    - JSON-like Python values with truthiness, [str()] and [dict.get];
    - the external collaborators ([pyairbnb], [urllib.parse.urlparse],
      [datetime]) as an interface, with a scripted instance used to run
      the pipeline on concrete inputs;
    - the script's functions, one definition per [def], under the same names;
    - the properties.

    Text is a list of code points below 256 (the type [ascii] read as
    Latin-1): [is_space], [is_decimal] and [py_isdigit_char] are Python's
    classifications restricted to that range.  JSON numbers are integers.

    Standard output is not part of the state: the [print] calls are left
    out, and where one could raise this is said at the place.  Writing
    to one of the two files does not fail.  The exceptions are those
    caught by [except Exception]. *)

From Stdlib Require Import ZArith List Ascii String Lia Bool.
From stdpp Require Import base gmap list strings.
Import ListNotations.

Set Warnings "-register-all".

Local Open Scope Z_scope.
Local Open Scope list_scope.

(* ===================================================================== *)
(** * Text *)
(* ===================================================================== *)

Module Text.

Definition str := list ascii.

(** String literals of the source, as code-point lists. *)
Definition lit (x : string) : str := list_ascii_of_string x.

Definition code (c : ascii) : N := N_of_ascii c.

Definition between (lo hi n : N) : bool := ((lo <=? n) && (n <=? hi))%N.

(** [str.isspace] on one character: TAB..CR, FS..US, SPACE, NEL, NBSP. *)
Definition is_space (c : ascii) : bool :=
  between 9 13 (code c) || between 28 32 (code c)
  || (code c =? 133)%N || (code c =? 160)%N.

(** What the pattern [\d] matches: the decimal digits. *)
Definition is_decimal (c : ascii) : bool := between 48 57 (code c).

(** [str.isdigit] on one character: decimal digits and the superscripts
    two, three and one. *)
Definition py_isdigit_char (c : ascii) : bool :=
  is_decimal c || (code c =? 178)%N || (code c =? 179)%N || (code c =? 185)%N.

(** Simple lower-casing, as [re.IGNORECASE] applies it to compare a text
    character with an ASCII literal of the pattern. *)
Definition lower (c : ascii) : ascii :=
  if between 65 90 (code c) then ascii_of_N (code c + 32) else c.

Definition ascii_eqb (a b : ascii) : bool := Ascii.eqb a b.

Fixpoint drop_while (p : ascii -> bool) (s : str) : str :=
  match s with
  | [] => []
  | c :: s' => if p c then drop_while p s' else s
  end.

Fixpoint take_while (p : ascii -> bool) (s : str) : str :=
  match s with
  | [] => []
  | c :: s' => if p c then c :: take_while p s' else []
  end.

Definition lstrip (s : str) : str := drop_while is_space s.
Definition rstrip (s : str) : str := rev (drop_while is_space (rev s)).

(** [s.strip()] *)
Definition strip (s : str) : str := rstrip (lstrip s).

(** [s.split()]: the maximal runs of non-whitespace characters.  [cur] is
    the run being read. *)
Fixpoint split_from (cur : str) (s : str) : list str :=
  match s with
  | [] => match cur with [] => [] | _ => [cur] end
  | c :: s' =>
      if is_space c
      then match cur with
           | [] => split_from [] s'
           | _ => cur :: split_from [] s'
           end
      else split_from (cur ++ [c]) s'
  end.

Definition split (s : str) : list str := split_from [] s.

(** [sep.join(parts)] *)
Fixpoint join (sep : str) (parts : list str) : str :=
  match parts with
  | [] => []
  | [p] => p
  | p :: ps => p ++ sep ++ join sep ps
  end.

(** [s.isdigit()] *)
Definition isdigit (s : str) : bool :=
  match s with
  | [] => false
  | _ => forallb py_isdigit_char s
  end.

Definition str_eqb (a b : str) : bool := bool_decide (a = b).

(** Decimal rendering of an integer, [str(n)]. *)
Fixpoint digits_of_pos (fuel : nat) (n : N) (acc : str) : str :=
  match fuel with
  | O => acc
  | S fuel' =>
      let d := ascii_of_N (48 + N.modulo n 10) in
      if (n <? 10)%N then d :: acc
      else digits_of_pos fuel' (N.div n 10) (d :: acc)
  end.

Definition str_of_N (n : N) : str := digits_of_pos (S (N.to_nat (N.log2 n))) n [].

Definition str_of_Z (z : Z) : str :=
  match z with
  | Z0 => lit "0"
  | Zpos p => str_of_N (Npos p)
  | Zneg p => lit "-" ++ str_of_N (Npos p)
  end.

End Text.
Import Text.

(* ===================================================================== *)
(** * The [re] fragment *)
(* ===================================================================== *)

(** Every quantifier in the script's patterns ([\d{5,25}], [\d+], [[^>]+],
    [\s+], [s?], [\.?], [[:\s]*], [[^,\n]+]) applies to one character or
    class, and the only capturing group is the last element of its
    pattern.  The fragment below is that one: single-character atoms,
    greedy bounded repetition of an atom, sequence, alternation.  The
    matcher is the backtracking one of [re]: it lists, in the order the
    engine tries them, the remainders of the subject after each way the
    pattern matches a prefix of it. *)

Module Re.

Inductive cset : Type :=
| Lit (c : ascii)              (* a literal character *)
| Cls (p : ascii -> bool).     (* a class: \d, \s, [...] or [^...] *)

Inductive regex : Type :=
| Eps
| One (a : cset)
| Rep (a : cset) (lo : nat) (hi : option nat)   (* a{lo,hi}; a* a+ a? *)
| Seq (r1 r2 : regex)
| Alt (r1 r2 : regex).

(** [ic] is the [re.IGNORECASE] flag. *)
Definition cset_match (ic : bool) (a : cset) (x : ascii) : bool :=
  match a with
  | Lit c => if ic then ascii_eqb (lower x) (lower c) else ascii_eqb x c
  | Cls p => p x
  end.

Fixpoint word (w : str) : regex :=
  match w with
  | [] => Eps
  | c :: w' => Seq (One (Lit c)) (word w')
  end.

Definition Star (a : cset) : regex := Rep a 0 None.
Definition Plus (a : cset) : regex := Rep a 1 None.
Definition Opt (a : cset) : regex := Rep a 0 (Some 1%nat).

(** Length of the longest prefix of [s] made of characters in [p]. *)
Fixpoint run (p : ascii -> bool) (s : str) : nat :=
  match s with
  | [] => O
  | c :: s' => if p c then S (run p s') else O
  end.

Definition cap (hi : option nat) (n : nat) : nat :=
  match hi with
  | Some h => Nat.min h n
  | None => n
  end.

(** The repetition counts a greedy quantifier tries, most first. *)
Definition rep_counts (lo : nat) (hi : option nat) (n : nat) : list nat :=
  rev (seq lo (S (cap hi n) - lo)).

Fixpoint remainders (ic : bool) (r : regex) (s : str) : list str :=
  match r with
  | Eps => [s]
  | One a =>
      match s with
      | x :: s' => if cset_match ic a x then [s'] else []
      | [] => []
      end
  | Rep a lo hi =>
      List.map (fun j => skipn j s) (rep_counts lo hi (run (cset_match ic a) s))
  | Seq r1 r2 => flat_map (remainders ic r2) (remainders ic r1 s)
  | Alt r1 r2 => remainders ic r1 s ++ remainders ic r2 s
  end.

(** [re.fullmatch(r, s)] as a truth value. *)
Definition fullmatch (ic : bool) (r : regex) (s : str) : bool :=
  existsb (fun rest => match rest with [] => true | _ => false end)
          (remainders ic r s).

Fixpoint first_some {A B : Type} (f : A -> option B) (l : list A) : option B :=
  match l with
  | [] => None
  | x :: l' => match f x with Some y => Some y | None => first_some f l' end
  end.

(** The pattern [r(g)] matched at the start of [t]: the text of group 1
    and what follows the match. *)
Definition match_group (ic : bool) (r g : regex) (t : str) : option (str * str) :=
  first_some
    (fun s2 => match remainders ic g s2 with
               | s3 :: _ => Some (firstn (length s2 - length s3) s2, s3)
               | [] => None
               end)
    (remainders ic r t).

(** [re.search(r(g), s)], reduced to [m.group(1)]: the match at the
    leftmost position that has one. *)
Fixpoint search_group (ic : bool) (r g : regex) (s : str) : option str :=
  match match_group ic r g s with
  | Some (c, _) => Some c
  | None =>
      match s with
      | [] => None
      | _ :: s' => search_group ic r g s'
      end
  end.

(** [re.sub(r, repl, s)] for a pattern that cannot match the empty string:
    matches are found left to right and do not overlap.  [skip] counts the
    characters of the current match still to be dropped. *)
Fixpoint sub_from (ic : bool) (r : regex) (repl : str) (skip : nat) (s : str) : str :=
  match s with
  | [] => []
  | x :: s' =>
      match skip with
      | S k => sub_from ic r repl k s'
      | O =>
          match remainders ic r s with
          | rest :: _ =>
              match (length s - length rest)%nat with
              | S k => repl ++ sub_from ic r repl k s'
              | O => x :: sub_from ic r repl O s'
              end
          | [] => x :: sub_from ic r repl O s'
          end
      end
  end.

Definition sub (ic : bool) (r : regex) (repl : str) (s : str) : str :=
  sub_from ic r repl O s.

(** The language of a pattern, independent of the matcher. *)
Inductive Matches (ic : bool) : regex -> str -> Prop :=
| M_eps : Matches ic Eps []
| M_one a x : cset_match ic a x = true -> Matches ic (One a) [x]
| M_rep a lo hi s :
    Forall (fun x => cset_match ic a x = true) s ->
    (lo <= length s)%nat ->
    (forall h, hi = Some h -> (length s <= h)%nat) ->
    Matches ic (Rep a lo hi) s
| M_seq r1 r2 s1 s2 :
    Matches ic r1 s1 -> Matches ic r2 s2 -> Matches ic (Seq r1 r2) (s1 ++ s2)
| M_alt_l r1 r2 s : Matches ic r1 s -> Matches ic (Alt r1 r2) s
| M_alt_r r1 r2 s : Matches ic r2 s -> Matches ic (Alt r1 r2) s.

End Re.

(* ===================================================================== *)
(** * Python values *)
(* ===================================================================== *)

(** The payloads the marketplace client hands back are parsed JSON: [None],
    booleans, integers, strings, lists and string-keyed dicts.  A dict is
    the list of its items in insertion order, keys distinct. *)

Module Py.

Inductive pyval : Type :=
| PNone
| PBool (b : bool)
| PInt (z : Z)
| PStr (s : str)
| PList (l : list pyval)
| PDict (d : list (str * pyval)).

(** The exceptions the script can meet; all of them derive from
    [Exception]. *)
Inductive exn : Type :=
| AttributeError
| TypeError
| ValueError
| ExternalError (msg : str).

Inductive result (A : Type) : Type :=
| Ok (v : A)
| Raise (e : exn).
Arguments Ok {A} v.
Arguments Raise {A} e.

(** [bool(v)] *)
Definition truthy (v : pyval) : bool :=
  match v with
  | PNone => false
  | PBool b => b
  | PInt z => negb (z =? 0)
  | PStr s => match s with [] => false | _ => true end
  | PList l => match l with [] => false | _ => true end
  | PDict d => match d with [] => false | _ => true end
  end.

(** [a or b], with [b] evaluated only when [a] is falsy. *)
Definition py_or (a : pyval) (b : result pyval) : result pyval :=
  if truthy a then Ok a else b.

Fixpoint assoc (d : list (str * pyval)) (key : str) : option pyval :=
  match d with
  | [] => None
  | (k, v) :: d' => if str_eqb k key then Some v else assoc d' key
  end.

(** [v.get(key, default)]: only a dict has the method. *)
Definition get (v : pyval) (key : str) (default : pyval) : result pyval :=
  match v with
  | PDict d => Ok (match assoc d key with Some x => x | None => default end)
  | _ => Raise AttributeError
  end.

(** [key in d] for a dict [d]. *)
Definition has_key (d : list (str * pyval)) (key : str) : bool :=
  match assoc d key with Some _ => true | None => false end.

Definition isinstance_dict (v : pyval) : bool :=
  match v with PDict _ => true | _ => false end.

Definition hex_digit (n : N) : ascii :=
  if (n <? 10)%N then ascii_of_N (48 + n) else ascii_of_N (87 + n).

Definition quote1 : ascii := ascii_of_N 39.
Definition quote2 : ascii := ascii_of_N 34.
Definition backslash : ascii := ascii_of_N 92.

(** [str.isprintable] on one character of the Latin-1 range. *)
Definition printable (c : ascii) : bool :=
  negb ((code c <? 32)%N || between 127 160 (code c) || (code c =? 173)%N).

Definition repr_char (q : ascii) (c : ascii) : str :=
  if ascii_eqb c q || ascii_eqb c backslash then [backslash; c]
  else if (code c =? 9)%N then lit "\t"
  else if (code c =? 10)%N then lit "\n"
  else if (code c =? 13)%N then lit "\r"
  else if printable c then [c]
  else backslash :: lit "x" ++ [hex_digit (code c / 16); hex_digit (code c mod 16)]%N.

(** [repr(s)] for a string: single quotes unless the text has one and no
    double quote. *)
Definition repr_str (s : str) : str :=
  let q := if existsb (ascii_eqb quote1) s && negb (existsb (ascii_eqb quote2) s)
           then quote2 else quote1 in
  q :: flat_map (repr_char q) s ++ [q].

Fixpoint repr (v : pyval) : str :=
  match v with
  | PNone => lit "None"
  | PBool true => lit "True"
  | PBool false => lit "False"
  | PInt z => str_of_Z z
  | PStr s => repr_str s
  | PList l => lit "[" ++ join (lit ", ") (List.map repr l) ++ lit "]"
  | PDict d =>
      lit "{"
      ++ join (lit ", ")
           (List.map (fun kv => let '(k, x) := kv in repr_str k ++ lit ": " ++ repr x) d)
      ++ lit "}"
  end.

(** [str(v)] *)
Definition to_str (v : pyval) : str :=
  match v with
  | PStr s => s
  | _ => repr v
  end.

(** [len(v)] *)
Definition len (v : pyval) : result Z :=
  match v with
  | PStr s => Ok (Z.of_nat (length s))
  | PList l => Ok (Z.of_nat (length l))
  | PDict d => Ok (Z.of_nat (length d))
  | _ => Raise TypeError
  end.

(** The items [for it in v] visits. *)
Definition iter (v : pyval) : result (list pyval) :=
  match v with
  | PList l => Ok l
  | PStr s => Ok (List.map (fun c => PStr [c]) s)
  | PDict d => Ok (List.map (fun kv => PStr (fst kv)) d)
  | _ => Raise TypeError
  end.

End Py.
Import Py.

(* ===================================================================== *)
(** * External collaborators *)
(* ===================================================================== *)

(** What the script imports and does not define: the marketplace client
    [pyairbnb], [urllib.parse.urlparse] and [datetime].  [U] is the state
    of the world outside the process (the marketplace and the clock); a
    call may raise, and may answer differently the next time.  Of
    [urlparse(s)] the script reads [.path] only, and of
    [datetime.fromisoformat(t)] the [.year]. *)
Class External (U : Type) : Type := {
  pyairbnb_get_api_key :
    forall (proxy_url : str), U -> result pyval * U;
  pyairbnb_get_details :
    forall (room_id currency proxy_url language : str), U -> result pyval * U;
  pyairbnb_get_host_details :
    forall (api_key cookies : pyval) (host_id language proxy_url : str),
      U -> result pyval * U;
  pyairbnb_get_listings_from_user :
    forall (host_id : str) (api_key : pyval) (proxy_url : str),
      U -> result pyval * U;
  urlparse_path : str -> result str;
  fromisoformat_year : str -> result Z;
  datetime_now_year : U -> Z
}.

(* ===================================================================== *)
(** * Rows, host profiles, events *)
(* ===================================================================== *)

(** The dict [fetch_host_profile_fields] builds and caches. *)
Module HostProfile.
Record t : Type := mk {
  host_name : pyval;
  host_rating : pyval;
  host_reviews_count : pyval;
  host_joined_year : pyval;
  host_years_active : pyval;
  host_total_listings : pyval
}.

(** The profile returned for an empty host identifier, and the initial
    value of the locals of [fetch_host_profile_fields]. *)
Definition empty : t :=
  mk (PStr []) (PStr []) (PStr []) (PStr []) (PStr []) (PInt 0).
End HostProfile.

(** The dict [extract_listing_data] returns: one row of the table, its
    keys in the order of [fieldnames]. *)
Module Row.
Record t : Type := mk {
  room_id : str;
  listing_url : str;
  listing_title : pyval;
  license_code : str;
  host_id : str;
  host_name : pyval;
  host_profile_url : str;
  host_rating : pyval;
  host_reviews_count : pyval;
  host_joined_year : pyval;
  host_years_active : pyval;
  host_total_listings_in_dubai : pyval
}.
End Row.

(** The two places where the script calls [time.sleep]. *)
Inductive sleep_site : Type :=
| Backoff          (* [time.sleep(wait_time)] in [retry_on_failure] *)
| InterRequest.    (* [time.sleep(DELAY_BETWEEN_DETAILS)] in [main] *)

(** What a run does that can be observed from outside, in order. *)
Inductive event : Type :=
| EvSleep (site : sleep_site) (seconds : Z)
| EvGetApiKey
| EvGetDetails (room_id : str)
| EvGetHostDetails (host_id : str)
| EvGetListingsFromUser (host_id : str).

(* ===================================================================== *)
(** * CONFIG *)
(* ===================================================================== *)

Definition LANGUAGE : str := lit "en".
Definition CURRENCY : str := lit "AED".
Definition PROXY_URL : str := [].
(** The float [1.0], in seconds. *)
Definition DELAY_BETWEEN_DETAILS : Z := 1.
Definition COOKIES : pyval := PDict [].

(* ===================================================================== *)
(** * The patterns of the script *)
(* ===================================================================== *)

Module Pattern.
Import Re.

Definition digit : cset := Cls is_decimal.
Definition space : cset := Cls is_space.

Definition newline : ascii := ascii_of_N 10.
Definition comma : ascii := ascii_of_N 44.
Definition colon : ascii := ascii_of_N 58.
Definition gt : ascii := ascii_of_N 62.

(** [\d{5,25}] *)
Definition host_id_direct : regex := Rep digit 5 (Some 25%nat).

(** [/users/(?:show|profile)/(\d+)]: what precedes the group, and the
    group. *)
Definition users_path : regex :=
  Seq (word (lit "/users/"))
      (Seq (Alt (word (lit "show")) (word (lit "profile")))
           (word (lit "/"))).
Definition users_digits : regex := Plus digit.

(** [<[^>]+>] *)
Definition tag : regex :=
  Seq (word (lit "<"))
      (Seq (Plus (Cls (fun c => negb (ascii_eqb c gt)))) (word (lit ">"))).

(** [(?:Number|No\.?|Code)] and [(?:Number|No\.?)] *)
Definition number_no_code : regex :=
  Alt (word (lit "Number"))
      (Alt (Seq (word (lit "No")) (Opt (Lit ".")))
           (word (lit "Code"))).
Definition number_no : regex :=
  Alt (word (lit "Number")) (Seq (word (lit "No")) (Opt (Lit "."))).

(** The entries of [keywords], in order. *)
Definition keywords : list regex :=
  [ Seq (word (lit "Registration"))
        (Seq (Plus space) (Seq (word (lit "Detail")) (Opt (Lit "s"))));
    Seq (word (lit "Registration")) (Seq (Plus space) number_no_code);
    Seq (word (lit "License")) (Seq (Plus space) number_no_code);
    Seq (word (lit "Permit")) (Seq (Plus space) number_no) ].

(** ["|".join(keywords)] *)
Fixpoint alternation (rs : list regex) : regex :=
  match rs with
  | [] => Eps
  | [r] => r
  | r :: rs' => Alt r (alternation rs')
  end.

Definition colon_or_space (c : ascii) : bool := ascii_eqb c colon || is_space c.
Definition not_comma_newline (c : ascii) : bool :=
  negb (ascii_eqb c comma || ascii_eqb c newline).

(** [(?:%s)[:\s]*([^,\n]+)]: what precedes the group, and the group. *)
Definition license_prefix : regex :=
  Seq (alternation keywords) (Star (Cls colon_or_space)).
Definition license_value : regex := Plus (Cls not_comma_newline).

End Pattern.

(* ===================================================================== *)
(** * UTILITAIRES *)
(* ===================================================================== *)

(** ** [retry_on_failure]

    The decorator does not depend on what the wrapped function touches: [S]
    is the state the function runs in and [sleep] is [time.sleep] on it.
    The line the wrapper prints before sleeping goes to standard output,
    which is not part of the state. *)
Section Retry.
Context {S : Type} (sleep : Z -> S -> S).

(** [range(n)] *)
Definition range (n : Z) : list Z := List.map Z.of_nat (seq 0 (Z.to_nat n)).

(** The [for attempt in ...] loop of [wrapper]; falling out of the loop
    returns [None]. *)
Fixpoint wrapper_loop (max_retries delay : Z) (func : S -> result pyval * S)
    (attempts : list Z) (s : S) : result pyval * S :=
  match attempts with
  | [] => (Ok PNone, s)
  | attempt :: rest =>
      match func s with
      | (Ok v, s') => (Ok v, s')
      | (Raise e, s') =>
          if attempt =? max_retries - 1 then (Raise e, s')
          else
            let wait_time := delay * 2 ^ attempt in
            wrapper_loop max_retries delay func rest (sleep wait_time s')
      end
  end.

Definition retry_on_failure (max_retries delay : Z)
    (func : S -> result pyval * S) : S -> result pyval * S :=
  wrapper_loop max_retries delay func (range max_retries).
End Retry.

(** ** [extract_license_code] *)
Definition extract_license_code (text : pyval) : str :=
  if negb (truthy text) then []
  else
    let text_str := to_str text in
    let text_clean := Re.sub false Pattern.tag (lit " ") text_str in
    match Re.search_group true Pattern.license_prefix Pattern.license_value text_clean with
    | Some group1 =>
        let code := strip group1 in
        join (lit " ") (split code)
    | None => []
    end.

(** ** Progress log

    [processed_ids.txt] is read with universal newlines: a line ends at
    LF, CR or CR LF, and is handed over with LF as its terminator. *)
Definition LF : ascii := ascii_of_N 10.
Definition CR : ascii := ascii_of_N 13.

Fixpoint file_lines_from (cur : str) (s : str) : list str :=
  match s with
  | [] => match cur with [] => [] | _ => [cur] end
  | c :: s' =>
      if ascii_eqb c LF then (cur ++ [LF]) :: file_lines_from [] s'
      else if ascii_eqb c CR then
        match s' with
        | c' :: s'' =>
            if ascii_eqb c' LF then (cur ++ [LF]) :: file_lines_from [] s''
            else (cur ++ [LF]) :: file_lines_from [] s'
        | [] => [cur ++ [LF]]
        end
      else file_lines_from (cur ++ [c]) s'
  end.

Definition file_lines (content : str) : list str := file_lines_from [] content.

(** [set(line.strip() for line in f if line.strip())] *)
Definition stripped_lines (content : str) : gset str :=
  list_to_set
    (List.map strip
       (List.filter (fun line => match strip line with [] => false | _ => true end)
          (file_lines content))).

(** ** [get_room_ids_from_host], the part after the call to the client *)

(** [it.get("room_id") or it.get("id") or it.get("listing", {}).get("id")] *)
Definition item_rid (it : pyval) : result pyval :=
  match get it (lit "room_id") PNone with
  | Raise e => Raise e
  | Ok a =>
      py_or a
        match get it (lit "id") PNone with
        | Raise e => Raise e
        | Ok b =>
            py_or b
              match get it (lit "listing") (PDict []) with
              | Raise e => Raise e
              | Ok l => get l (lit "id") PNone
              end
        end
  end.

(** One turn of [for it in listings]. *)
Definition room_ids_step (room_ids : list str) (it : pyval) : result (list str) :=
  if isinstance_dict it then
    match item_rid it with
    | Raise e => Raise e
    | Ok rid => Ok (if truthy rid then room_ids ++ [to_str rid] else room_ids)
    end
  else
    let s := strip (to_str it) in
    Ok (if isdigit s then room_ids ++ [s] else room_ids).

Fixpoint room_ids_loop (room_ids : list str) (listings : list pyval)
    : result (list str) :=
  match listings with
  | [] => Ok room_ids
  | it :: rest =>
      match room_ids_step room_ids it with
      | Raise e => Raise e
      | Ok room_ids' => room_ids_loop room_ids' rest
      end
  end.

(** [list(dict.fromkeys(room_ids))]: keys enter the dict one by one, a
    key already there keeps its place. *)
Definition dict_fromkeys (room_ids : list str) : list str :=
  fold_left
    (fun keys k => if bool_decide (k ∈ keys) then keys else keys ++ [k])
    room_ids [].

(* ===================================================================== *)
(** * The process and its world *)
(* ===================================================================== *)

Section Script.
Context {U : Type} `{!External U}.

(** The state a run reads and writes: the outside world, the module
    global [API_KEY], the two files ([None] while a file does not
    exist), and the events so far.  [host_listings.csv] is kept as its
    rows: the header line is always written, so [Some []] is the
    header-only file. *)
Record World : Type := mkWorld {
  upstream : U;
  API_KEY : pyval;
  csv_file : option (list Row.t);
  ids_file : option str;
  trace : list event
}.

Definition set_upstream (u : U) (w : World) : World :=
  mkWorld u (API_KEY w) (csv_file w) (ids_file w) (trace w).
Definition set_API_KEY (k : pyval) (w : World) : World :=
  mkWorld (upstream w) k (csv_file w) (ids_file w) (trace w).
Definition set_csv_file (f : option (list Row.t)) (w : World) : World :=
  mkWorld (upstream w) (API_KEY w) f (ids_file w) (trace w).
Definition set_ids_file (f : option str) (w : World) : World :=
  mkWorld (upstream w) (API_KEY w) (csv_file w) f (trace w).
Definition emit (e : event) (w : World) : World :=
  mkWorld (upstream w) (API_KEY w) (csv_file w) (ids_file w) (trace w ++ [e]).

(** [time.sleep(seconds)] at [site]. *)
Definition sleep (site : sleep_site) (seconds : Z) (w : World) : World :=
  emit (EvSleep site seconds) w.

(** A call to the client: the event, then the answer. *)
Definition call (e : event) (f : U -> result pyval * U) (w : World)
    : result pyval * World :=
  let '(r, u') := f (upstream w) in
  (r, set_upstream u' (emit e w)).

(** A process starts with the module globals at their initial values. *)
Definition new_process (w : World) : World := set_API_KEY PNone w.

(** ** [get_api_credentials] *)
Definition get_api_credentials (w : World) : (pyval * pyval) * World :=
  let w' :=
    match API_KEY w with
    | PNone =>
        match call EvGetApiKey (pyairbnb_get_api_key PROXY_URL) w with
        | (Ok k, w1) => set_API_KEY k w1
        | (Raise _, w1) => set_API_KEY (PStr []) w1
        end
    | _ => w
    end in
  ((API_KEY w', COOKIES), w').

(** ** [parse_host_id_from_url] *)
Definition parse_host_id_from_url (host_url : str) : result str :=
  match host_url with
  | [] => Ok []
  | _ =>
      let s := strip host_url in
      if Re.fullmatch false Pattern.host_id_direct s then Ok s
      else
        (* try: ... except Exception: return "" *)
        match
          match urlparse_path s with
          | Raise e => Raise e
          | Ok path =>
              let m := Re.search_group false Pattern.users_path
                         Pattern.users_digits path in
              Ok (match m with Some group1 => group1 | None => [] end)
          end
        with
        | Ok v => Ok v
        | Raise _ => Ok []
        end
  end.

(** ** [load_processed_ids], [save_processed_id] *)
Definition load_processed_ids (w : World) : gset str :=
  match ids_file w with
  | Some content => stripped_lines content
  | None => ∅
  end.

Definition save_processed_id (room_id : str) (w : World) : World :=
  let old := match ids_file w with Some content => content | None => [] end in
  set_ids_file (Some (old ++ room_id ++ [LF])) w.

(** ** [get_listing_details] *)
Definition get_listing_details (room_id : str) : World -> result pyval * World :=
  retry_on_failure (sleep Backoff) 3 2
    (call (EvGetDetails room_id)
       (pyairbnb_get_details room_id CURRENCY PROXY_URL LANGUAGE)).

(** ** [fetch_host_profile_fields]

    The body of the outer [try] assigns the locals one after the other;
    an exception leaves those already assigned in place.  [F] threads
    the locals ([HostProfile.t]) and stops at the first exception. *)
Definition F (A : Type) : Type := HostProfile.t -> option A * HostProfile.t.
Definition F_ret {A} (x : A) : F A := fun h => (Some x, h).
Definition F_bind {A B} (c : F A) (k : A -> F B) : F B :=
  fun h => match c h with
           | (Some x, h') => k x h'
           | (None, h') => (None, h')
           end.
Definition F_lift {A} (r : result A) : F A :=
  fun h => match r with Ok x => (Some x, h) | Raise _ => (None, h) end.
Definition F_assign (upd : HostProfile.t -> HostProfile.t) : F unit :=
  fun h => (Some tt, upd h).

Notation "'do' x <- c ; k" := (F_bind c (fun x => k))
  (at level 10, x binder, c at level 100, k at level 200).

Import HostProfile.

(** [created_at.replace("Z", "+00:00")]: a method of strings only. *)
Fixpoint replace_Z (s : str) : str :=
  match s with
  | [] => []
  | c :: s' =>
      if ascii_eqb c "Z" then lit "+00:00" ++ replace_Z s' else c :: replace_Z s'
  end.

(** The inner [try] around the parsing of [createdAt]; its [except]
    passes. *)
Definition joined_block (created_at : pyval) (this_year : Z) : F unit :=
  match created_at with
  | PStr s =>
      match fromisoformat_year (replace_Z s) with
      | Ok y =>
          F_assign (fun h =>
            mk (host_name h) (host_rating h) (host_reviews_count h)
               (PInt y) (PInt (this_year - y)) (host_total_listings h))
      | Raise _ => F_ret tt
      end
  | _ => F_ret tt
  end.

(** The block under [if host_details_response and ... "errors" not in
    ...]. *)
Definition profile_block (response : pyval) (this_year : Z) : F unit :=
  do data <- F_lift (get response (lit "data") (PDict [])) ;
  do node <- F_lift (get data (lit "node") (PDict [])) ;
  do host_rating_stats <- F_lift (get node (lit "hostRatingStats") (PDict [])) ;
  do rating <- F_lift (get host_rating_stats (lit "ratingAverage") (PStr [])) ;
  do _ <- F_assign (fun h =>
         mk (host_name h) rating (host_reviews_count h)
            (host_joined_year h) (host_years_active h) (host_total_listings h)) ;
  do presentation <- F_lift (get data (lit "presentation") (PDict [])) ;
  do user_profile_container <-
    F_lift (get presentation (lit "userProfileContainer") (PDict [])) ;
  do user_profile <- F_lift (get user_profile_container (lit "userProfile") PNone) ;
  if truthy user_profile then
    do smart <- F_lift (get user_profile (lit "smartName") (PStr [])) ;
    do name <- F_lift (py_or smart (get user_profile (lit "displayFirstName") (PStr []))) ;
    do _ <- F_assign (fun h =>
           mk name (host_rating h) (host_reviews_count h)
              (host_joined_year h) (host_years_active h) (host_total_listings h)) ;
    do reviews_data <-
      F_lift (get user_profile (lit "reviewsReceivedFromGuests") (PDict [])) ;
    do count <- F_lift (get reviews_data (lit "count") (PStr [])) ;
    do _ <- F_assign (fun h =>
           mk (host_name h) (host_rating h) count
              (host_joined_year h) (host_years_active h) (host_total_listings h)) ;
    do created_at <- F_lift (get user_profile (lit "createdAt") (PStr [])) ;
    if truthy created_at then joined_block created_at this_year else F_ret tt
  else F_ret tt.

(** [len(host_listings) if host_listings else 0], inside its own [try]
    whose [except] sets 0. *)
Definition total_listings (answer : result pyval) : pyval :=
  match answer with
  | Raise _ => PInt 0
  | Ok host_listings =>
      if truthy host_listings then
        match len host_listings with Ok n => PInt n | Raise _ => PInt 0 end
      else PInt 0
  end.

Definition fetch_host_profile_fields (host_id : str)
    (host_cache : gmap str HostProfile.t) (w : World)
    : HostProfile.t * gmap str HostProfile.t * World :=
  match host_id with
  | [] => (HostProfile.empty, host_cache, w)
  | _ =>
      match host_cache !! host_id with
      | Some fields => (fields, host_cache, w)
      | None =>
          let '((api_key, cookies), w0) := get_api_credentials w in
          let '(answer, w1) :=
            call (EvGetHostDetails host_id)
              (pyairbnb_get_host_details api_key cookies host_id LANGUAGE PROXY_URL)
              w0 in
          let '(fields, w3) :=
            match answer with
            | Raise _ => (HostProfile.empty, w1)
            | Ok response =>
                let guard :=
                  truthy response &&
                  match response with
                  | PDict d => negb (has_key d (lit "errors"))
                  | _ => false
                  end in
                let '(done, h) :=
                  if guard
                  then profile_block response (datetime_now_year (upstream w1))
                         HostProfile.empty
                  else (Some tt, HostProfile.empty) in
                match done with
                | None => (h, w1)
                | Some _ =>
                    let '(listings, w2) :=
                      call (EvGetListingsFromUser host_id)
                        (pyairbnb_get_listings_from_user host_id api_key PROXY_URL)
                        w1 in
                    (mk (host_name h) (host_rating h) (host_reviews_count h)
                        (host_joined_year h) (host_years_active h)
                        (total_listings listings),
                     w2)
                end
            end in
          (fields, <[host_id := fields]> host_cache, w3)
      end
  end.

(** ** [extract_listing_data]

    Only [details.get] can raise here, when [details] is not a dict;
    nothing has been touched by then. *)
Definition extract_listing_data (room_id : str) (details : pyval)
    (host_cache : gmap str HostProfile.t) (w : World)
    : result Row.t * gmap str HostProfile.t * World :=
  match get details (lit "title") (PStr []) with
  | Raise e => (Raise e, host_cache, w)
  | Ok listing_title =>
  match get details (lit "description") (PStr []) with
  | Raise e => (Raise e, host_cache, w)
  | Ok description =>
  let license_code := extract_license_code description in
  match get details (lit "host") (PDict []) with
  | Raise e => (Raise e, host_cache, w)
  | Ok host_data =>
  let host_id :=
    if isinstance_dict host_data then
      match get host_data (lit "id") (PStr []) with
      | Ok v => to_str v
      | Raise _ => []
      end
    else [] in
  let '(host_fields, host_cache', w') :=
    fetch_host_profile_fields host_id host_cache w in
  (Ok (Row.mk
         room_id
         (lit "https://www.airbnb.com/rooms/" ++ room_id)
         listing_title
         license_code
         host_id
         (host_name host_fields)
         (match host_id with
          | [] => []
          | _ => lit "https://www.airbnb.com/users/show/" ++ host_id
          end)
         (host_rating host_fields)
         (host_reviews_count host_fields)
         (host_joined_year host_fields)
         (host_years_active host_fields)
         (host_total_listings host_fields)),
   host_cache', w')
  end end end.

(** ** [write_csv]: the file is opened with mode w, the header written,
    then the rows. *)
Definition write_csv (records : list Row.t) (w : World) : World :=
  set_csv_file (Some records) w.

(** ** [get_room_ids_from_host] *)
Definition get_room_ids_from_host (host_id : str) (w : World)
    : result (list str) * World :=
  let '((api_key, _), w0) := get_api_credentials w in
  match
    call (EvGetListingsFromUser host_id)
      (pyairbnb_get_listings_from_user host_id api_key PROXY_URL) w0
  with
  | (Raise e, w1) => (Raise e, w1)
  | (Ok answer, w1) =>
      let listings := if truthy answer then answer else PList [] in
      match iter listings with
      | Raise e => (Raise e, w1)
      | Ok items =>
          match room_ids_loop [] items with
          | Raise e => (Raise e, w1)
          | Ok room_ids => (Ok (dict_fromkeys room_ids), w1)
          end
      end
  end.

(** ** [main] *)

(** What the [for] loop of [main] carries from one listing to the next. *)
Record Loop : Type := mkLoop {
  records : list Row.t;
  host_cache : gmap str HostProfile.t;
  world : World
}.

(** The body of the loop for one [room_id].  The progress lines go to
    standard output; the one after [save_processed_id] can raise (a
    title that cannot be sliced), which the [except] catches after the
    row was appended and the identifier saved, so that both ways reach
    the same [time.sleep]. *)
Definition loop_body (room_id : str) (st : Loop) : Loop :=
  match get_listing_details room_id (world st) with
  | (Raise _, w1) =>
      (* except Exception as e: print; then the sleep after the try *)
      mkLoop (records st) (host_cache st) (sleep InterRequest DELAY_BETWEEN_DETAILS w1)
  | (Ok details, w1) =>
      if negb (truthy details) then
        (* continue *)
        mkLoop (records st) (host_cache st) w1
      else
        match extract_listing_data room_id details (host_cache st) w1 with
        | (Raise _, cache', w2) =>
            mkLoop (records st) cache' (sleep InterRequest DELAY_BETWEEN_DETAILS w2)
        | (Ok rec, cache', w2) =>
            mkLoop (records st ++ [rec]) cache'
              (sleep InterRequest DELAY_BETWEEN_DETAILS (save_processed_id room_id w2))
        end
  end.

Fixpoint process (remaining : list str) (st : Loop) : Loop :=
  match remaining with
  | [] => st
  | room_id :: rest => process rest (loop_body room_id st)
  end.

(** [[rid for rid in room_ids if rid not in processed_ids]] *)
Definition remaining_of (room_ids : list str) (processed_ids : gset str) : list str :=
  List.filter (fun rid => negb (bool_decide (rid ∈ processed_ids))) room_ids.

(** [HOST_URL] is [os.environ.get("HOST_URL", "")]: [None] when the
    variable is not set.  The result is [Ok tt] when [main] returns and
    [Raise e] when an exception leaves it. *)
Definition main (HOST_URL : option str) (w : World) : result unit * World :=
  let host_url := strip (match HOST_URL with Some v => v | None => [] end) in
  match host_url with
  | [] => (Ok tt, w)
  | _ =>
      match parse_host_id_from_url host_url with
      | Raise e => (Raise e, w)
      | Ok [] => (Ok tt, w)
      | Ok host_id =>
          let w1 := write_csv [] w in
          let processed_ids := load_processed_ids w1 in
          match get_room_ids_from_host host_id w1 with
          | (Raise e, w2) => (Raise e, w2)
          | (Ok room_ids, w2) =>
              let remaining := remaining_of room_ids processed_ids in
              let st := process remaining (mkLoop [] ∅ w2) in
              (Ok tt, write_csv (records st) (world st))
          end
      end
  end.

End Script.

Arguments World U : clear implicits.
Arguments Loop U : clear implicits.

(* ===================================================================== *)
(** * A scripted world *)
(* ===================================================================== *)

(** To run the script on concrete inputs the interface needs an
    instance.  [Reference.urlparse_path] reads [urlsplit] and [urlparse]
    of CPython 3.12 for the path component; whether the text between the
    brackets of a bracketed host is an IP literal is not looked at.
    [Reference.fromisoformat_year] accepts a text that starts with four
    decimal digits and a hyphen.  The properties below are proved for
    every instance; these two are used on plain inputs only. *)
Module Reference.

Definition is_char (c : ascii) (x : ascii) : bool := ascii_eqb x c.
Definition before (c : ascii) (s : str) : str :=
  take_while (fun x => negb (is_char c x)) s.
Definition from (c : ascii) (s : str) : str :=
  drop_while (fun x => negb (is_char c x)) s.

Definition is_ascii_alpha (c : ascii) : bool :=
  between 65 90 (code c) || between 97 122 (code c).
Definition scheme_char (c : ascii) : bool :=
  is_ascii_alpha c || is_decimal c || is_char "+" c || is_char "-" c || is_char "." c.

(** The schemes of [uses_params]. *)
Definition uses_params : list str :=
  List.map lit
    [ EmptyString; "ftp"; "hdl"; "prospero"; "http"; "imap"; "https"; "shttp";
      "rtsp"; "rtspu"; "sip"; "sips"; "mms"; "sftp"; "tel" ]%string.

(** [(scheme, rest)] *)
Definition split_scheme (url : str) : str * str :=
  match before ":" url, from ":" url with
  | c :: pre, _ :: rest =>
      if is_ascii_alpha c && forallb scheme_char (c :: pre)
      then (List.map lower (c :: pre), rest)
      else ([], url)
  | _, _ => ([], url)
  end.

(** [(netloc, rest)] of a text that starts with two slashes. *)
Definition split_netloc (url : str) : str * str :=
  let delim x := is_char "/" x || is_char "?" x || is_char "#" x in
  (take_while (fun x => negb (delim x)) url, drop_while (fun x => negb (delim x)) url).

(** [_splitparams(url)[0]] *)
Definition split_params (url : str) : str :=
  let tail := rev (take_while (fun x => negb (is_char "/" x)) (rev url)) in
  let head := rev (drop_while (fun x => negb (is_char "/" x)) (rev url)) in
  head ++ before ";" tail.

Definition urlparse_path (s : str) : result str :=
  let url := drop_while (fun c => (code c <=? 32)%N) s in
  let url := List.filter (fun c => negb ((code c =? 9)%N || (code c =? 10)%N || (code c =? 13)%N)) url in
  let '(scheme, url) := split_scheme url in
  let '(bad, url) :=
    match url with
    | c1 :: c2 :: after =>
        if is_char "/" c1 && is_char "/" c2 then
          let '(netloc, rest) := split_netloc after in
          (xorb (existsb (is_char "[") netloc) (existsb (is_char "]") netloc), rest)
        else (false, url)
    | _ => (false, url)
    end in
  if bad then Raise ValueError
  else
    let url := before "?" (before "#" url) in
    Ok (if existsb (str_eqb scheme) uses_params && existsb (is_char ";") url
        then split_params url else url).

Definition digit_value (c : ascii) : Z := Z.of_N (code c) - 48.

Definition fromisoformat_year (s : str) : result Z :=
  match s with
  | a :: b :: c :: d :: h :: _ =>
      if forallb is_decimal [a; b; c; d] && is_char "-" h
      then Ok (1000 * digit_value a + 100 * digit_value b
               + 10 * digit_value c + digit_value d)
      else Raise ValueError
  | _ => Raise ValueError
  end.

End Reference.

(** The marketplace as a script: the answer of the listing enumeration,
    the answers of the detail fetch for each room in the order they will
    be given, the answers of the other two calls, and the year. *)
Module Scripted.

Record t : Type := mk {
  listings : result pyval;
  details : list (str * list (result pyval));
  host_details : result pyval;
  api_key : result pyval;
  year : Z
}.

Definition unavailable : exn := ExternalError (lit "unavailable").

(** The next answer for [room_id], and the script without it. *)
Fixpoint pop (room_id : str) (d : list (str * list (result pyval)))
    : result pyval * list (str * list (result pyval)) :=
  match d with
  | [] => (Raise unavailable, [])
  | (k, answers) :: d' =>
      if str_eqb k room_id then
        match answers with
        | [] => (Raise unavailable, d)
        | a :: answers' => (a, (k, answers') :: d')
        end
      else
        let '(a, d'') := pop room_id d' in (a, (k, answers) :: d'')
  end.

#[global] Instance external : External t := {|
  pyairbnb_get_api_key := fun _ u => (api_key u, u);
  pyairbnb_get_details := fun room_id _ _ _ u =>
    let '(a, d) := pop room_id (details u) in
    (a, mk (listings u) d (host_details u) (api_key u) (year u));
  pyairbnb_get_host_details := fun _ _ _ _ _ u => (host_details u, u);
  pyairbnb_get_listings_from_user := fun _ _ _ u => (listings u, u);
  urlparse_path := Reference.urlparse_path;
  fromisoformat_year := Reference.fromisoformat_year;
  datetime_now_year := year
|}.

(** A world before any run: no files, no events. *)
Definition fresh (u : t) : World t := mkWorld u PNone None None [].

End Scripted.

(* ===================================================================== *)
(** * Vocabulary of the properties *)
(* ===================================================================== *)

Module ReShape.
Import Re.

(** A match of [r(g)] at the start of [t], as a fact about the text. *)
Definition occurs_at (ic : bool) (r g : regex) (t : str) : Prop :=
  exists a c rest, t = a ++ c ++ rest /\ Matches ic r a /\ Matches ic g c.



End ReShape.

Module Shape.

(** A bare identifier: 5 to 25 decimal digits. *)
Definition bare_id (s : str) : Prop :=
  Forall (fun c => is_decimal c = true) s /\ (5 <= length s <= 25)%nat.

(** A non-empty text of decimal digits. *)
Definition decimal_string (s : str) : Prop :=
  s <> [] /\ Forall (fun c => is_decimal c = true) s.

(** After [pre], [path] reads /users/show/ or /users/profile/ and then
    the digits [ds], all of them. *)
Definition users_occurrence (path pre ds : str) : Prop :=
  exists seg rest,
    (seg = lit "show" \/ seg = lit "profile") /\
    path = pre ++ lit "/users/" ++ seg ++ lit "/" ++ ds ++ rest /\
    decimal_string ds /\
    match rest with [] => True | x :: _ => is_decimal x = false end.

End Shape.

Module LicenseShape.

(** [s] is [w] up to the case of its letters. *)
Definition same_letters (w s : str) : Prop := List.map lower s = List.map lower w.

(** The first word of each keyword and the words that may follow it. *)
Definition phrase_table : list (str * list str) :=
  [ (lit "Registration", [lit "Detail"; lit "Details"]);
    (lit "Registration", [lit "Number"; lit "No"; lit "No."; lit "Code"]);
    (lit "License", [lit "Number"; lit "No"; lit "No."; lit "Code"]);
    (lit "Permit", [lit "Number"; lit "No"; lit "No."]) ].

(** A keyword phrase: two words of the table, in any case, with
    whitespace between them. *)
Definition keyword_phrase (kw : str) : Prop :=
  exists w1 tails w2 first gap second,
    In (w1, tails) phrase_table /\ In w2 tails /\
    kw = first ++ gap ++ second /\
    same_letters w1 first /\
    gap <> [] /\ Forall (fun c => is_space c = true) gap /\
    same_letters w2 second.

(** After [pre], [clean] reads a keyword phrase, then colons and
    whitespace [sep], then the value [val]: one character at least, no
    comma and no line feed in it, and the end of the text, a comma or a
    line feed right after it. *)
Definition license_occurrence (clean pre val : str) : Prop :=
  exists kw sep rest,
    clean = pre ++ kw ++ sep ++ val ++ rest /\
    keyword_phrase kw /\
    Forall (fun c => Pattern.colon_or_space c = true) sep /\
    val <> [] /\
    Forall (fun c => Pattern.not_comma_newline c = true) val /\
    match rest with
    | [] => True
    | x :: _ => x = Pattern.comma \/ x = Pattern.newline
    end.

(** A tag at the start of [s]: [<], one character or more other than
    [>], then [>]; [rest] is what follows it. *)
Definition tag_at (s rest : str) : Prop :=
  exists body,
    s = lit "<" ++ body ++ lit ">" ++ rest /\
    body <> [] /\ Forall (fun c => c <> Pattern.gt) body.

(** [out] is [s] with every tag, found left to right, replaced by one
    space. *)
Inductive tags_replaced : str -> str -> Prop :=
| tr_nil : tags_replaced [] []
| tr_tag s rest out :
    tag_at s rest -> tags_replaced rest out ->
    tags_replaced s (lit " " ++ out)
| tr_keep c s out :
    (forall rest, ~ tag_at (c :: s) rest) -> tags_replaced s out ->
    tags_replaced (c :: s) (c :: out).

End LicenseShape.

(** What [extract_license_code] reads in a description, stated on the
    text alone: the letters of a keyword in either case, the match the
    search settles on, and the words of the value. *)
Module LicenseReading.

(** [x] is the character [c] of a keyword, in either case when [c] is a
    letter. *)
Definition either_case (c x : ascii) : Prop :=
  x = c \/
  ((65 <= code x <= 90)%N /\ (code x + 32 = code c)%N) \/
  ((65 <= code c <= 90)%N /\ (code c + 32 = code x)%N).

Definition in_any_case (w s : str) : Prop := Forall2 either_case w s.

(** A keyword: two words of the table, in any case, with whitespace
    between them. *)
Definition keyword (kw : str) : Prop :=
  exists w1 tails w2 first gap second,
    In (w1, tails) LicenseShape.phrase_table /\ In w2 tails /\
    kw = first ++ gap ++ second /\
    in_any_case w1 first /\
    gap <> [] /\ Forall (fun c => is_space c = true) gap /\
    in_any_case w2 second.

(** After [pre], [clean] reads [lead], a keyword and then colons and
    whitespace, and then the value [val]: one character at least, no
    comma and no line feed in it, and the end of the text, a comma or a
    line feed right after it. *)
Definition reading (clean pre lead val : str) : Prop :=
  exists kw sep rest,
    lead = kw ++ sep /\
    clean = pre ++ lead ++ val ++ rest /\
    keyword kw /\
    Forall (fun c => c = Pattern.colon \/ is_space c = true) sep /\
    val <> [] /\
    Forall (fun c => c <> Pattern.comma /\ c <> Pattern.newline) val /\
    match rest with
    | [] => True
    | x :: _ => x = Pattern.comma \/ x = Pattern.newline
    end.

(** The reading the search settles on: the leftmost one, and at that
    place the one whose keyword with its colons and whitespace reaches
    furthest. *)
Definition chosen (clean pre lead val : str) : Prop :=
  reading clean pre lead val /\
  (forall pre' lead' val',
     reading clean pre' lead' val' -> (length pre <= length pre')%nat) /\
  (forall lead' val',
     reading clean pre lead' val' -> (length lead' <= length lead)%nat).



End LicenseReading.

(** What a run leaves behind, as the properties read it. *)
Module Observe.

(** The text of the progress log; a log that does not exist reads as
    empty. *)
Definition ids_content {U : Type} (w : World U) : str :=
  match ids_file w with Some content => content | None => [] end.

(** The lines [save_processed_id] appends for [ids], in order. *)
Definition log_text (ids : list str) : str :=
  concat (List.map (fun room_id => room_id ++ [LF]) ids).

Definition is_sleep (e : event) : Prop :=
  match e with EvSleep _ _ => True | _ => False end.

(** The sleeps of a trace, in order. *)
Fixpoint sleeps (tr : list event) : list (sleep_site * Z) :=
  match tr with
  | [] => []
  | EvSleep site seconds :: tr' => (site, seconds) :: sleeps tr'
  | _ :: tr' => sleeps tr'
  end.

(** The rooms whose details were asked for, one entry per call. *)
Fixpoint detail_calls (tr : list event) : list str :=
  match tr with
  | [] => []
  | EvGetDetails room_id :: tr' => room_id :: detail_calls tr'
  | _ :: tr' => detail_calls tr'
  end.

(** An operation together with the count of its invocations. *)
Definition counted {S : Type} (func : S -> result pyval * S)
    : S * nat -> result pyval * (S * nat) :=
  fun sn =>
    let '(r, s') := func (fst sn) in
    (r, (s', Datatypes.S (snd sn))).

(** [time.sleep] does not invoke the operation. *)
Definition sleep_counted {S : Type} (sleep : Z -> S -> S) (seconds : Z)
    : S * nat -> S * nat :=
  fun sn => (sleep seconds (fst sn), snd sn).


(** The events of the listing enumeration, and those of a host-profile
    lookup. *)
Definition enumeration_event (e : event) : Prop :=
  match e with
  | EvGetApiKey | EvGetListingsFromUser _ => True
  | _ => False
  end.

Definition profile_event (e : event) : Prop :=
  match e with
  | EvGetApiKey | EvGetHostDetails _ | EvGetListingsFromUser _ => True
  | _ => False
  end.

(** From [w] to [w'] the two files did not change and the events added
    are all in [P]. *)
Definition extends_with {U : Type} (P : event -> Prop) (w w' : World U) : Prop :=
  csv_file w' = csv_file w /\ ids_file w' = ids_file w /\
  exists evs, trace w' = trace w ++ evs /\ Forall P evs.

(** The host reference [main] works with, and what it means for it to
    resolve. *)
Definition host_reference (HOST_URL : option str) : str :=
  strip (match HOST_URL with Some v => v | None => [] end).

Definition resolves_to {U : Type} `{!External U}
    (HOST_URL : option str) (host_id : str) : Prop :=
  parse_host_id_from_url (U := U) (host_reference HOST_URL) = Ok host_id /\
  host_id <> [].

(** The pause [main] takes at the end of a turn of its loop. *)
Definition inter_request_delay : list (sleep_site * Z) :=
  [(InterRequest, DELAY_BETWEEN_DETAILS)].

(** An identifier that a line of the log gives back as it was written:
    not empty, no whitespace in it. *)
Definition plain_id (rid : str) : Prop :=
  rid <> [] /\ Forall (fun c => is_space c = false) rid.

(** A log whose last line is complete. *)
Definition closed_log (content : str) : Prop :=
  content = [] \/ exists c, content = c ++ [LF].

(** Every turn of the loop over [l], started in [st], gets a truthy dict
    from its fetch. *)
Definition all_fetched {U : Type} `{!External U} (l : list str) (st : Loop U) : Prop :=
  forall pre rid post,
    l = pre ++ rid :: post ->
    exists details w1,
      get_listing_details rid (world (process pre st)) = (Ok details, w1) /\
      truthy details = true /\ isinstance_dict details = true.

(** The value [d.get(key)] is falsy: the key is absent, or maps to a
    falsy value. *)
Definition falsy_at (d : list (str * pyval)) (key : str) : Prop :=
  match assoc d key with
  | Some v => truthy v = false
  | None => True
  end.

(** An item on which the nested lookup of [get_room_ids_from_host], if
    it is reached, meets a dict: the item is no dict, or has a truthy
    room_id or id, or has no listing, or has a dict as its listing. *)
Definition listing_guarded (it : pyval) : Prop :=
  match it with
  | PDict d =>
      ~ falsy_at d (lit "room_id") \/ ~ falsy_at d (lit "id") \/
      match assoc d (lit "listing") with
      | Some v => isinstance_dict v = true
      | None => True
      end
  | _ => True
  end.

End Observe.

(** A run marks every listing it had to do: from [w0] to [w1] the log
    grew by one line for each enumerated identifier that was not in the
    set read at the start, in the order of the enumeration. *)
Module Marking.
Import Observe.

Definition marks_all {U : Type} `{!External U}
    (room_ids : list str) (w0 w1 : World U) : Prop :=
  ids_content w1
  = ids_content w0 ++ log_text (remaining_of room_ids (load_processed_ids w0)).

End Marking.

(** The worlds and operations the properties are run on. *)
Module Fixtures.

Definition payload (title : string) (host : pyval) : pyval :=
  PDict [ (lit "title", PStr (lit title));
          (lit "description", PStr (lit "License No: XYZ"));
          (lit "host", host) ].

Definition HOST : option str := Some (lit "https://www.airbnb.com/users/show/12345678").

(** Three listings, one of them twice; the fetch of 42 never answers. *)
Definition market : Scripted.t :=
  Scripted.mk
    (Ok (PList [ PDict [(lit "room_id", PInt 5)];
                 PDict [(lit "id", PStr (lit "42"))];
                 PDict [(lit "room_id", PInt 5)];
                 PDict [(lit "listing", PDict [(lit "id", PInt 7)])] ]))
    [ (lit "5", [Ok (payload "Loft" (PDict [(lit "id", PInt 77)]))]);
      (lit "7", [Raise Scripted.unavailable;
                 Ok (payload "Villa" (PDict [(lit "id", PNone)]))]) ]
    (Ok (PDict []))
    (Ok (PStr (lit "key")))
    2024.

(** One listing, whose fetch answers at once. *)
Definition small_market : Scripted.t :=
  Scripted.mk
    (Ok (PList [ PDict [(lit "room_id", PInt 5)] ]))
    [ (lit "5", [Ok (payload "Loft" (PDict [(lit "id", PInt 77)]))]) ]
    (Ok (PDict []))
    (Ok (PStr (lit "key")))
    2024.

(** The enumeration answers with an item whose listing is None. *)
Definition null_listing_market : Scripted.t :=
  Scripted.mk
    (Ok (PList [ PDict [(lit "listing", PNone)] ]))
    [] (Ok (PDict [])) (Ok (PStr (lit "key"))) 2024.

(** An operation that reads its answers from a script. *)
Definition scripted_op (s : list (result pyval)) : result pyval * list (result pyval) :=
  match s with
  | a :: s' => (a, s')
  | [] => (Raise Scripted.unavailable, [])
  end.

Definition no_sleep (seconds : Z) (s : list (result pyval)) : list (result pyval) := s.

End Fixtures.

(** The wrapped operation and [time.sleep] with a ledger: how many times
    the operation was invoked, and the sleeps taken, in order. *)
Module Ledger.

Definition t (S : Type) : Type := (S * (nat * list Z))%type.

Definition invoke {S : Type} (func : S -> result pyval * S)
    : t S -> result pyval * t S :=
  fun sl =>
    let '(r, s') := func (fst sl) in
    (r, (s', (Datatypes.S (fst (snd sl)), snd (snd sl)))).

(** The durations [time.sleep] takes and returns from.  On a negative
    one it raises ValueError, and on one whose deadline does not fit the
    clock (some 9.2e9 seconds, less the uptime) OverflowError or
    OSError; a billion seconds are well inside. *)
Definition sleepable (seconds : Z) : Prop := 0 <= seconds <= 1000000000.

(** [time.sleep(seconds)] for a [sleepable] duration: it is recorded and
    the call returns.  The ledger does not follow the call on another
    duration, where it raises inside the handler of the wrapper; what is
    stated with the ledger assumes [sleepable] of every wait. *)
Definition sleep {S : Type} (seconds : Z) : t S -> t S :=
  fun sl => (fst sl, (fst (snd sl), snd (snd sl) ++ [seconds])).

(** [delay * 2 ** attempt] for the first [n] attempts. *)
Definition backoffs (delay : Z) (n : nat) : list Z :=
  List.map (fun attempt => delay * 2 ^ Z.of_nat attempt) (seq 0 n).

End Ledger.

(** More vocabulary: what holds of a host profile, of a license code, of
    the calls of a run. *)
Module Invariants.
Import Observe.

(** Joined year and years active are filled together, and add up to the
    current year. *)
Definition years_consistent (this_year : Z) (fields : HostProfile.t) : Prop :=
  (HostProfile.host_joined_year fields = PStr [] /\
   HostProfile.host_years_active fields = PStr [])
  \/
  exists y,
    HostProfile.host_joined_year fields = PInt y /\
    HostProfile.host_years_active fields = PInt (this_year - y).

(** A word: not empty, no whitespace in it. *)
Definition word_like (w : str) : Prop :=
  w <> [] /\ Forall (fun c => is_space c = false) w.

(** The detail calls of a run over [ids] where the identifier at each
    position is fetched the number of times [counts] gives for it. *)
Fixpoint calls_of (ids : list str) (counts : list nat) : list str :=
  match ids, counts with
  | rid :: ids', k :: counts' => repeat rid k ++ calls_of ids' counts'
  | _, _ => []
  end.

(** The answer of the client to the host-details call carries no data:
    it is falsy, or no dict, or a dict with the key errors. *)
Definition no_data (response : pyval) : Prop :=
  truthy response = false \/
  match response with
  | PDict d => has_key d (lit "errors") = true
  | _ => True
  end.

(** The payload names no host: the key host is absent, or holds a value
    that is no dict, or a dict without id or with the empty string as
    id. *)
Definition no_host (d : list (str * pyval)) : Prop :=
  match assoc d (lit "host") with
  | Some (PDict hd) =>
      match assoc hd (lit "id") with
      | Some v => v = PStr []
      | None => True
      end
  | _ => True
  end.

(** The two links of a row are built from its identifiers. *)
Definition row_linked (row : Row.t) : Prop :=
  Row.listing_url row = lit "https://www.airbnb.com/rooms/" ++ Row.room_id row /\
  Row.host_profile_url row
  = match Row.host_id row with
    | [] => []
    | _ => lit "https://www.airbnb.com/users/show/" ++ Row.host_id row
    end.

(** The hosts whose details were asked for, one entry per call. *)
Fixpoint host_calls (tr : list event) : list str :=
  match tr with
  | [] => []
  | EvGetHostDetails host_id :: tr' => host_id :: host_calls tr'
  | _ :: tr' => host_calls tr'
  end.

(** The value [d.get(key, default)] of a dict. *)
Definition value_at (d : list (str * pyval)) (key : str) (default : pyval) : pyval :=
  match assoc d key with Some x => x | None => default end.

(** The dict [d] holds the dict [d'] under [key]. *)
Definition sub_dict (d : list (str * pyval)) (key : str) (d' : list (str * pyval))
    : Prop :=
  assoc d key = Some (PDict d').

End Invariants.

(** More scripted worlds, for the host profile, the enumeration and the
    log. *)
Module Samples.
Import Fixtures.

Definition reviews : list (str * pyval) := [ (lit "count", PInt 12) ].

Definition user_profile : list (str * pyval) :=
  [ (lit "smartName", PStr []);
    (lit "displayFirstName", PStr (lit "Ada"));
    (lit "reviewsReceivedFromGuests", PDict reviews);
    (lit "createdAt", PStr (lit "2019-03-01T10:00:00Z")) ].

Definition container : list (str * pyval) := [ (lit "userProfile", PDict user_profile) ].
Definition presentation : list (str * pyval) :=
  [ (lit "userProfileContainer", PDict container) ].
Definition stats : list (str * pyval) := [ (lit "ratingAverage", PInt 5) ].
Definition node : list (str * pyval) := [ (lit "hostRatingStats", PDict stats) ].
Definition data : list (str * pyval) :=
  [ (lit "node", PDict node); (lit "presentation", PDict presentation) ].

(** A host-details answer with every part in place. *)
Definition full_answer : list (str * pyval) := [ (lit "data", PDict data) ].

(** One listing of host 77, and what the host-details call answers. *)
Definition host_market (host_details : result pyval) : Scripted.t :=
  Scripted.mk
    (Ok (PList [ PDict [(lit "room_id", PInt 5)] ]))
    [ (lit "5", [Ok (payload "Loft" (PDict [(lit "id", PInt 77)]))]) ]
    host_details
    (Ok (PStr (lit "key")))
    2024.

(** What the enumeration answers, with no listing to fetch. *)
Definition listing_market (listings : result pyval) : Scripted.t :=
  Scripted.mk listings [] (Ok (PDict [])) (Ok (PStr (lit "key"))) 2024.

(** The fetch of the one listing answers with a text. *)
Definition text_market : Scripted.t :=
  Scripted.mk
    (Ok (PList [ PDict [(lit "room_id", PInt 5)] ]))
    [ (lit "5", [Ok (PStr (lit "oops"))]) ]
    (Ok (PDict []))
    (Ok (PStr (lit "key")))
    2024.

(** The world once the key is there, and once the details of host 77
    were asked for. *)
Definition keyed (u : Scripted.t) : World Scripted.t :=
  snd (get_api_credentials (Scripted.fresh u)).

Definition asked (u : Scripted.t) : World Scripted.t :=
  snd (call (EvGetHostDetails (lit "77"))
         (pyairbnb_get_host_details (PStr (lit "key")) COOKIES (lit "77")
            LANGUAGE PROXY_URL)
         (keyed u)).

Definition counted_listings (u : Scripted.t) : result pyval * World Scripted.t :=
  call (EvGetListingsFromUser (lit "77"))
    (pyairbnb_get_listings_from_user (lit "77") (PStr (lit "key")) PROXY_URL)
    (asked u).

(** A log with one padded line. *)
Definition padded_log : World Scripted.t :=
  mkWorld small_market PNone None (Some (lit " 5 " ++ [LF])) [].

(** One listing whose fetch answers twice, and a log whose last line has
    no line feed. *)
Definition twice_market : Scripted.t :=
  Scripted.mk
    (Ok (PList [ PDict [(lit "room_id", PInt 5)] ]))
    [ (lit "5", [Ok (payload "Loft" (PDict [(lit "id", PInt 77)]));
                 Ok (payload "Loft" (PDict [(lit "id", PInt 77)]))]) ]
    (Ok (PDict []))
    (Ok (PStr (lit "key")))
    2024.

Definition open_log : World Scripted.t :=
  mkWorld twice_market PNone None (Some (lit "12")) [].

End Samples.

(* ===================================================================== *)
(** * The matcher and the language of a pattern *)
(* ===================================================================== *)

Module ReFacts.
Import Re ReShape.

Lemma run_le_length p s : (run p s <= length s)%nat.
Proof. induction s as [|c s IH]; simpl; [lia|]. destruct (p c); simpl; lia. Qed.

Lemma run_take p s j :
  (j <= run p s)%nat -> Forall (fun x => p x = true) (firstn j s).
Proof.
  revert j. induction s as [|c s IH]; intros j Hj; simpl in *.
  - destruct j; constructor.
  - destruct j as [|j]; [constructor|]. destruct (p c) eqn:Hc; [|lia].
    simpl. constructor; [exact Hc | apply IH; lia].
Qed.

Lemma run_app p s1 s2 :
  Forall (fun x => p x = true) s1 -> (length s1 <= run p (s1 ++ s2))%nat.
Proof.
  induction 1 as [|c s1 Hc _ IH]; simpl; [lia|]. rewrite Hc. lia.
Qed.

(** The run stops at the end of the text or at a character outside the
    class. *)
Lemma run_stops p s :
  match skipn (run p s) s with
  | [] => True
  | c :: _ => p c = false
  end.
Proof.
  induction s as [|c s IH]; simpl; [exact I|].
  destruct (p c) eqn:Hc; simpl; [exact IH | exact Hc].
Qed.

Lemma in_rep_counts j lo hi n :
  In j (rep_counts lo hi n) <-> (lo <= j <= cap hi n)%nat.
Proof.
  unfold rep_counts. rewrite <- in_rev, in_seq. lia.
Qed.

Lemma cap_le hi n : (cap hi n <= n)%nat.
Proof. destruct hi; simpl; lia. Qed.

Lemma matches_eps_inv ic s : Matches ic Eps s -> s = [].
Proof. inversion 1; reflexivity. Qed.

Lemma matches_one_inv ic a s :
  Matches ic (One a) s -> exists x, s = [x] /\ cset_match ic a x = true.
Proof. inversion 1; subst; eauto. Qed.

Lemma matches_rep_inv ic a lo hi s :
  Matches ic (Rep a lo hi) s ->
  Forall (fun x => cset_match ic a x = true) s /\ (lo <= length s)%nat /\
  (forall h, hi = Some h -> (length s <= h)%nat).
Proof. inversion 1; subst; auto. Qed.

Lemma matches_seq_inv ic r1 r2 s :
  Matches ic (Seq r1 r2) s ->
  exists s1 s2, s = s1 ++ s2 /\ Matches ic r1 s1 /\ Matches ic r2 s2.
Proof. inversion 1; subst; eauto. Qed.

Lemma matches_alt_inv ic r1 r2 s :
  Matches ic (Alt r1 r2) s -> Matches ic r1 s \/ Matches ic r2 s.
Proof. inversion 1; subst; auto. Qed.

(** The matcher lists exactly the ways the pattern matches a prefix. *)
Theorem remainders_spec ic r : forall s s2,
  In s2 (remainders ic r s) <-> exists s1, s = s1 ++ s2 /\ Matches ic r s1.
Proof.
  induction r as [|a|a lo hi|r1 IH1 r2 IH2|r1 IH1 r2 IH2]; intros s s2; simpl.
  - split.
    + intros [->|[]]. exists []. split; [reflexivity|constructor].
    + intros (s1 & -> & Hm). apply matches_eps_inv in Hm as ->. now left.
  - split.
    + destruct s as [|x s']; [intros []|].
      destruct (cset_match ic a x) eqn:Hx; [|intros []].
      intros [->|[]]. exists [x]. split; [reflexivity|now constructor].
    + intros (s1 & -> & Hm). apply matches_one_inv in Hm as (x & -> & Hx).
      simpl. rewrite Hx. now left.
  - rewrite in_map_iff. split.
    + intros (j & <- & Hj). apply in_rep_counts in Hj.
      pose proof (cap_le hi (run (cset_match ic a) s)) as Hc.
      pose proof (run_le_length (cset_match ic a) s) as Hr.
      exists (firstn j s). split; [now rewrite firstn_skipn|].
      constructor.
      * apply run_take. lia.
      * rewrite length_firstn. lia.
      * intros h ->. simpl in *. rewrite length_firstn. lia.
    + intros (s1 & -> & Hm). apply matches_rep_inv in Hm as (Hall & Hlo & Hhi).
      exists (length s1). split; [apply drop_app_length|].
      apply in_rep_counts. split; [assumption|].
      pose proof (run_app (cset_match ic a) s1 s2 Hall) as Hr.
      destruct hi as [h|]; simpl; [|exact Hr].
      specialize (Hhi h eq_refl). lia.
  - rewrite in_flat_map. split.
    + intros (t & Ht & Hs2). apply IH1 in Ht as (a1 & -> & Ha1).
      apply IH2 in Hs2 as (a2 & -> & Ha2).
      exists (a1 ++ a2). split; [now rewrite app_assoc|now constructor].
    + intros (s1 & -> & Hm). apply matches_seq_inv in Hm as (a1 & a2 & -> & Ha1 & Ha2).
      exists (a2 ++ s2). split.
      * apply IH1. exists a1. split; [now rewrite app_assoc|assumption].
      * apply IH2. exists a2. split; [reflexivity|assumption].
  - rewrite in_app_iff, IH1, IH2. split.
    + intros [(s1 & -> & Hm)|(s1 & -> & Hm)]; exists s1;
        (split; [reflexivity|]); [now apply M_alt_l|now apply M_alt_r].
    + intros (s1 & -> & Hm). apply matches_alt_inv in Hm as [Hm|Hm]; [left|right]; eauto.
Qed.

Lemma fullmatch_spec ic r s : fullmatch ic r s = true <-> Matches ic r s.
Proof.
  unfold fullmatch. rewrite existsb_exists. split.
  - intros ([|] & Hin & Hnil); [|discriminate].
    apply remainders_spec in Hin as (s1 & -> & Hm). now rewrite app_nil_r.
  - intros Hm. exists []. split; [|reflexivity].
    apply remainders_spec. exists s. split; [now rewrite app_nil_r|assumption].
Qed.

(** A word of the pattern matches itself, letter by letter; under
    [re.IGNORECASE], up to case. *)
Lemma matches_word ic w s :
  Matches ic (word w) s <->
  Forall2 (fun c x => cset_match ic (Lit c) x = true) w s.
Proof.
  revert s. induction w as [|c w IH]; intros s; simpl.
  - split.
    + intros Hm. apply matches_eps_inv in Hm as ->. constructor.
    + intros Hf. apply Forall2_nil_inv_l in Hf as ->. constructor.
  - split.
    + intros Hm. apply matches_seq_inv in Hm as (a1 & a2 & -> & Ha1 & Ha2).
      apply matches_one_inv in Ha1 as (x & -> & Hx). simpl.
      constructor; [assumption|now apply IH].
    + intros Hf. apply Forall2_cons_inv_l in Hf as (y & l' & Hy & Hl & ->).
      change (y :: l') with ([y] ++ l'). constructor; [now constructor|now apply IH].
Qed.

Lemma ascii_eqb_eq a b : ascii_eqb a b = true <-> a = b.
Proof. apply Ascii.eqb_eq. Qed.

Lemma matches_word_exact w s : Matches false (word w) s <-> s = w.
Proof.
  rewrite matches_word. split.
  - induction 1 as [|c x w s Hc _ IH]; [reflexivity|].
    simpl in Hc. apply ascii_eqb_eq in Hc. now subst.
  - intros ->. induction w; constructor; [|assumption].
    simpl. now apply ascii_eqb_eq.
Qed.

Lemma matches_rep_cls ic p lo hi s :
  Matches ic (Rep (Cls p) lo hi) s <->
  Forall (fun x => p x = true) s /\ (lo <= length s)%nat /\
  (forall h, hi = Some h -> (length s <= h)%nat).
Proof.
  split.
  - apply matches_rep_inv.
  - intros (H1 & H2 & H3). now constructor.
Qed.

Lemma first_some_sound {A B} (f : A -> option B) l y :
  first_some f l = Some y -> exists x, In x l /\ f x = Some y.
Proof.
  induction l as [|x l IH]; simpl; [discriminate|].
  destruct (f x) eqn:Hx.
  - intros [= <-]. eauto.
  - intros H. destruct (IH H) as (x' & Hin & Hx'). eauto.
Qed.

Lemma first_some_none {A B} (f : A -> option B) l :
  first_some f l = None <-> forall x, In x l -> f x = None.
Proof.
  induction l as [|x l IH]; simpl.
  - split; [intros _ x []|reflexivity].
  - destruct (f x) eqn:Hx.
    + split; [discriminate|]. intros H. rewrite <- Hx. apply H. now left.
    + rewrite IH. split.
      * intros H y [<-|Hy]; auto.
      * intros H y Hy. apply H. now right.
Qed.

Lemma rep_counts_head lo hi n :
  (lo <= cap hi n)%nat -> exists tl, rep_counts lo hi n = cap hi n :: tl.
Proof.
  intros Hle. unfold rep_counts.
  replace (S (cap hi n) - lo)%nat with (S (cap hi n - lo)) by lia.
  rewrite seq_S, rev_app_distr. simpl.
  replace (lo + (cap hi n - lo))%nat with (cap hi n) by lia. eauto.
Qed.

Lemma match_group_sound ic r g t c rest :
  match_group ic r g t = Some (c, rest) ->
  exists a, t = a ++ c ++ rest /\ Matches ic r a /\ Matches ic g c.
Proof.
  unfold match_group. intros H.
  apply first_some_sound in H as (s2 & Hin & Hg).
  destruct (remainders ic g s2) as [|s3 tl] eqn:Hr; [discriminate|].
  injection Hg as <- <-.
  apply remainders_spec in Hin as (a & -> & Ha).
  assert (In s3 (remainders ic g s2)) as Hin3 by (rewrite Hr; now left).
  apply remainders_spec in Hin3 as (c & -> & Hc).
  exists a. rewrite length_app.
  replace (length c + length s3 - length s3)%nat with (length c) by lia.
  rewrite take_app_length. auto.
Qed.

Lemma match_group_none ic r g t :
  match_group ic r g t = None <-> ~ occurs_at ic r g t.
Proof.
  split.
  - intros Hnone (a & c & rest & -> & Ha & Hc).
    unfold match_group in Hnone. rewrite first_some_none in Hnone.
    specialize (Hnone (c ++ rest)).
    assert (In (c ++ rest) (remainders ic r (a ++ c ++ rest))) as Hin
      by (apply remainders_spec; eauto).
    specialize (Hnone Hin).
    assert (In rest (remainders ic g (c ++ rest))) as Hin'
      by (apply remainders_spec; eauto).
    destruct (remainders ic g (c ++ rest)); [destruct Hin'|discriminate].
  - intros Hno. destruct (match_group ic r g t) as [[c rest]|] eqn:Hm; [|reflexivity].
    exfalso. apply Hno. apply match_group_sound in Hm as (a & -> & Ha & Hc).
    exists a, c, rest. auto.
Qed.

Lemma match_group_some ic r g t :
  occurs_at ic r g t -> exists c rest, match_group ic r g t = Some (c, rest).
Proof.
  intros Ho. destruct (match_group ic r g t) as [[c rest]|] eqn:Hm; [eauto|].
  apply match_group_none in Hm. contradiction.
Qed.

(** A greedy class repetition at the end of the pattern takes the whole
    run: what follows the match does not start with a character of the
    class. *)
Lemma run_ext p q s : (forall x, p x = q x) -> run p s = run q s.
Proof.
  intros H. induction s as [|c s IH]; simpl; [reflexivity|].
  rewrite H, IH. reflexivity.
Qed.

Lemma match_group_greedy ic r p lo t c rest :
  match_group ic r (Rep (Cls p) lo None) t = Some (c, rest) ->
  match rest with [] => True | x :: _ => p x = false end.
Proof.
  unfold match_group. intros H.
  apply first_some_sound in H as (s2 & _ & Hg). cbn [remainders] in Hg.
  rewrite (run_ext (cset_match ic (Cls p)) p s2) in Hg by reflexivity.
  destruct (Nat.le_gt_cases lo (run p s2)) as [Hle|Hgt].
  - destruct (rep_counts_head lo None (run p s2) Hle) as (tl & Htl).
    rewrite Htl in Hg. simpl in Hg. injection Hg as _ <-. apply run_stops.
  - unfold rep_counts in Hg. simpl in Hg.
    replace (S (run p s2) - lo)%nat with 0%nat in Hg by lia. discriminate.
Qed.

(** [search_group] returns the group of a match, and no position before
    that match has one. *)
Theorem search_group_sound ic r g : forall s c,
  search_group ic r g s = Some c ->
  exists pre t rest,
    s = pre ++ t /\ match_group ic r g t = Some (c, rest) /\
    (forall pre' t', s = pre' ++ t' -> (length pre' < length pre)%nat ->
       match_group ic r g t' = None).
Proof.
  induction s as [|x s IH]; intros c; simpl.
  - destruct (match_group ic r g []) as [[c' rest]|] eqn:Hm; [|discriminate].
    intros [= <-]. exists [], [], rest. repeat split; [assumption|].
    intros pre' t' _ Hlt. simpl in Hlt. lia.
  - destruct (match_group ic r g (x :: s)) as [[c' rest]|] eqn:Hm.
    + intros [= <-]. exists [], (x :: s), rest. repeat split; [assumption|].
      intros pre' t' _ Hlt. simpl in Hlt. lia.
    + intros H. apply IH in H as (pre & t & rest & -> & Ht & Hleft).
      exists (x :: pre), t, rest. repeat split; [assumption|].
      intros pre' t' Heq Hlt. destruct pre' as [|y pre'].
      * simpl in Heq. subst t'. exact Hm.
      * simpl in Heq. injection Heq as -> Heq. apply (Hleft pre' t' Heq).
        simpl in Hlt. lia.
Qed.

Theorem search_group_none ic r g : forall s,
  search_group ic r g s = None <->
  forall pre t, s = pre ++ t -> match_group ic r g t = None.
Proof.
  induction s as [|x s IH]; simpl.
  - destruct (match_group ic r g []) as [[c' rest]|] eqn:Hm.
    + split; [discriminate|]. intros H. specialize (H [] [] eq_refl). congruence.
    + split; [|reflexivity]. intros _ pre t Heq.
      symmetry in Heq. apply app_eq_nil in Heq as [-> ->]. exact Hm.
  - destruct (match_group ic r g (x :: s)) as [[c' rest]|] eqn:Hm.
    + split; [discriminate|]. intros H. specialize (H [] (x :: s) eq_refl). congruence.
    + rewrite IH. split.
      * intros H [|y pre] t Heq; simpl in Heq.
        -- now subst t.
        -- injection Heq as -> Heq. now apply (H pre t).
      * intros H pre t ->. now apply (H (x :: pre) t).
Qed.

End ReFacts.

(* ===================================================================== *)
(** * Host reference resolution *)
(* ===================================================================== *)


Module ResolverFacts.
Import Re ReShape ReFacts Shape.

Lemma span_unique p (c rest : str) :
  Forall (fun x => p x = true) c ->
  match rest with [] => True | x :: _ => p x = false end ->
  take_while p (c ++ rest) = c.
Proof.
  induction 1 as [|x c Hx _ IH]; intros Hrest; simpl.
  - destruct rest as [|y rest]; [reflexivity|]. simpl. now rewrite Hrest.
  - rewrite Hx. f_equal. now apply IH.
Qed.

Lemma matches_users_path a :
  Matches false Pattern.users_path a <->
  exists seg, (seg = lit "show" \/ seg = lit "profile") /\
              a = lit "/users/" ++ seg ++ lit "/".
Proof.
  unfold Pattern.users_path. split.
  - intros Hm.
    apply matches_seq_inv in Hm as (a1 & a2 & -> & H1 & H2).
    apply matches_seq_inv in H2 as (a3 & a4 & -> & H3 & H4).
    apply matches_word_exact in H1 as ->. apply matches_word_exact in H4 as ->.
    apply matches_alt_inv in H3 as [H3|H3]; apply matches_word_exact in H3 as ->;
      eexists; (split; [|reflexivity]); auto.
  - intros (seg & Hseg & ->).
    constructor; [now apply matches_word_exact|].
    constructor; [|now apply matches_word_exact].
    destruct Hseg as [->| ->]; [apply M_alt_l|apply M_alt_r];
      now apply matches_word_exact.
Qed.

Lemma matches_users_digits c :
  Matches false Pattern.users_digits c <-> decimal_string c.
Proof.
  unfold Pattern.users_digits, Plus, Pattern.digit, decimal_string.
  rewrite matches_rep_cls. split.
  - intros (Hall & Hlen & _). split; [|assumption].
    destruct c; [simpl in Hlen; lia|discriminate].
  - intros (Hne & Hall). repeat split; [assumption| |discriminate].
    destruct c; [contradiction|simpl; lia].
Qed.

(** The match of the pattern at the start of [t], read on the text. *)
Lemma match_users_sound t c rest :
  match_group false Pattern.users_path Pattern.users_digits t = Some (c, rest) ->
  exists seg,
    (seg = lit "show" \/ seg = lit "profile") /\
    t = lit "/users/" ++ seg ++ lit "/" ++ c ++ rest /\
    decimal_string c /\
    match rest with [] => True | x :: _ => is_decimal x = false end.
Proof.
  intros Hm. pose proof (match_group_greedy _ _ _ _ _ _ _ Hm) as Hrest.
  apply match_group_sound in Hm as (a & -> & Ha & Hc).
  apply matches_users_path in Ha as (seg & Hseg & ->).
  apply matches_users_digits in Hc.
  exists seg. repeat split; try assumption; try apply Hc.
  now rewrite <- !app_assoc.
Qed.

Lemma match_users_complete t seg c rest :
  (seg = lit "show" \/ seg = lit "profile") ->
  t = lit "/users/" ++ seg ++ lit "/" ++ c ++ rest ->
  decimal_string c ->
  match rest with [] => True | x :: _ => is_decimal x = false end ->
  match_group false Pattern.users_path Pattern.users_digits t = Some (c, rest).
Proof.
  intros Hseg Ht Hc Hrest.
  destruct (match_group_some false Pattern.users_path Pattern.users_digits t)
    as (c' & rest' & Hm).
  { exists (lit "/users/" ++ seg ++ lit "/"), c, rest. repeat split.
    - rewrite Ht. now rewrite <- !app_assoc.
    - apply matches_users_path. eauto.
    - now apply matches_users_digits. }
  rewrite Hm. f_equal.
  apply match_users_sound in Hm as (seg' & Hseg' & Ht' & Hc' & Hrest').
  rewrite Ht in Ht'. apply app_inv_head in Ht'.
  assert (c ++ rest = c' ++ rest') as Heq.
  { destruct Hseg as [->| ->], Hseg' as [->| ->]; simpl in Ht';
      try discriminate; now injection Ht'. }
  assert (c' = c) as ->.
  { rewrite <- (span_unique is_decimal c rest), <- (span_unique is_decimal c' rest');
      try assumption; try apply Hc; try apply Hc'. now rewrite Heq. }
  apply app_inv_head in Heq. now subst.
Qed.

Lemma users_occurrence_match path pre ds :
  users_occurrence path pre ds <->
  exists t rest,
    path = pre ++ t /\
    match_group false Pattern.users_path Pattern.users_digits t = Some (ds, rest).
Proof.
  split.
  - intros (seg & rest & Hseg & -> & Hds & Hrest).
    eexists _, rest. split; [reflexivity|].
    now apply (match_users_complete _ seg).
  - intros (t & rest & -> & Hm).
    apply match_users_sound in Hm as (seg & Hseg & -> & Hds & Hrest).
    exists seg, rest. auto.
Qed.

Lemma fullmatch_bare_id s :
  fullmatch false Pattern.host_id_direct s = true <-> bare_id s.
Proof.
  rewrite fullmatch_spec. unfold Pattern.host_id_direct, Pattern.digit, bare_id.
  rewrite matches_rep_cls. split.
  - intros (Hall & Hlo & Hhi). specialize (Hhi _ eq_refl). auto.
  - intros (Hall & Hlo & Hhi). repeat split; try assumption.
    intros h [= <-]. assumption.
Qed.

Lemma strip_nil : strip [] = [].
Proof. reflexivity. Qed.

Section WithExternal.
Context {U : Type} `{!External U}.

(** The resolver, case by case. *)
Lemma parse_empty : parse_host_id_from_url (U := U) [] = Ok [].
Proof. reflexivity. Qed.

Lemma parse_bare s :
  bare_id (strip s) -> parse_host_id_from_url (U := U) s = Ok (strip s).
Proof.
  intros Hb. unfold parse_host_id_from_url.
  destruct s as [|x s].
  - destruct Hb as [_ Hlen]. simpl in Hlen. lia.
  - apply fullmatch_bare_id in Hb. now rewrite Hb.
Qed.

Lemma parse_url x s :
  ~ bare_id (strip (x :: s)) ->
  parse_host_id_from_url (U := U) (x :: s) =
  match urlparse_path (strip (x :: s)) with
  | Raise _ => Ok []
  | Ok path =>
      Ok (match search_group false Pattern.users_path Pattern.users_digits path with
          | Some g => g
          | None => []
          end)
  end.
Proof.
  intros Hb. unfold parse_host_id_from_url.
  destruct (fullmatch false Pattern.host_id_direct (strip (x :: s))) eqn:Hf.
  - apply fullmatch_bare_id in Hf. contradiction.
  - destruct (urlparse_path (strip (x :: s))); reflexivity.
Qed.

Lemma search_users_some path pre0 ds0 :
  users_occurrence path pre0 ds0 ->
  exists pre ds,
    search_group false Pattern.users_path Pattern.users_digits path = Some ds /\
    users_occurrence path pre ds /\
    (forall pre' ds', users_occurrence path pre' ds' -> (length pre <= length pre')%nat).
Proof.
  intros Hocc.
  destruct (search_group false Pattern.users_path Pattern.users_digits path)
    as [ds|] eqn:Hs.
  - apply search_group_sound in Hs as (pre & t & rest & -> & Hm & Hleft).
    exists pre, ds. repeat split.
    + apply users_occurrence_match. eauto.
    + intros pre' ds' Ho. apply users_occurrence_match in Ho as (t' & rest' & Heq & Hm').
      destruct (Nat.le_gt_cases (length pre) (length pre')) as [|Hlt]; [assumption|].
      rewrite (Hleft pre' t' Heq Hlt) in Hm'. discriminate.
  - apply users_occurrence_match in Hocc as (t & rest & -> & Hm).
    rewrite search_group_none in Hs. rewrite (Hs pre0 t eq_refl) in Hm. discriminate.
Qed.

Lemma search_users_none path :
  (forall pre ds, ~ users_occurrence path pre ds) ->
  search_group false Pattern.users_path Pattern.users_digits path = None.
Proof.
  intros Hno.
  destruct (search_group false Pattern.users_path Pattern.users_digits path)
    as [ds|] eqn:Hs; [|reflexivity].
  apply search_group_sound in Hs as (pre & t & rest & -> & Hm & _).
  exfalso. apply (Hno pre ds). apply users_occurrence_match. eauto.
Qed.

(** C4.  Identity resolution: a reference whose trimmed value is 5 to 25
    digits resolves to that value; a URL whose path holds
    /users/show/<digits> or /users/profile/<digits> resolves to the
    digits of the first such place; a reference of neither shape, a URL
    that cannot be parsed included, resolves to the empty string; and no
    exception leaves the resolver. *)
Theorem identity_resolution :
  (forall s, bare_id (strip s) ->
     parse_host_id_from_url (U := U) s = Ok (strip s)) /\
  (forall s path,
     s <> [] -> ~ bare_id (strip s) ->
     urlparse_path (strip s) = Ok path ->
     (exists pre ds, users_occurrence path pre ds) ->
     exists pre ds,
       users_occurrence path pre ds /\
       (forall pre' ds', users_occurrence path pre' ds' ->
          (length pre <= length pre')%nat) /\
       parse_host_id_from_url (U := U) s = Ok ds) /\
  (forall s,
     ~ bare_id (strip s) ->
     (forall path, urlparse_path (strip s) = Ok path ->
        forall pre ds, ~ users_occurrence path pre ds) ->
     parse_host_id_from_url (U := U) s = Ok []) /\
  (forall s, exists v, parse_host_id_from_url (U := U) s = Ok v).
Proof.
  split; [exact parse_bare|]. split; [|split].
  - intros [|x s] path Hne Hb Hpath (pre0 & ds0 & Hocc); [contradiction|].
    rewrite (parse_url _ _ Hb), Hpath.
    destruct (search_users_some _ _ _ Hocc) as (pre & ds & Hs & Ho & Hleft).
    exists pre, ds. rewrite Hs. auto.
  - intros [|x s] Hb Hno; [reflexivity|].
    rewrite (parse_url _ _ Hb).
    destruct (urlparse_path (strip (x :: s))) as [path|e] eqn:Hpath; [|reflexivity].
    now rewrite (search_users_none path (Hno path eq_refl)).
  - intros s. unfold parse_host_id_from_url. destruct s as [|x s]; [eauto|].
    destruct (fullmatch _ _ _); [eauto|].
    destruct (urlparse_path _); eauto.
Qed.

(** C8, as the script has it.  The resolver returns the empty string, or
    the trimmed reference when that is 5 to 25 decimal digits, or the
    digits it captured in the path of a URL: a non-empty decimal string
    on which the pattern puts no bound of length. *)
Theorem resolver_output s v :
  parse_host_id_from_url (U := U) s = Ok v ->
  v = [] \/
  (v = strip s /\ bare_id v) \/
  (decimal_string v /\
   exists path pre, urlparse_path (strip s) = Ok path /\ users_occurrence path pre v).
Proof.
  destruct s as [|x s]; [intros [= <-]; now left|].
  destruct (fullmatch false Pattern.host_id_direct (strip (x :: s))) eqn:Hf.
  - unfold parse_host_id_from_url. rewrite Hf. intros [= <-].
    right; left. split; [reflexivity|]. now apply fullmatch_bare_id.
  - assert (~ bare_id (strip (x :: s))) as Hb.
    { intros Hb. apply fullmatch_bare_id in Hb. congruence. }
    rewrite (parse_url _ _ Hb).
    destruct (urlparse_path (strip (x :: s))) as [path|e] eqn:Hpath;
      [|intros [= <-]; now left].
    destruct (search_group false Pattern.users_path Pattern.users_digits path)
      as [ds|] eqn:Hs; intros [= <-]; [|now left].
    apply search_group_sound in Hs as (pre & t & rest & -> & Hm & _).
    right; right.
    assert (users_occurrence (pre ++ t) pre ds) as Ho
      by (apply users_occurrence_match; eauto).
    split; [|eauto]. destruct Ho as (seg & rest' & _ & _ & Hds & _). exact Hds.
Qed.

End WithExternal.
End ResolverFacts.

Module ResolverExamples.
Import Re ReFacts Shape ResolverFacts.

Lemma bare_id_by_fullmatch t :
  fullmatch false Pattern.host_id_direct t = true -> bare_id t.
Proof. apply fullmatch_bare_id. Qed.

Lemma not_bare_id_by_fullmatch t :
  fullmatch false Pattern.host_id_direct t = false -> ~ bare_id t.
Proof. intros Hf Hb. apply fullmatch_bare_id in Hb. congruence. Qed.

Lemma identity_resolution_witness :
  parse_host_id_from_url (U := Scripted.t) (lit " 12345678 ") = Ok (lit "12345678") /\
  (exists pre ds,
     users_occurrence (lit "/users/profile/1470630909781985417") pre ds /\
     (forall pre' ds',
        users_occurrence (lit "/users/profile/1470630909781985417") pre' ds' ->
        (length pre <= length pre')%nat) /\
     parse_host_id_from_url (U := Scripted.t)
       (lit "https://fr.airbnb.ca/users/profile/1470630909781985417") = Ok ds) /\
  parse_host_id_from_url (U := Scripted.t) (lit "hello") = Ok [] /\
  (exists v, parse_host_id_from_url (U := Scripted.t) (lit "http://[::1/users/show/5") = Ok v).
Proof.
  destruct (identity_resolution (U := Scripted.t)) as (H1 & H2 & H3 & H4).
  split; [|split; [|split]].
  - apply (H1 (lit " 12345678 ")). apply bare_id_by_fullmatch. vm_compute. reflexivity.
  - apply (H2 (lit "https://fr.airbnb.ca/users/profile/1470630909781985417")).
    + discriminate.
    + apply not_bare_id_by_fullmatch. vm_compute. reflexivity.
    + vm_compute. reflexivity.
    + exists (@nil ascii), (lit "1470630909781985417"), (lit "profile"), (@nil ascii).
      repeat split; try (right; reflexivity); try discriminate.
      repeat constructor.
  - apply (H3 (lit "hello")).
    + apply not_bare_id_by_fullmatch. vm_compute. reflexivity.
    + intros path Hpath pre ds (seg & rest & _ & Heq & _).
      vm_compute in Hpath. injection Hpath as <-.
      apply (f_equal (@length ascii)) in Heq. rewrite !length_app in Heq.
      simpl in Heq. lia.
  - apply H4.
Defined.

(** C8 as stated fails: the digits captured in a path keep their length,
    here 3. *)
Lemma resolver_length_counterexample :
  ~ (forall s v,
       parse_host_id_from_url (U := Scripted.t) s = Ok v ->
       v = [] \/ (decimal_string v /\ (5 <= length v <= 25)%nat)).
Proof.
  intros H.
  destruct (H (lit "https://www.airbnb.com/users/show/123") (lit "123"))
    as [Hnil|[_ Hlen]].
  - vm_compute. reflexivity.
  - discriminate.
  - simpl in Hlen. lia.
Qed.

Lemma resolver_output_witness :
  lit "123" = [] \/
  (lit "123" = strip (lit "https://www.airbnb.com/users/show/123") /\ bare_id (lit "123")) \/
  (decimal_string (lit "123") /\
   exists path pre,
     urlparse_path (U := Scripted.t) (strip (lit "https://www.airbnb.com/users/show/123"))
       = Ok path /\
     users_occurrence path pre (lit "123")).
Proof.
  apply (resolver_output (U := Scripted.t)
           (lit "https://www.airbnb.com/users/show/123") (lit "123")).
  vm_compute. reflexivity.
Defined.

End ResolverExamples.

(* ===================================================================== *)
(** * License extraction *)
(* ===================================================================== *)


Module LicenseFacts.
Import Re ReShape ReFacts LicenseShape.

Lemma same_letters_word w s : Matches true (word w) s <-> same_letters w s.
Proof.
  rewrite matches_word. unfold same_letters. split.
  - induction 1 as [|c x w s Hc _ IH]; [reflexivity|].
    simpl in *. apply ascii_eqb_eq in Hc. now rewrite Hc, IH.
  - revert s. induction w as [|c w IH]; intros s Hs.
    + destruct s; [constructor|discriminate].
    + destruct s as [|x s]; [discriminate|]. simpl in Hs. injection Hs as Hx Hs.
      constructor; [|now apply IH]. simpl. now apply ascii_eqb_eq.
Qed.

Lemma matches_opt_lit c s :
  Matches true (Opt (Lit c)) s <-> s = [] \/ same_letters [c] s.
Proof.
  unfold Opt, same_letters. split.
  - intros Hm. apply matches_rep_inv in Hm as (Hall & _ & Hhi).
    specialize (Hhi _ eq_refl). destruct s as [|x [|y s]]; simpl in Hhi; try lia.
    + now left.
    + right. apply Forall_cons_1 in Hall as [Hx _]. simpl in *.
      apply ascii_eqb_eq in Hx. now rewrite Hx.
  - intros [->|Hs].
    + constructor; [constructor|simpl; lia|intros h [= <-]; simpl; lia].
    + destruct s as [|x [|y s]]; try discriminate. simpl in Hs. injection Hs as Hx.
      constructor; [|simpl; lia|intros h [= <-]; simpl; lia].
      constructor; [|constructor]. simpl. now apply ascii_eqb_eq.
Qed.

Lemma same_letters_app w1 w2 s1 s2 :
  same_letters w1 s1 -> same_letters w2 s2 -> same_letters (w1 ++ w2) (s1 ++ s2).
Proof. unfold same_letters. intros H1 H2. now rewrite !map_app, H1, H2. Qed.

Lemma same_letters_split w1 w2 s :
  same_letters (w1 ++ w2) s ->
  exists s1 s2, s = s1 ++ s2 /\ same_letters w1 s1 /\ same_letters w2 s2.
Proof.
  unfold same_letters. rewrite map_app. intros H.
  apply map_eq_app in H as (s1 & s2 & -> & H1 & H2). eauto.
Qed.

(** A word of the pattern followed by an optional letter. *)
Lemma matches_word_opt w c s :
  Matches true (Seq (word w) (Opt (Lit c))) s <->
  same_letters w s \/ same_letters (w ++ [c]) s.
Proof.
  split.
  - intros Hm. apply matches_seq_inv in Hm as (s1 & s2 & -> & H1 & H2).
    apply same_letters_word in H1. apply matches_opt_lit in H2 as [->|H2].
    + left. now rewrite app_nil_r.
    + right. now apply same_letters_app.
  - intros [H|H].
    + rewrite <- (app_nil_r s). constructor; [now apply same_letters_word|].
      apply matches_opt_lit. now left.
    + apply same_letters_split in H as (s1 & s2 & -> & H1 & H2).
      constructor; [now apply same_letters_word|]. apply matches_opt_lit. now right.
Qed.

Lemma matches_plus_space gap :
  Matches true (Plus Pattern.space) gap <->
  gap <> [] /\ Forall (fun c => is_space c = true) gap.
Proof.
  unfold Plus, Pattern.space. rewrite matches_rep_cls. split.
  - intros (Hall & Hlen & _). split; [|assumption].
    destruct gap; [simpl in Hlen; lia|discriminate].
  - intros (Hne & Hall). repeat split; [assumption| |discriminate].
    destruct gap; [contradiction|simpl; lia].
Qed.

Lemma matches_number_no_code s :
  Matches true Pattern.number_no_code s <->
  exists w2, In w2 [lit "Number"; lit "No"; lit "No."; lit "Code"] /\ same_letters w2 s.
Proof.
  unfold Pattern.number_no_code. split.
  - intros Hm. apply matches_alt_inv in Hm as [Hm|Hm].
    { apply same_letters_word in Hm. eexists. split; [|exact Hm]. simpl; auto. }
    apply matches_alt_inv in Hm as [Hm|Hm].
    + apply matches_word_opt in Hm as [Hm|Hm]; eexists; (split; [|exact Hm]); simpl; auto.
    + apply same_letters_word in Hm. eexists. split; [|exact Hm]. simpl; auto 6.
  - intros (w2 & Hin & Hs). simpl in Hin.
    destruct Hin as [<-|[<-|[<-|[<-|[]]]]].
    + apply M_alt_l. now apply same_letters_word.
    + apply M_alt_r, M_alt_l. apply matches_word_opt. now left.
    + apply M_alt_r, M_alt_l. apply matches_word_opt. now right.
    + apply M_alt_r, M_alt_r. now apply same_letters_word.
Qed.

Lemma matches_number_no s :
  Matches true Pattern.number_no s <->
  exists w2, In w2 [lit "Number"; lit "No"; lit "No."] /\ same_letters w2 s.
Proof.
  unfold Pattern.number_no. split.
  - intros Hm. apply matches_alt_inv in Hm as [Hm|Hm].
    { apply same_letters_word in Hm. eexists. split; [|exact Hm]. simpl; auto. }
    apply matches_word_opt in Hm as [Hm|Hm]; eexists; (split; [|exact Hm]); simpl; auto.
  - intros (w2 & Hin & Hs). simpl in Hin.
    destruct Hin as [<-|[<-|[<-|[]]]].
    + apply M_alt_l. now apply same_letters_word.
    + apply M_alt_r. apply matches_word_opt. now left.
    + apply M_alt_r. apply matches_word_opt. now right.
Qed.

Lemma matches_detail s :
  Matches true (Seq (word (lit "Detail")) (Opt (Lit "s"))) s <->
  exists w2, In w2 [lit "Detail"; lit "Details"] /\ same_letters w2 s.
Proof.
  rewrite matches_word_opt. split.
  - intros [H|H]; eexists; (split; [|exact H]); simpl; auto.
  - intros (w2 & Hin & Hs). simpl in Hin. destruct Hin as [<-|[<-|[]]]; auto.
Qed.

(** One entry of [keywords]: a first word, whitespace, a second part. *)
Lemma matches_entry w1 tail (tails : list str) kw :
  (forall s, Matches true tail s <-> exists w2, In w2 tails /\ same_letters w2 s) ->
  Matches true (Seq (word w1) (Seq (Plus Pattern.space) tail)) kw <->
  exists w2 first gap second,
    In w2 tails /\ kw = first ++ gap ++ second /\ same_letters w1 first /\
    gap <> [] /\ Forall (fun c => is_space c = true) gap /\ same_letters w2 second.
Proof.
  intros Htail. split.
  - intros Hm. apply matches_seq_inv in Hm as (first & s2 & -> & H1 & H2).
    apply matches_seq_inv in H2 as (gap & second & -> & H2 & H3).
    apply same_letters_word in H1. apply matches_plus_space in H2 as [Hne Hall].
    apply Htail in H3 as (w2 & Hin & Hs).
    exists w2, first, gap, second. auto 10.
  - intros (w2 & first & gap & second & Hin & -> & H1 & Hne & Hall & Hs).
    constructor; [now apply same_letters_word|].
    constructor; [now apply matches_plus_space|].
    apply Htail. eauto.
Qed.

(** The alternation of the four keywords matches the keyword phrases. *)
Theorem matches_keywords kw :
  Matches true (Pattern.alternation Pattern.keywords) kw <-> keyword_phrase kw.
Proof.
  unfold keyword_phrase, phrase_table. cbn [Pattern.alternation Pattern.keywords].
  split.
  - intros Hm.
    apply matches_alt_inv in Hm as [Hm|Hm];
      [|apply matches_alt_inv in Hm as [Hm|Hm];
        [|apply matches_alt_inv in Hm as [Hm|Hm]]].
    + apply (matches_entry _ _ _ _ matches_detail) in Hm
        as (w2 & first & gap & second & Hin & Hrest).
      exists (lit "Registration"), [lit "Detail"; lit "Details"], w2, first, gap, second.
      split; [simpl; auto|]. split; assumption.
    + apply (matches_entry _ _ _ _ matches_number_no_code) in Hm
        as (w2 & first & gap & second & Hin & Hrest).
      exists (lit "Registration"), [lit "Number"; lit "No"; lit "No."; lit "Code"],
        w2, first, gap, second.
      split; [simpl; auto|]. split; assumption.
    + apply (matches_entry _ _ _ _ matches_number_no_code) in Hm
        as (w2 & first & gap & second & Hin & Hrest).
      exists (lit "License"), [lit "Number"; lit "No"; lit "No."; lit "Code"],
        w2, first, gap, second.
      split; [simpl; auto|]. split; assumption.
    + apply (matches_entry _ _ _ _ matches_number_no) in Hm
        as (w2 & first & gap & second & Hin & Hrest).
      exists (lit "Permit"), [lit "Number"; lit "No"; lit "No."],
        w2, first, gap, second.
      split; [simpl; auto 6|]. split; assumption.
  - intros (w1 & tails & w2 & first & gap & second & Hin & Hrest).
    simpl in Hin. destruct Hin as [Hin|[Hin|[Hin|[Hin|[]]]]];
      injection Hin as <- <-.
    + apply M_alt_l. apply (matches_entry _ _ _ _ matches_detail). eauto 10.
    + apply M_alt_r, M_alt_l.
      apply (matches_entry _ _ _ _ matches_number_no_code). eauto 10.
    + apply M_alt_r, M_alt_r, M_alt_l.
      apply (matches_entry _ _ _ _ matches_number_no_code). eauto 10.
    + apply M_alt_r, M_alt_r, M_alt_r.
      apply (matches_entry _ _ _ _ matches_number_no). eauto 10.
Qed.

(** ** Tags *)

Lemma neq_gt_class c :
  negb (ascii_eqb c Pattern.gt) = true <-> c <> Pattern.gt.
Proof.
  rewrite negb_true_iff. split.
  - intros H ->. unfold ascii_eqb in H. now rewrite Ascii.eqb_refl in H.
  - intros H. destruct (ascii_eqb c Pattern.gt) eqn:E; [|reflexivity].
    apply ascii_eqb_eq in E. contradiction.
Qed.

Lemma matches_tag m :
  Matches false Pattern.tag m <->
  exists body, m = lit "<" ++ body ++ lit ">" /\
               body <> [] /\ Forall (fun c => c <> Pattern.gt) body.
Proof.
  unfold Pattern.tag. split.
  - intros Hm. apply matches_seq_inv in Hm as (a1 & a2 & -> & H1 & H2).
    apply matches_seq_inv in H2 as (body & a3 & -> & H2 & H3).
    apply matches_word_exact in H1 as ->. apply matches_word_exact in H3 as ->.
    apply matches_rep_cls in H2 as (Hall & Hlen & _).
    exists body. repeat split.
    + destruct body; [simpl in Hlen; lia|discriminate].
    + eapply Forall_impl; [exact Hall|]. intros c Hc. now apply neq_gt_class.
  - intros (body & -> & Hne & Hall).
    constructor; [now apply matches_word_exact|].
    constructor; [|now apply matches_word_exact].
    apply matches_rep_cls. repeat split.
    + eapply Forall_impl; [exact Hall|]. intros c Hc. now apply neq_gt_class.
    + destruct body; [contradiction|simpl; lia].
    + discriminate.
Qed.

Lemma tag_at_remainders s rest :
  In rest (remainders false Pattern.tag s) <-> tag_at s rest.
Proof.
  rewrite remainders_spec. unfold tag_at. split.
  - intros (m & -> & Hm). apply matches_tag in Hm as (body & -> & Hne & Hall).
    exists body. rewrite <- !app_assoc. auto.
  - intros (body & -> & Hne & Hall). exists (lit "<" ++ body ++ lit ">").
    split; [now rewrite <- !app_assoc|]. apply matches_tag. eauto.
Qed.

(** The body of a tag ends at the first [>]: the tag at the start of a
    text is unique. *)
Lemma body_unique (b1 b2 r1 r2 : str) :
  Forall (fun c => c <> Pattern.gt) b1 -> Forall (fun c => c <> Pattern.gt) b2 ->
  b1 ++ Pattern.gt :: r1 = b2 ++ Pattern.gt :: r2 -> r1 = r2.
Proof.
  intros H1. revert b2. induction H1 as [|c b1 Hc _ IH]; intros b2 H2 Heq.
  - destruct H2 as [|d b2 Hd _]; simpl in Heq.
    + now injection Heq.
    + injection Heq as Hhd _. symmetry in Hhd. contradiction.
  - destruct H2 as [|d b2 Hd H2]; simpl in Heq.
    + injection Heq as Hhd _. contradiction.
    + injection Heq as _ Heq. now apply (IH b2).
Qed.

Lemma tag_at_unique s r1 r2 : tag_at s r1 -> tag_at s r2 -> r1 = r2.
Proof.
  intros (b1 & -> & _ & H1) (b2 & Heq & _ & H2).
  simpl in Heq. injection Heq as Heq. now apply (body_unique b1 b2).
Qed.

Lemma tag_at_length s rest : tag_at s rest -> (length rest + 3 <= length s)%nat.
Proof.
  intros (body & -> & Hne & _). rewrite !length_app. simpl.
  destruct body; [contradiction|simpl; lia].
Qed.

Theorem tags_replaced_unique s o1 : tags_replaced s o1 ->
  forall o2, tags_replaced s o2 -> o1 = o2.
Proof.
  induction 1 as [|s rest out Htag _ IH|c s out Hno _ IH]; intros o2 H2.
  - inversion H2 as [|s' rest' out' Htag' _|]; subst; [reflexivity|].
    apply tag_at_length in Htag'. simpl in Htag'. lia.
  - inversion H2 as [|s' rest' out' Htag' Hout'|c' s' out' Hno' _]; subst.
    + apply tag_at_length in Htag. simpl in Htag. lia.
    + rewrite (tag_at_unique _ _ _ Htag' Htag) in Hout'. f_equal. now apply IH.
    + exfalso. apply (Hno' rest Htag).
  - inversion H2 as [|s' rest' out' Htag' _|c' s' out' _ Hout']; subst.
    + exfalso. apply (Hno rest' Htag').
    + f_equal. now apply IH.
Qed.

Lemma sub_from_skip ic r repl : forall s k,
  sub_from ic r repl k s = sub_from ic r repl O (skipn k s).
Proof.
  induction s as [|x s IH]; intros k.
  - now destruct k.
  - destruct k as [|k]; [reflexivity|]. simpl skipn. rewrite <- IH. reflexivity.
Qed.

(** [re.sub] with the tag pattern replaces the tags. *)
Theorem sub_tags_replaced s :
  tags_replaced s (Re.sub false Pattern.tag (lit " ") s).
Proof.
  unfold Re.sub.
  induction s as [s IH] using (induction_ltof1 _ (@length ascii)). unfold ltof in IH.
  destruct s as [|x s]; [constructor|].
  cbn [sub_from].
  destruct (remainders false Pattern.tag (x :: s)) as [|rest tl] eqn:Hr.
  - apply tr_keep.
    + intros rest Htag. apply tag_at_remainders in Htag. rewrite Hr in Htag. destruct Htag.
    + apply IH. simpl. lia.
  - assert (tag_at (x :: s) rest) as Htag
      by (apply tag_at_remainders; rewrite Hr; now left).
    pose proof (tag_at_length _ _ Htag) as Hlen.
    destruct (length (x :: s) - length rest)%nat as [|k] eqn:Hk; [lia|].
    rewrite sub_from_skip.
    assert (skipn k s = rest) as ->.
    { destruct Htag as (body & Heq & _). simpl in Heq. injection Heq as _ ->.
      simpl in Hk. rewrite !length_app in Hk. simpl in Hk.
      assert (k = length (body ++ lit ">")) as ->
        by (rewrite length_app; simpl; lia).
      replace (body ++ ">"%char :: rest) with ((body ++ lit ">") ++ rest)
        by (now rewrite <- app_assoc).
      apply drop_app_length. }
    apply tr_tag with (rest := rest); [assumption|]. apply IH. lia.
Qed.

(** ** The search *)

Lemma not_comma_newline_false x :
  Pattern.not_comma_newline x = false -> x = Pattern.comma \/ x = Pattern.newline.
Proof.
  unfold Pattern.not_comma_newline. rewrite negb_false_iff, orb_true_iff.
  intros [H|H]; apply ascii_eqb_eq in H; auto.
Qed.

Lemma matches_license_prefix a :
  Matches true Pattern.license_prefix a <->
  exists kw sep, a = kw ++ sep /\ keyword_phrase kw /\
                 Forall (fun c => Pattern.colon_or_space c = true) sep.
Proof.
  unfold Pattern.license_prefix, Star. split.
  - intros Hm. apply matches_seq_inv in Hm as (kw & sep & -> & H1 & H2).
    apply matches_keywords in H1. apply matches_rep_cls in H2 as (Hall & _).
    eauto.
  - intros (kw & sep & -> & Hkw & Hall).
    constructor; [now apply matches_keywords|].
    apply matches_rep_cls. repeat split; [assumption|lia|discriminate].
Qed.

Lemma matches_license_value v :
  Matches true Pattern.license_value v <->
  v <> [] /\ Forall (fun c => Pattern.not_comma_newline c = true) v.
Proof.
  unfold Pattern.license_value, Plus. rewrite matches_rep_cls. split.
  - intros (Hall & Hlen & _). split; [|assumption].
    destruct v; [simpl in Hlen; lia|discriminate].
  - intros (Hne & Hall). repeat split; [assumption| |discriminate].
    destruct v; [contradiction|simpl; lia].
Qed.

Lemma match_license_sound pre t val rest :
  match_group true Pattern.license_prefix Pattern.license_value t = Some (val, rest) ->
  license_occurrence (pre ++ t) pre val.
Proof.
  intros Hm. pose proof (match_group_greedy _ _ _ _ _ _ _ Hm) as Hrest.
  apply match_group_sound in Hm as (a & -> & Ha & Hv).
  apply matches_license_prefix in Ha as (kw & sep & -> & Hkw & Hsep).
  apply matches_license_value in Hv as (Hne & Hall).
  exists kw, sep, rest. repeat split; try assumption.
  - now rewrite <- !app_assoc.
  - destruct rest as [|x rest]; [exact I|]. now apply not_comma_newline_false.
Qed.

Lemma license_occurrence_occurs clean pre val :
  license_occurrence clean pre val ->
  exists t, clean = pre ++ t /\
            occurs_at true Pattern.license_prefix Pattern.license_value t.
Proof.
  intros (kw & sep & rest & -> & Hkw & Hsep & Hne & Hall & _).
  exists (kw ++ sep ++ val ++ rest). split; [reflexivity|].
  exists (kw ++ sep), val, rest. repeat split.
  - now rewrite <- !app_assoc.
  - apply matches_license_prefix. eauto.
  - now apply matches_license_value.
Qed.

(** What the search finds in the text without tags. *)
Lemma search_license clean :
  match search_group true Pattern.license_prefix Pattern.license_value clean with
  | Some val =>
      exists pre,
        license_occurrence clean pre val /\
        forall pre' val', license_occurrence clean pre' val' ->
                          (length pre <= length pre')%nat
  | None => forall pre val, ~ license_occurrence clean pre val
  end.
Proof.
  destruct (search_group true Pattern.license_prefix Pattern.license_value clean)
    as [val|] eqn:Hs.
  - apply search_group_sound in Hs as (pre & t & rest & -> & Hm & Hleft).
    exists pre. split; [now apply (match_license_sound pre t val rest)|].
    intros pre' val' Ho. apply license_occurrence_occurs in Ho as (t' & Heq & Hocc).
    destruct (Nat.le_gt_cases (length pre) (length pre')) as [|Hlt]; [assumption|].
    apply match_group_none in Hocc; [contradiction|]. now apply (Hleft pre' t').
  - intros pre val Ho. apply license_occurrence_occurs in Ho as (t & -> & Hocc).
    rewrite search_group_none in Hs. specialize (Hs pre t eq_refl).
    apply match_group_none in Hs. contradiction.
Qed.

End LicenseFacts.

(* ===================================================================== *)
(** * Retry policy *)
(* ===================================================================== *)

Module RetryFacts.
Import Observe.

Section Loop.
Context {S : Type} (sleep : Z -> S -> S).

Lemma range_3 : range 3 = [0; 1; 2].
Proof. reflexivity. Qed.

(** One failed attempt that is not the last: the wrapper sleeps
    [delay * 2 ^ attempt] and goes on with the next attempt. *)
Lemma wrapper_loop_backoff max_retries delay func attempt rest (s s' : S) e :
  func s = (Raise e, s') ->
  attempt <> max_retries - 1 ->
  wrapper_loop sleep max_retries delay func (attempt :: rest) s =
  wrapper_loop sleep max_retries delay func rest (sleep (delay * 2 ^ attempt) s').
Proof.
  intros Hf Hne. cbn [wrapper_loop]. rewrite Hf.
  destruct (attempt =? max_retries - 1) eqn:E; [|reflexivity].
  apply Z.eqb_eq in E. contradiction.
Qed.

Lemma wrapper_loop_last max_retries delay func attempt rest (s s' : S) e :
  func s = (Raise e, s') ->
  attempt = max_retries - 1 ->
  wrapper_loop sleep max_retries delay func (attempt :: rest) s = (Raise e, s').
Proof.
  intros Hf ->. cbn [wrapper_loop]. rewrite Hf. now rewrite Z.eqb_refl.
Qed.

Lemma wrapper_loop_ok max_retries delay func attempt rest (s s' : S) v :
  func s = (Ok v, s') ->
  wrapper_loop sleep max_retries delay func (attempt :: rest) s = (Ok v, s').
Proof. intros Hf. cbn [wrapper_loop]. now rewrite Hf. Qed.

Lemma counted_eq func (s s' : S) n r :
  func s = (r, s') -> counted func (s, n) = (r, (s', Datatypes.S n)).
Proof. intros Hf. unfold counted. simpl. now rewrite Hf. Qed.

End Loop.

Section Generic.
Context {S : Type} (sleep : Z -> S -> S).

(** C3.  Retry policy with max_retries=3 and delay=2.  An operation that
    fails twice and then succeeds is invoked 3 times and its third
    answer is returned; an operation that fails every time is invoked 3
    times and the third exception is raised again as it is; between the
    attempts the wrapper sleeps 2 and then 4 seconds, and in general
    [delay * 2 ^ attempt] after the failed attempt [attempt], a value
    that depends on nothing else. *)
Theorem retry_policy :
  (forall func (s0 s1 s2 s3 : S) e1 e2 v n,
     func s0 = (Raise e1, s1) ->
     func (sleep 2 s1) = (Raise e2, s2) ->
     func (sleep 4 s2) = (Ok v, s3) ->
     retry_on_failure (sleep_counted sleep) 3 2 (counted func) (s0, n)
     = (Ok v, (s3, (3 + n)%nat))) /\
  (forall func (s0 s1 s2 s3 : S) e1 e2 e3 n,
     func s0 = (Raise e1, s1) ->
     func (sleep 2 s1) = (Raise e2, s2) ->
     func (sleep 4 s2) = (Raise e3, s3) ->
     retry_on_failure (sleep_counted sleep) 3 2 (counted func) (s0, n)
     = (Raise e3, (s3, (3 + n)%nat))) /\
  (forall max_retries delay func attempt rest (s s' : S) e,
     func s = (Raise e, s') ->
     attempt <> max_retries - 1 ->
     wrapper_loop sleep max_retries delay func (attempt :: rest) s =
     wrapper_loop sleep max_retries delay func rest (sleep (delay * 2 ^ attempt) s')).
Proof.
  split; [|split].
  - intros func s0 s1 s2 s3 e1 e2 v n H0 H1 H2.
    unfold retry_on_failure. rewrite range_3.
    rewrite (wrapper_loop_backoff _ 3 2 _ 0 _ _ _ _ (counted_eq func _ _ n _ H0))
      by lia.
    change (sleep_counted sleep (2 * 2 ^ 0) (s1, Datatypes.S n))
      with (sleep 2 s1, Datatypes.S n).
    rewrite (wrapper_loop_backoff _ 3 2 _ 1 _ _ _ _ (counted_eq func _ _ _ _ H1))
      by lia.
    change (sleep_counted sleep (2 * 2 ^ 1) (s2, Datatypes.S (Datatypes.S n)))
      with (sleep 4 s2, Datatypes.S (Datatypes.S n)).
    now rewrite (wrapper_loop_ok _ 3 2 _ 2 _ _ _ _ (counted_eq func _ _ _ _ H2)).
  - intros func s0 s1 s2 s3 e1 e2 e3 n H0 H1 H2.
    unfold retry_on_failure. rewrite range_3.
    rewrite (wrapper_loop_backoff _ 3 2 _ 0 _ _ _ _ (counted_eq func _ _ n _ H0))
      by lia.
    change (sleep_counted sleep (2 * 2 ^ 0) (s1, Datatypes.S n))
      with (sleep 2 s1, Datatypes.S n).
    rewrite (wrapper_loop_backoff _ 3 2 _ 1 _ _ _ _ (counted_eq func _ _ _ _ H1))
      by lia.
    change (sleep_counted sleep (2 * 2 ^ 1) (s2, Datatypes.S (Datatypes.S n)))
      with (sleep 4 s2, Datatypes.S (Datatypes.S n)).
    now rewrite (wrapper_loop_last _ 3 2 _ 2 _ _ _ _ (counted_eq func _ _ _ _ H2)).
  - intros max_retries delay func attempt rest s s' e Hf Hne.
    now apply (wrapper_loop_backoff sleep _ _ _ _ _ _ _ e).
Qed.

End Generic.
End RetryFacts.

(* ===================================================================== *)
(** * The pipeline *)
(* ===================================================================== *)

Module WorldFacts.
Import Observe.

Section WithExternal.
Context {U : Type} `{!External U}.

Lemma extends_refl P (w : World U) : extends_with P w w.
Proof.
  repeat split. exists []. split; [now rewrite app_nil_r|constructor].
Qed.

Lemma extends_trans P (w1 w2 w3 : World U) :
  extends_with P w1 w2 -> extends_with P w2 w3 -> extends_with P w1 w3.
Proof.
  intros (Hc1 & Hi1 & evs1 & Ht1 & Hp1) (Hc2 & Hi2 & evs2 & Ht2 & Hp2).
  repeat split; [congruence|congruence|].
  exists (evs1 ++ evs2). split.
  - rewrite Ht2, Ht1. now rewrite app_assoc.
  - apply Forall_app. auto.
Qed.

Lemma extends_weaken (P Q : event -> Prop) (w w' : World U) :
  (forall e, P e -> Q e) -> extends_with P w w' -> extends_with Q w w'.
Proof.
  intros HPQ (Hc & Hi & evs & Ht & Hp). repeat split; try assumption.
  exists evs. split; [assumption|]. eapply Forall_impl; eauto.
Qed.

Lemma emit_extends (P : event -> Prop) e (w : World U) :
  P e -> extends_with P w (emit e w).
Proof.
  intros He. repeat split. exists [e]. split; [reflexivity|]. now constructor.
Qed.

Lemma call_extends (P : event -> Prop) e f (w w' : World U) r :
  P e -> call e f w = (r, w') -> extends_with P w w'.
Proof.
  intros He. unfold call. destruct (f (upstream w)) as [r' u'].
  intros [= <- <-]. repeat split. exists [e]. split; [reflexivity|]. now constructor.
Qed.

Lemma call_trace e f (w w' : World U) r :
  call e f w = (r, w') -> trace w' = trace w ++ [e].
Proof.
  unfold call. destruct (f (upstream w)) as [r' u']. now intros [= <- <-].
Qed.

Lemma set_API_KEY_extends P k (w : World U) : extends_with P w (set_API_KEY k w).
Proof.
  repeat split. exists []. split; [simpl; now rewrite app_nil_r|constructor].
Qed.

Lemma get_api_credentials_extends (w w' : World U) keys :
  get_api_credentials w = (keys, w') -> extends_with (fun e => e = EvGetApiKey) w w'.
Proof.
  unfold get_api_credentials. intros [= _ <-].
  destruct (API_KEY w); try apply extends_refl.
  destruct (call EvGetApiKey (pyairbnb_get_api_key PROXY_URL) w) as [[k|e] w1] eqn:Hc;
    (eapply extends_trans; [eapply call_extends; [reflexivity|exact Hc]|]);
    apply set_API_KEY_extends.
Qed.

Lemma sleeps_app tr1 tr2 : sleeps (tr1 ++ tr2) = sleeps tr1 ++ sleeps tr2.
Proof.
  induction tr1 as [|e tr1 IH]; [reflexivity|].
  destruct e; simpl; now rewrite IH.
Qed.

Lemma detail_calls_app tr1 tr2 :
  detail_calls (tr1 ++ tr2) = detail_calls tr1 ++ detail_calls tr2.
Proof.
  induction tr1 as [|e tr1 IH]; [reflexivity|].
  destruct e; simpl; now rewrite IH.
Qed.

Lemma profile_events_quiet evs :
  Forall profile_event evs -> sleeps evs = [] /\ detail_calls evs = [].
Proof.
  induction 1 as [|e evs He _ [IH1 IH2]]; [split; reflexivity|].
  destruct e; simpl in *; try contradiction; auto.
Qed.

Lemma extends_profile_quiet (w w' : World U) :
  extends_with profile_event w w' ->
  sleeps (trace w') = sleeps (trace w) /\
  detail_calls (trace w') = detail_calls (trace w).
Proof.
  intros (_ & _ & evs & -> & Hp). apply profile_events_quiet in Hp as [H1 H2].
  rewrite sleeps_app, detail_calls_app, H1, H2, !app_nil_r. auto.
Qed.

(** ** [fetch_host_profile_fields] *)

Lemma fetch_empty (cache : gmap str HostProfile.t) (w : World U) :
  fetch_host_profile_fields [] cache w = (HostProfile.empty, cache, w).
Proof. reflexivity. Qed.

Lemma fetch_cached (h : str) (cache : gmap str HostProfile.t) (w : World U) fields :
  h <> [] -> cache !! h = Some fields ->
  fetch_host_profile_fields h cache w = (fields, cache, w).
Proof.
  intros Hne Hc. unfold fetch_host_profile_fields.
  destruct h; [contradiction|]. now rewrite Hc.
Qed.

Lemma fetch_uncached (h : str) (cache : gmap str HostProfile.t) (w : World U) :
  h <> [] -> cache !! h = None ->
  exists fields w',
    fetch_host_profile_fields h cache w = (fields, <[h := fields]> cache, w') /\
    extends_with profile_event w w' /\
    In (EvGetHostDetails h) (trace w').
Proof.
  intros Hne Hc. unfold fetch_host_profile_fields.
  destruct h as [|a h']; [contradiction|]. rewrite Hc.
  set (h := a :: h') in *.
  destruct (get_api_credentials w) as [[api_key cookies] w0] eqn:Hcred.
  apply get_api_credentials_extends in Hcred.
  apply (extends_weaken _ profile_event) in Hcred; [|now intros e ->].
  match goal with
  | |- context [call (EvGetHostDetails h) ?f w0] =>
      destruct (call (EvGetHostDetails h) f w0) as [answer w1] eqn:Hcall
  end.
  pose proof Hcall as Htr1. apply call_trace in Htr1.
  apply (call_extends profile_event) in Hcall; [|exact I].
  pose proof (extends_trans _ _ _ _ Hcred Hcall) as H01.
  assert (In (EvGetHostDetails h) (trace w1)) as Hin1
    by (rewrite Htr1; apply in_or_app; right; now left).
  destruct answer as [response|e].
  - match goal with
    | |- context [if ?b then profile_block ?r ?y ?h0 else ?z] =>
        destruct (if b then profile_block r y h0 else z) as [[[]|] hp]
    end.
    + match goal with
      | |- context [call (EvGetListingsFromUser h) ?f w1] =>
          destruct (call (EvGetListingsFromUser h) f w1) as [listings w2] eqn:Hcall2
      end.
      pose proof Hcall2 as Htr2. apply call_trace in Htr2.
      apply (call_extends profile_event) in Hcall2; [|exact I].
      eexists _, _. split; [reflexivity|]. split.
      * eapply extends_trans; eauto.
      * rewrite Htr2. apply in_or_app. now left.
    + eexists _, _. split; [reflexivity|]. auto.
  - eexists _, _. split; [reflexivity|]. auto.
Qed.

Lemma fetch_extends (h : str) (cache : gmap str HostProfile.t) (w w' : World U) fields cache' :
  fetch_host_profile_fields h cache w = (fields, cache', w') ->
  extends_with profile_event w w'.
Proof.
  destruct h as [|a h'] eqn:Hh.
  - rewrite fetch_empty. intros [= _ _ <-]. apply extends_refl.
  - rewrite <- Hh. assert (h <> []) as Hne by (rewrite Hh; discriminate).
    destruct (cache !! h) as [f|] eqn:Hc.
    + rewrite (fetch_cached _ _ _ _ Hne Hc). intros [= _ _ <-]. apply extends_refl.
    + destruct (fetch_uncached _ _ w Hne Hc) as (f' & w'' & -> & Hext & _).
      now intros [= _ _ <-].
Qed.

End WithExternal.
End WorldFacts.

Module ExtractFacts.
Import Observe WorldFacts.

Section WithExternal.
Context {U : Type} `{!External U}.

(** The host identifier [extract_listing_data] reads in a dict payload. *)
Lemma extract_dict (room_id : str) (d : list (str * pyval)) (cache : gmap str HostProfile.t) (w : World U) :
  exists host_id fields cache' w' row,
    extract_listing_data room_id (PDict d) cache w = (Ok row, cache', w') /\
    fetch_host_profile_fields host_id cache w = (fields, cache', w') /\
    host_id =
      match assoc d (lit "host") with
      | Some (PDict hd) =>
          to_str (match assoc hd (lit "id") with Some v => v | None => PStr [] end)
      | _ => []
      end /\
    Row.room_id row = room_id /\
    Row.host_id row = host_id /\
    Row.host_profile_url row =
      match host_id with
      | [] => []
      | _ => lit "https://www.airbnb.com/users/show/" ++ host_id
      end /\
    Row.host_name row = HostProfile.host_name fields /\
    Row.host_rating row = HostProfile.host_rating fields /\
    Row.host_total_listings_in_dubai row = HostProfile.host_total_listings fields.
Proof.
  unfold extract_listing_data. cbn [get].
  set (host_id :=
         if isinstance_dict _ then _ else _).
  destruct (fetch_host_profile_fields host_id cache w) as [[fields cache'] w'] eqn:Hf.
  exists host_id, fields, cache', w'. eexists. split; [reflexivity|].
  split; [exact Hf|]. split; [|repeat split].
  subst host_id. destruct (assoc d (lit "host")) as [[| | | | |hd]|]; reflexivity.
Qed.

Lemma extract_not_dict (room_id : str) (details : pyval) (cache : gmap str HostProfile.t) (w : World U) :
  isinstance_dict details = false ->
  extract_listing_data room_id details cache w = (Raise AttributeError, cache, w).
Proof. destruct details; try reflexivity. discriminate. Qed.

Lemma extract_effect (room_id : str) (details : pyval) (cache cache' : gmap str HostProfile.t)
    (w w' : World U) r :
  extract_listing_data room_id details cache w = (r, cache', w') ->
  extends_with profile_event w w' /\
  match r with Ok row => Row.room_id row = room_id | Raise _ => True end.
Proof.
  destruct (isinstance_dict details) eqn:Hd.
  - destruct details; try discriminate.
    destruct (extract_dict room_id d cache w)
      as (h & f & c & w1 & row & -> & Hf & _ & Hrid & _).
    intros [= <- <- <-]. split; [|assumption]. now apply fetch_extends in Hf.
  - rewrite (extract_not_dict _ _ _ _ Hd). intros [= <- <- <-].
    split; [apply extends_refl|exact I].
Qed.

(** C10.  A payload whose host dict maps id to None gives the row the
    host identifier None (the text), the profile URL that ends in /None,
    and a profile looked up under the key None: taken from the cache when
    it is there, fetched from the client and cached otherwise, never the
    profile kept for the empty identifier. *)
Theorem null_host_id (room_id : str) (d hd : list (str * pyval)) (cache : gmap str HostProfile.t) (w : World U) :
  assoc d (lit "host") = Some (PDict hd) ->
  assoc hd (lit "id") = Some PNone ->
  exists row fields cache' w',
    extract_listing_data room_id (PDict d) cache w = (Ok row, cache', w') /\
    Row.host_id row = lit "None" /\
    Row.host_profile_url row = lit "https://www.airbnb.com/users/show/None" /\
    fetch_host_profile_fields (lit "None") cache w = (fields, cache', w') /\
    Row.host_name row = HostProfile.host_name fields /\
    Row.host_rating row = HostProfile.host_rating fields /\
    Row.host_total_listings_in_dubai row = HostProfile.host_total_listings fields /\
    match cache !! lit "None" with
    | Some cached => fields = cached /\ cache' = cache /\ w' = w
    | None =>
        cache' = <[lit "None" := fields]> cache /\
        In (EvGetHostDetails (lit "None")) (trace w')
    end.
Proof.
  intros Hhost Hid.
  destruct (extract_dict room_id d cache w)
    as (h & f & c & w1 & row & Hex & Hf & Hh & _ & Hrh & Hurl & Hn & Hr & Ht).
  rewrite Hhost, Hid in Hh. change (to_str PNone) with (lit "None") in Hh. subst h.
  exists row, f, c, w1. repeat split; try assumption.
  assert (lit "None" <> []) as Hne by discriminate.
  destruct (cache !! lit "None") as [cached|] eqn:Hc.
  - rewrite (fetch_cached _ _ _ _ Hne Hc) in Hf. injection Hf as <- <- <-. auto.
  - destruct (fetch_uncached _ _ w Hne Hc) as (f' & w' & Hf' & _ & Hin).
    rewrite Hf' in Hf. injection Hf as <- <- <-. auto.
Qed.

End WithExternal.
End ExtractFacts.

Module EnumerationFacts.
Import Observe WorldFacts.

Lemma fromkeys_step_nodup (keys : list str) (k : str) :
  NoDup keys -> NoDup (if bool_decide (k ∈ keys) then keys else keys ++ [k]).
Proof.
  intros Hnd. destruct (bool_decide (k ∈ keys)) eqn:Hk; [assumption|].
  apply bool_decide_eq_false in Hk.
  apply NoDup_app. split; [assumption|]. split.
  - intros x Hx Hx'. apply list_elem_of_singleton in Hx'. now subst.
  - apply NoDup_singleton.
Qed.

Lemma fromkeys_fold_nodup (l keys : list str) :
  NoDup keys ->
  NoDup (fold_left
           (fun keys k => if bool_decide (k ∈ keys) then keys else keys ++ [k])
           l keys).
Proof.
  revert keys. induction l as [|k l IH]; intros keys Hnd; simpl; [assumption|].
  apply IH. now apply fromkeys_step_nodup.
Qed.

(** The list of enumerated identifiers has no repetition. *)
Lemma dict_fromkeys_nodup (l : list str) : NoDup (dict_fromkeys l).
Proof. apply fromkeys_fold_nodup. constructor. Qed.

Lemma fromkeys_fold_elem (l keys : list str) (x : str) :
  x ∈ fold_left
        (fun keys k => if bool_decide (k ∈ keys) then keys else keys ++ [k])
        l keys
  <-> x ∈ keys \/ x ∈ l.
Proof.
  revert keys. induction l as [|k l IH]; intros keys; simpl.
  - rewrite elem_of_nil. tauto.
  - rewrite IH, elem_of_cons. destruct (bool_decide (k ∈ keys)) eqn:Hk.
    + apply bool_decide_eq_true in Hk. split; [tauto|].
      intros [H|[->|H]]; auto.
    + rewrite elem_of_app, list_elem_of_singleton. tauto.
Qed.

Lemma dict_fromkeys_elem (l : list str) (x : str) : x ∈ dict_fromkeys l <-> x ∈ l.
Proof. unfold dict_fromkeys. rewrite fromkeys_fold_elem, elem_of_nil. tauto. Qed.

(** On a list without repetition [dict.fromkeys] changes nothing. *)
Lemma fromkeys_fold_id (l keys : list str) :
  NoDup (keys ++ l) ->
  fold_left
    (fun keys k => if bool_decide (k ∈ keys) then keys else keys ++ [k])
    l keys = keys ++ l.
Proof.
  revert keys. induction l as [|k l IH]; intros keys Hnd; simpl.
  - now rewrite app_nil_r.
  - apply NoDup_app in Hnd as Hnd'. destruct Hnd' as (_ & Hdisj & _).
    rewrite bool_decide_eq_false_2.
    + rewrite IH; [now rewrite <- app_assoc|]. now rewrite <- app_assoc.
    + intros Hk. apply (Hdisj k Hk). now left.
Qed.

(** ** The identifier of an item *)

Lemma get_dict (d : list (str * pyval)) (key : str) (default : pyval) :
  get (PDict d) key default
  = Ok (match assoc d key with Some x => x | None => default end).
Proof. reflexivity. Qed.

(** [room_id] first. *)
Lemma item_rid_room_id (d : list (str * pyval)) (v : pyval) :
  assoc d (lit "room_id") = Some v -> truthy v = true ->
  item_rid (PDict d) = Ok v.
Proof.
  intros Ha Ht. unfold item_rid. rewrite get_dict, Ha. unfold py_or. now rewrite Ht.
Qed.

Lemma falsy_at_get (d : list (str * pyval)) (key : str) :
  falsy_at d key ->
  truthy (match assoc d key with Some x => x | None => PNone end) = false.
Proof. unfold falsy_at. now destruct (assoc d key). Qed.

(** Then [id]. *)
Lemma item_rid_id (d : list (str * pyval)) (v : pyval) :
  falsy_at d (lit "room_id") ->
  assoc d (lit "id") = Some v -> truthy v = true ->
  item_rid (PDict d) = Ok v.
Proof.
  intros Hr Ha Ht. unfold item_rid. rewrite !get_dict. unfold py_or.
  rewrite (falsy_at_get _ _ Hr), Ha. now rewrite Ht.
Qed.

(** Then the [id] of the nested [listing]; an absent listing reads as
    the empty dict and gives None. *)
Lemma item_rid_listing (d : list (str * pyval)) :
  falsy_at d (lit "room_id") -> falsy_at d (lit "id") ->
  item_rid (PDict d)
  = get (match assoc d (lit "listing") with Some x => x | None => PDict [] end)
      (lit "id") PNone.
Proof.
  intros Hr Hi. unfold item_rid. rewrite !get_dict. unfold py_or.
  now rewrite (falsy_at_get _ _ Hr), (falsy_at_get _ _ Hi).
Qed.

(** A listing that is there and is no dict stops the enumeration. *)
Lemma item_rid_raises (d : list (str * pyval)) (v : pyval) :
  falsy_at d (lit "room_id") -> falsy_at d (lit "id") ->
  assoc d (lit "listing") = Some v -> isinstance_dict v = false ->
  item_rid (PDict d) = Raise AttributeError.
Proof.
  intros Hr Hi Hl Hv. rewrite (item_rid_listing _ Hr Hi), Hl.
  destruct v; try reflexivity. discriminate.
Qed.

Lemma falsy_at_dec (d : list (str * pyval)) (key : str) :
  falsy_at d key \/
  exists v, assoc d key = Some v /\ truthy v = true.
Proof.
  unfold falsy_at. destruct (assoc d key) as [v|]; [|now left].
  destruct (truthy v) eqn:Ht; [right|now left]. eauto.
Qed.

Lemma item_rid_guarded (d : list (str * pyval)) :
  listing_guarded (PDict d) -> exists rid, item_rid (PDict d) = Ok rid.
Proof.
  intros Hg.
  destruct (falsy_at_dec d (lit "room_id")) as [Hr|(v & Ha & Ht)];
    [|exists v; now apply item_rid_room_id].
  destruct (falsy_at_dec d (lit "id")) as [Hi|(v & Ha & Ht)];
    [|exists v; now apply item_rid_id].
  rewrite (item_rid_listing _ Hr Hi).
  destruct Hg as [Hg|[Hg|Hg]]; try contradiction.
  destruct (assoc d (lit "listing")) as [[| | | | |l]|]; try discriminate;
    rewrite get_dict; eauto.
Qed.

(** X24.  Away from that case the enumeration returns: every item is turned
    into an identifier or skipped. *)
Lemma room_ids_loop_guarded (items : list pyval) : forall room_ids,
  Forall listing_guarded items ->
  exists room_ids', room_ids_loop room_ids items = Ok room_ids'.
Proof.
  induction items as [|it items IH]; intros room_ids Hall; [simpl; eauto|].
  apply Forall_cons_1 in Hall as [Hit Hall]. cbn [room_ids_loop].
  unfold room_ids_step. destruct (isinstance_dict it) eqn:Hd.
  - destruct it; try discriminate.
    destruct (item_rid_guarded d Hit) as (rid & ->). now apply IH.
  - now apply IH.
Qed.

Section WithExternal.
Context {U : Type} `{!External U}.

Lemma get_room_ids_extends (host_id : str) (w w2 : World U) r :
  get_room_ids_from_host host_id w = (r, w2) ->
  extends_with enumeration_event w w2.
Proof.
  unfold get_room_ids_from_host.
  destruct (get_api_credentials w) as [[api_key cookies] w0] eqn:Hcred.
  apply get_api_credentials_extends in Hcred.
  apply (extends_weaken _ enumeration_event) in Hcred; [|now intros e ->].
  match goal with
  | |- context [call (EvGetListingsFromUser host_id) ?f w0] =>
      destruct (call (EvGetListingsFromUser host_id) f w0) as [answer w1] eqn:Hcall
  end.
  apply (call_extends enumeration_event) in Hcall; [|exact I].
  pose proof (extends_trans _ _ _ _ Hcred Hcall) as H01.
  destruct answer as [answer|e]; [|now intros [= _ <-]].
  destruct (iter _) as [items|e]; [|now intros [= _ <-]].
  destruct (room_ids_loop [] items); now intros [= _ <-].
Qed.

Lemma get_room_ids_nodup (host_id : str) (w w2 : World U) room_ids :
  get_room_ids_from_host host_id w = (Ok room_ids, w2) -> NoDup room_ids.
Proof.
  unfold get_room_ids_from_host.
  destruct (get_api_credentials w) as [[api_key cookies] w0].
  match goal with
  | |- context [call (EvGetListingsFromUser host_id) ?f w0] =>
      destruct (call (EvGetListingsFromUser host_id) f w0) as [answer w1]
  end.
  destruct answer as [answer|e]; [|discriminate].
  destruct (iter _) as [items|e]; [|discriminate].
  destruct (room_ids_loop [] items); [|discriminate].
  intros [= <- _]. apply dict_fromkeys_nodup.
Qed.

Lemma remaining_of_elem (room_ids : list str) (processed : gset str) (x : str) :
  x ∈ remaining_of room_ids processed -> x ∈ room_ids /\ x ∉ processed.
Proof.
  unfold remaining_of. rewrite !list_elem_of_In, filter_In.
  intros [Hin Hb]. split; [assumption|].
  apply negb_true_iff, bool_decide_eq_false in Hb. exact Hb.
Qed.

Lemma remaining_of_nodup (room_ids : list str) (processed : gset str) :
  NoDup room_ids -> NoDup (remaining_of room_ids processed).
Proof.
  induction 1 as [|x l Hx _ IH]; [constructor|].
  unfold remaining_of in *. simpl.
  destruct (negb (bool_decide (x ∈ processed))); [|assumption].
  constructor; [|assumption].
  intros Hin. apply remaining_of_elem in Hin as [Hin _]. contradiction.
Qed.

Lemma remaining_of_nil (room_ids : list str) (processed : gset str) :
  (forall rid, rid ∈ room_ids -> rid ∈ processed) ->
  remaining_of room_ids processed = [].
Proof.
  intros Hall. unfold remaining_of.
  induction room_ids as [|rid l IH]; [reflexivity|]. simpl.
  rewrite bool_decide_eq_true_2 by (apply Hall; now left). simpl.
  apply IH. intros x Hx. apply Hall. now right.
Qed.

End WithExternal.
End EnumerationFacts.

Module LoopFacts.
Import Observe WorldFacts ExtractFacts EnumerationFacts RetryFacts.

Section WithExternal.
Context {U : Type} `{!External U}.

(** The fetch of one listing: up to three calls, a backoff of 2 and then
    of 4 seconds between them, and the files left alone. *)
Lemma get_listing_details_spec (rid : str) (w w1 : World U) r :
  get_listing_details rid w = (r, w1) ->
  csv_file w1 = csv_file w /\ ids_file w1 = ids_file w /\
  exists backoffs,
    (backoffs = [] \/ backoffs = [2] \/ backoffs = [2; 4]) /\
    sleeps (trace w1) = sleeps (trace w) ++ List.map (pair Backoff) backoffs /\
    detail_calls (trace w1)
    = detail_calls (trace w) ++ repeat rid (Datatypes.S (length backoffs)) /\
    match r with Raise _ => backoffs = [2; 4] | Ok _ => True end.
Proof.
  unfold get_listing_details, retry_on_failure. rewrite range_3.
  set (f := pyairbnb_get_details rid CURRENCY PROXY_URL LANGUAGE).
  destruct (call (EvGetDetails rid) f w) as [[v|e] wa] eqn:H1;
    pose proof (call_trace _ _ _ _ _ H1) as T1;
    pose proof (call_extends (fun _ => True) _ _ _ _ _ I H1) as (Hc1 & Hi1 & _).
  { rewrite (wrapper_loop_ok _ 3 2 _ 0 _ _ _ _ H1). intros [= <- <-].
    split; [assumption|]. split; [assumption|]. exists []. rewrite T1.
    rewrite sleeps_app, detail_calls_app. cbn. rewrite !app_nil_r. auto. }
  rewrite (wrapper_loop_backoff _ 3 2 _ 0 _ _ _ _ H1) by lia.
  change (2 * 2 ^ 0) with 2.
  destruct (call (EvGetDetails rid) f (sleep Backoff 2 wa)) as [[v|e'] wb] eqn:H2;
    pose proof (call_trace _ _ _ _ _ H2) as T2;
    pose proof (call_extends (fun _ => True) _ _ _ _ _ I H2) as (Hc2 & Hi2 & _);
    cbn in T2, Hc2, Hi2.
  { rewrite (wrapper_loop_ok _ 3 2 _ 1 _ _ _ _ H2). intros [= <- <-].
    split; [congruence|]. split; [congruence|]. exists [2]. rewrite T2, T1.
    rewrite !sleeps_app, !detail_calls_app. cbn.
    rewrite <- !app_assoc. cbn. auto 6. }
  rewrite (wrapper_loop_backoff _ 3 2 _ 1 _ _ _ _ H2) by lia.
  change (2 * 2 ^ 1) with 4.
  destruct (call (EvGetDetails rid) f (sleep Backoff 4 wb)) as [[v|e''] wc] eqn:H3;
    pose proof (call_trace _ _ _ _ _ H3) as T3;
    pose proof (call_extends (fun _ => True) _ _ _ _ _ I H3) as (Hc3 & Hi3 & _);
    cbn in T3, Hc3, Hi3;
    [rewrite (wrapper_loop_ok _ 3 2 _ 2 _ _ _ _ H3)
    |rewrite (wrapper_loop_last _ 3 2 _ 2 _ _ _ _ H3) by reflexivity];
    intros [= <- <-];
    (split; [congruence|]); (split; [congruence|]); exists [2; 4];
    rewrite T3, T2, T1; rewrite !sleeps_app, !detail_calls_app; cbn;
    rewrite <- !app_assoc; cbn; auto 6.
Qed.





End WithExternal.
End LoopFacts.

Module MainFacts.
Import Observe WorldFacts ExtractFacts EnumerationFacts RetryFacts LoopFacts.

Section WithExternal.
Context {U : Type} `{!External U}.

Lemma main_aborted (HOST_URL : option str) (w : World U) :
  host_reference HOST_URL = [] \/
  parse_host_id_from_url (U := U) (host_reference HOST_URL) = Ok [] ->
  main HOST_URL w = (Ok tt, w).
Proof.
  unfold main, host_reference. intros [->| ->]; [reflexivity|].
  destruct (strip _); reflexivity.
Qed.

Lemma main_resolved (HOST_URL : option str) (host_id : str) (w : World U) :
  resolves_to HOST_URL host_id ->
  main HOST_URL w =
  match get_room_ids_from_host host_id (write_csv [] w) with
  | (Raise e, w2) => (Raise e, w2)
  | (Ok room_ids, w2) =>
      let st := process
                  (remaining_of room_ids (load_processed_ids (write_csv [] w)))
                  (mkLoop [] ∅ w2) in
      (Ok tt, write_csv (records st) (world st))
  end.
Proof.
  intros [Hp Hne]. unfold main. fold (host_reference HOST_URL).
  destruct (host_reference HOST_URL) as [|c s] eqn:Href.
  - cbn in Hp. injection Hp as <-. contradiction.
  - rewrite Hp. destruct host_id; [contradiction|reflexivity].
Qed.

Lemma sleep_trace site d (w : World U) :
  trace (sleep site d w) = trace w ++ [EvSleep site d].
Proof. reflexivity. Qed.

(** The sleeps of one turn of the loop: the backoffs of the fetch, then
    the pause, unless the turn ended at [continue]. *)
Lemma loop_body_sleeps (rid : str) (st : Loop U) r (w1 : World U) :
  get_listing_details rid (world st) = (r, w1) ->
  sleeps (trace (world (loop_body rid st)))
  = sleeps (trace w1)
    ++ match r with
       | Ok details => if truthy details then inter_request_delay else []
       | Raise _ => inter_request_delay
       end.
Proof.
  intros Hd. unfold loop_body. rewrite Hd.
  destruct r as [details|e].
  - destruct (truthy details); cbn [negb].
    + destruct (extract_listing_data rid details (host_cache st) w1)
        as [[[row|e] cache'] w2] eqn:Hx;
        apply extract_effect in Hx as (Hext & _);
        apply extends_profile_quiet in Hext as [Hs _]; cbn [world];
        rewrite sleep_trace, sleeps_app; cbn; now rewrite Hs.
    + cbn. now rewrite app_nil_r.
  - cbn [world]. now rewrite sleep_trace, sleeps_app.
Qed.

Lemma enumeration_quiet (w w' : World U) :
  extends_with enumeration_event w w' ->
  sleeps (trace w') = sleeps (trace w) /\
  detail_calls (trace w') = detail_calls (trace w).
Proof.
  intros Hext. apply extends_profile_quiet. revert Hext.
  apply extends_weaken. now intros [].
Qed.

End WithExternal.
End MainFacts.

Module PipelineProperties.
Import Observe WorldFacts ExtractFacts EnumerationFacts RetryFacts LoopFacts MainFacts.

Section WithExternal.
Context {U : Type} `{!External U}.



(** C9, as the script has it.  A turn of the loop sleeps for the
    backoffs of its fetch, 2 and then 4 seconds after the first and the
    second failed attempt, and then takes the pause between requests,
    unless the fetch answered with a falsy payload: the pause is taken
    after a processed listing and after a listing whose fetch or
    extraction raised, not after [continue].  Outside the turns of the
    loop a run does not sleep. *)
Theorem suspension_points :
  (forall (rid : str) (st : Loop U) r (w1 : World U),
     get_listing_details rid (world st) = (r, w1) ->
     exists backoffs,
       (backoffs = [] \/ backoffs = [2] \/ backoffs = [2; 4]) /\
       sleeps (trace w1)
       = sleeps (trace (world st)) ++ List.map (pair Backoff) backoffs /\
       sleeps (trace (world (loop_body rid st)))
       = sleeps (trace w1)
         ++ match r with
            | Ok details => if truthy details then inter_request_delay else []
            | Raise _ => inter_request_delay
            end) /\
  (forall (HOST_URL : option str) (w wf : World U) r,
     main HOST_URL w = (r, wf) ->
     sleeps (trace wf) = sleeps (trace w) \/
     exists host_id room_ids w2,
       resolves_to HOST_URL host_id /\
       get_room_ids_from_host host_id (write_csv [] w) = (Ok room_ids, w2) /\
       sleeps (trace w2) = sleeps (trace w) /\
       sleeps (trace wf)
       = sleeps (trace (world
           (process (remaining_of room_ids (load_processed_ids (write_csv [] w)))
              (mkLoop [] ∅ w2))))).
Proof.
  split.
  - intros rid st r w1 Hd.
    pose proof (loop_body_sleeps rid st r w1 Hd) as Hs.
    apply get_listing_details_spec in Hd as (_ & _ & backoffs & Hb & Hsl & _).
    exists backoffs. auto.
  - intros HOST_URL w wf r Hmain.
    destruct (host_reference HOST_URL) as [|c s] eqn:Href.
    { rewrite main_aborted in Hmain by (now left). injection Hmain as _ <-. now left. }
    destruct (parse_host_id_from_url (U := U) (host_reference HOST_URL))
      as [host_id|e] eqn:Hp.
    2:{ unfold main in Hmain. fold (host_reference HOST_URL) in Hmain.
        rewrite Href in Hmain. rewrite Href in Hp. rewrite Hp in Hmain.
        injection Hmain as _ <-. now left. }
    destruct host_id as [|a h].
    { rewrite main_aborted in Hmain by (now right). injection Hmain as _ <-. now left. }
    assert (resolves_to HOST_URL (a :: h)) as Hres by (split; [assumption|discriminate]).
    rewrite (main_resolved _ _ _ Hres) in Hmain.
    destruct (get_room_ids_from_host (a :: h) (write_csv [] w))
      as [[room_ids|e] w2] eqn:Henum.
    + right. exists (a :: h), room_ids, w2.
      apply get_room_ids_extends in Henum as Hext.
      apply enumeration_quiet in Hext as [Hs _].
      cbn zeta in Hmain. injection Hmain as _ <-. auto.
    + left. apply get_room_ids_extends in Henum.
      apply enumeration_quiet in Henum as [Hs _].
      injection Hmain as _ <-. exact Hs.
Qed.

(** A run that finds every enumerated identifier in the set it reads
    from the log fetches the details of no listing, does not sleep,
    leaves the progress log as it was, and ends by writing a table with
    no row. *)
Lemma rerun_all_loaded (HOST_URL : option str) (host_id : str)
    (w1 wb : World U) (room_ids : list str) :
  resolves_to HOST_URL host_id ->
  (forall rid, rid ∈ room_ids -> rid ∈ load_processed_ids w1) ->
  get_room_ids_from_host host_id (write_csv [] (new_process w1)) = (Ok room_ids, wb) ->
  main HOST_URL (new_process w1) = (Ok tt, write_csv [] wb) /\
  csv_file (write_csv [] wb) = Some [] /\
  ids_file (write_csv [] wb) = ids_file w1 /\
  detail_calls (trace (write_csv [] wb)) = detail_calls (trace w1) /\
  sleeps (trace (write_csv [] wb)) = sleeps (trace w1).
Proof.
  intros Hres Hall Henum2.
  rewrite (main_resolved _ _ _ Hres), Henum2. cbn zeta.
  change (load_processed_ids (write_csv [] (new_process w1)))
    with (load_processed_ids w1).
  rewrite (remaining_of_nil _ _ Hall). cbn [process records world].
  apply get_room_ids_extends in Henum2 as Hext.
  pose proof (enumeration_quiet _ _ Hext) as [Hs Hd].
  destruct Hext as (_ & Hi & _).
  repeat split; auto.
Qed.

End WithExternal.
End PipelineProperties.

(* ===================================================================== *)
(** * The progress log, written and read back *)
(* ===================================================================== *)

Module LogFacts.
Import Observe WorldFacts ExtractFacts EnumerationFacts LoopFacts MainFacts.

Lemma not_space_not_break c :
  is_space c = false -> ascii_eqb c LF = false /\ ascii_eqb c CR = false.
Proof.
  intros Hc. split.
  - destruct (ascii_eqb c LF) eqn:E; [|reflexivity].
    apply Ascii.eqb_eq in E. subst c. discriminate.
  - destruct (ascii_eqb c CR) eqn:E; [|reflexivity].
    apply Ascii.eqb_eq in E. subst c. discriminate.
Qed.

Lemma file_lines_from_plain (s t cur : str) :
  Forall (fun c => is_space c = false) s ->
  file_lines_from cur (s ++ t) = file_lines_from (cur ++ s) t.
Proof.
  intros Hs. revert cur. induction Hs as [|c s Hc _ IH]; intros cur.
  - now rewrite app_nil_r.
  - apply not_space_not_break in Hc as [H1 H2]. simpl. rewrite H1, H2.
    rewrite IH. now rewrite <- app_assoc.
Qed.

(** A complete line ends the reading of what precedes it. *)
Lemma file_lines_from_closed (c : str) : forall (t cur : str),
  file_lines_from cur (c ++ LF :: t)
  = file_lines_from cur (c ++ [LF]) ++ file_lines_from [] t.
Proof.
  induction c as [c IH] using (induction_ltof1 _ (@length ascii)). unfold ltof in IH.
  intros t cur. destruct c as [|x c]; [reflexivity|].
  cbn [app file_lines_from].
  destruct (ascii_eqb x LF) eqn:E1.
  { cbn [app]. f_equal. apply IH. simpl. lia. }
  destruct (ascii_eqb x CR) eqn:E2.
  - destruct c as [|y c]; [reflexivity|]. cbn [app].
    destruct (ascii_eqb y LF) eqn:E3; cbn [app]; f_equal.
    + apply IH. simpl. lia.
    + apply (IH (y :: c)). simpl. lia.
  - apply IH. simpl. lia.
Qed.

Lemma file_lines_app (c t : str) :
  closed_log c -> file_lines (c ++ t) = file_lines c ++ file_lines t.
Proof.
  unfold file_lines. intros [->|(c' & ->)]; [reflexivity|].
  rewrite <- app_assoc. apply file_lines_from_closed.
Qed.

Lemma file_lines_log_text (ids : list str) :
  Forall plain_id ids ->
  file_lines (log_text ids) = List.map (fun r => r ++ [LF]) ids.
Proof.
  unfold file_lines. induction 1 as [|r ids [_ Hr] _ IH]; [reflexivity|].
  unfold log_text. cbn [List.map concat]. rewrite <- app_assoc.
  rewrite (file_lines_from_plain r _ [] Hr). cbn [app file_lines_from].
  change (ascii_eqb LF LF) with true. cbv iota. f_equal. exact IH.
Qed.

Lemma drop_while_head p (x : ascii) (s : str) :
  p x = false -> drop_while p (x :: s) = x :: s.
Proof. intros H. simpl. now rewrite H. Qed.

(** A plain identifier comes back from its line. *)
Lemma strip_line (r : str) : plain_id r -> strip (r ++ [LF]) = r.
Proof.
  intros [Hne Hall]. unfold strip, lstrip, rstrip.
  destruct r as [|x r]; [contradiction|].
  apply Forall_cons_1 in Hall as Hx. destruct Hx as [Hx _].
  cbn [app]. rewrite (drop_while_head _ _ _ Hx).
  change (x :: r ++ [LF]) with ((x :: r) ++ [LF]).
  rewrite rev_app_distr. cbn [rev app].
  change (drop_while is_space (LF :: rev r ++ [x]))
    with (drop_while is_space (rev r ++ [x])).
  assert (Forall (fun c => is_space c = false) (rev r ++ [x])) as Hrev.
  { change (rev r ++ [x]) with (rev (x :: r)). now apply Forall_rev. }
  destruct (rev r ++ [x]) as [|y l] eqn:Hl.
  - destruct (rev r); discriminate.
  - apply Forall_cons_1 in Hrev as [Hy _]. rewrite (drop_while_head _ _ _ Hy).
    rewrite <- Hl. rewrite rev_app_distr, rev_involutive. reflexivity.
Qed.

Lemma stripped_lines_elem (content x : str) :
  x ∈ stripped_lines content <->
  exists line, In line (file_lines content) /\ strip line = x /\ x <> [].
Proof.
  unfold stripped_lines. rewrite elem_of_list_to_set, list_elem_of_In, in_map_iff.
  split.
  - intros (line & <- & Hin). apply filter_In in Hin as [Hin Hne].
    exists line. repeat split; [assumption|]. now destruct (strip line).
  - intros (line & Hin & <- & Hne). exists line. split; [reflexivity|].
    apply filter_In. split; [assumption|]. now destruct (strip line).
Qed.

(** What was in a closed log stays in it when lines are appended. *)
Lemma stripped_lines_old (c t x : str) :
  closed_log c -> x ∈ stripped_lines c -> x ∈ stripped_lines (c ++ t).
Proof.
  intros Hc. rewrite !stripped_lines_elem, (file_lines_app _ _ Hc).
  intros (line & Hin & Hs). exists line. split; [|assumption].
  apply in_or_app. now left.
Qed.

(** The plain identifiers appended to a closed log are read back. *)
Lemma stripped_lines_new (c : str) (ids : list str) (rid : str) :
  closed_log c -> Forall plain_id ids -> rid ∈ ids ->
  rid ∈ stripped_lines (c ++ log_text ids).
Proof.
  intros Hc Hplain Hin. rewrite stripped_lines_elem, (file_lines_app _ _ Hc).
  rewrite (file_lines_log_text _ Hplain).
  assert (plain_id rid) as Hrid by (rewrite Forall_forall in Hplain; auto).
  exists (rid ++ [LF]). split; [|split].
  - apply in_or_app. right.
    apply (in_map (fun r : str => r ++ [LF])). now apply list_elem_of_In.
  - now apply strip_line.
  - apply Hrid.
Qed.

(** An identifier with a blank before it is not read back as written. *)
Example padded_id_not_read_back :
  bool_decide (lit " 5" ∈ stripped_lines (log_text [lit " 5"])) = false /\
  bool_decide (lit "5" ∈ stripped_lines (log_text [lit " 5"])) = true.
Proof. split; vm_compute; reflexivity. Qed.

Section WithExternal.
Context {U : Type} `{!External U}.

Lemma load_processed_ids_content (w : World U) :
  load_processed_ids w = stripped_lines (ids_content w).
Proof. unfold load_processed_ids, ids_content. now destruct (ids_file w). Qed.

Lemma loop_body_fetched (rid : str) (st : Loop U) details (w1 : World U) :
  get_listing_details rid (world st) = (Ok details, w1) ->
  truthy details = true -> isinstance_dict details = true ->
  ids_content (world (loop_body rid st)) = ids_content (world st) ++ rid ++ [LF].
Proof.
  intros Hd Ht Hdict. unfold loop_body. rewrite Hd, Ht. cbn [negb].
  apply get_listing_details_spec in Hd as (_ & Hi & _).
  destruct details; try discriminate.
  destruct (extract_dict rid d (host_cache st) w1)
    as (h & f & c & w2 & row & -> & Hf & _).
  apply fetch_extends in Hf as (_ & Hi2 & _).
  cbn. unfold ids_content. now rewrite Hi2, Hi.
Qed.

Lemma all_fetched_tail (rid : str) (l : list str) (st : Loop U) :
  all_fetched (rid :: l) st -> all_fetched l (loop_body rid st).
Proof.
  intros H pre r post ->. apply (H (rid :: pre) r post). reflexivity.
Qed.

(** When every fetch delivers, every identifier of the loop is appended
    to the log. *)
Lemma process_all_fetched (l : list str) : forall st : Loop U,
  all_fetched l st ->
  ids_content (world (process l st)) = ids_content (world st) ++ log_text l.
Proof.
  induction l as [|rid l IH]; intros st Hall.
  - cbn. now rewrite app_nil_r.
  - cbn [process]. rewrite (IH _ (all_fetched_tail _ _ _ Hall)).
    destruct (Hall [] rid l eq_refl) as (d & w1 & Hd & Ht & Hdict).
    cbn [process] in Hd. rewrite (loop_body_fetched _ _ _ _ Hd Ht Hdict).
    unfold log_text. cbn [List.map concat]. now rewrite <- !app_assoc.
Qed.

Lemma remaining_or_processed (room_ids : list str) (processed : gset str) (rid : str) :
  rid ∈ room_ids -> rid ∈ processed \/ rid ∈ remaining_of room_ids processed.
Proof.
  intros Hin. destruct (decide (rid ∈ processed)) as [Hp|Hp]; [now left|right].
  unfold remaining_of. apply list_elem_of_In, filter_In.
  split; [now apply list_elem_of_In|]. now rewrite bool_decide_eq_false_2.
Qed.

(** X25.  A first run, from the side of the writer: on a closed log,
    with plain identifiers and every fetch delivering a dict, the run
    completes and every enumerated identifier is in the processed set
    read from the log it leaves. *)
Theorem first_run_marks_all (HOST_URL : option str) (host_id : str)
    (w0 wa : World U) (room_ids : list str) :
  resolves_to HOST_URL host_id ->
  get_room_ids_from_host host_id (write_csv [] w0) = (Ok room_ids, wa) ->
  closed_log (ids_content w0) ->
  Forall plain_id room_ids ->
  all_fetched (remaining_of room_ids (load_processed_ids (write_csv [] w0)))
    (mkLoop [] ∅ wa) ->
  exists w1,
    main HOST_URL w0 = (Ok tt, w1) /\
    forall rid, rid ∈ room_ids -> rid ∈ load_processed_ids w1.
Proof.
  intros Hres Henum Hclosed Hplain Hall.
  rewrite (main_resolved _ _ _ Hres), Henum. cbn zeta.
  eexists. split; [reflexivity|]. intros rid Hin.
  rewrite load_processed_ids_content.
  change (ids_content (write_csv ?r ?x)) with (ids_content x).
  rewrite (process_all_fetched _ _ Hall). cbn [world].
  apply get_room_ids_extends in Henum as (_ & Hi & _).
  assert (ids_content wa = ids_content w0) as ->
    by (unfold ids_content; now rewrite Hi).
  destruct (remaining_or_processed room_ids
              (load_processed_ids (write_csv [] w0)) rid Hin) as [Hp|Hr].
  - apply stripped_lines_old; [assumption|].
    now rewrite load_processed_ids_content in Hp.
  - apply stripped_lines_new; [assumption| |assumption].
    rewrite Forall_forall in Hplain |- *. intros x Hx.
    apply Hplain. now apply remaining_of_elem in Hx as [Hx _].
Qed.

End WithExternal.
End LogFacts.

(* ===================================================================== *)
(** * A second run *)
(* ===================================================================== *)

Module RerunFacts.
Import Observe Marking WorldFacts EnumerationFacts LoopFacts MainFacts.
Import PipelineProperties LogFacts.

Section WithExternal.
Context {U : Type} `{!External U}.

(** What a run that marked every listing leaves in the log is read back
    in full, when the log it started from ends in a complete line and
    the identifiers are plain. *)
Lemma marked_ids_loaded (room_ids : list str) (w0 w1 : World U) (rid : str) :
  closed_log (ids_content w0) -> Forall plain_id room_ids ->
  marks_all room_ids w0 w1 ->
  rid ∈ room_ids -> rid ∈ load_processed_ids w1.
Proof.
  intros Hclosed Hplain Hmarks Hrid.
  rewrite load_processed_ids_content, Hmarks.
  destruct (remaining_or_processed room_ids (load_processed_ids w0) rid Hrid)
    as [Hold|Hnew].
  - apply stripped_lines_old; [assumption|].
    now rewrite <- load_processed_ids_content.
  - apply stripped_lines_new; [assumption| |assumption].
    apply Forall_forall. intros x Hx. apply remaining_of_elem in Hx as [Hx _].
    rewrite Forall_forall in Hplain. now apply Hplain.
Qed.

(** C1.  Re-run idempotence, on a log that ends in a complete line (or
    is empty, or does not exist) and with identifiers that are plain.
    A first run whose host reference resolves and whose enumeration
    answers [room_ids] completes.  When it marked every listing it had
    to do, every identifier of [room_ids] is in the set read from the
    log it leaves; and a second run, a new process on the files of the
    first whose enumeration answers [room_ids] again, fetches the
    details of no listing, does not sleep, leaves the progress log as
    it was, and ends by writing a table with no row. *)
Theorem rerun_idempotence (HOST_URL : option str) (host_id : str)
    (w0 wa : World U) (room_ids : list str) :
  resolves_to HOST_URL host_id ->
  get_room_ids_from_host host_id (write_csv [] w0) = (Ok room_ids, wa) ->
  closed_log (ids_content w0) ->
  Forall plain_id room_ids ->
  exists w1,
    main HOST_URL w0 = (Ok tt, w1) /\
    (marks_all room_ids w0 w1 ->
     (forall rid, rid ∈ room_ids -> rid ∈ load_processed_ids w1) /\
     forall wb,
       get_room_ids_from_host host_id (write_csv [] (new_process w1))
       = (Ok room_ids, wb) ->
       main HOST_URL (new_process w1) = (Ok tt, write_csv [] wb) /\
       csv_file (write_csv [] wb) = Some [] /\
       ids_file (write_csv [] wb) = ids_file w1 /\
       detail_calls (trace (write_csv [] wb)) = detail_calls (trace w1) /\
       sleeps (trace (write_csv [] wb)) = sleeps (trace w1)).
Proof.
  intros Hres Hen Hclosed Hplain.
  rewrite (main_resolved _ _ _ Hres), Hen. cbn zeta.
  eexists. split; [reflexivity|]. intros Hmarks.
  assert (forall rid, rid ∈ room_ids ->
            rid ∈ load_processed_ids
                    (write_csv
                       (records (process
                          (remaining_of room_ids (load_processed_ids (write_csv [] w0)))
                          (mkLoop [] ∅ wa)))
                       (world (process
                          (remaining_of room_ids (load_processed_ids (write_csv [] w0)))
                          (mkLoop [] ∅ wa))))) as Hall.
  { intros rid Hrid.
    exact (marked_ids_loaded room_ids w0 _ rid Hclosed Hplain Hmarks Hrid). }
  split; [exact Hall|]. intros wb Hen2.
  exact (rerun_all_loaded HOST_URL host_id _ wb room_ids Hres Hall Hen2).
Qed.

End WithExternal.
End RerunFacts.

(* ===================================================================== *)
(** * Further properties of the script *)
(* ===================================================================== *)

Module RetryBounds.
Import Observe RetryFacts.

Lemma invoke_eq {S : Type} (func : S -> result pyval * S) (s s' : S) r k sl :
  func s = (r, s') ->
  Ledger.invoke func (s, (k, sl)) = (r, (s', (Datatypes.S k, sl))).
Proof. intros Hf. unfold Ledger.invoke. cbn [fst snd]. now rewrite Hf. Qed.

(** The loop of the wrapper over the attempts [a], ..., [a + m - 1], the
    last of which is [max_retries - 1]. *)
Lemma wrapper_loop_ledger {S : Type} (func : S -> result pyval * S)
    (max_retries delay : Z) : forall (m a : nat) (s : S) (k : nat) (sl : list Z),
  (m <> O -> max_retries = Z.of_nat (a + m)) ->
  let out := wrapper_loop Ledger.sleep max_retries delay (Ledger.invoke func)
               (List.map Z.of_nat (seq a m)) (s, (k, sl)) in
  match m with
  | O => out = (Ok PNone, (s, (k, sl)))
  | Datatypes.S _ =>
      exists j,
        (j < m)%nat /\
        fst (snd (snd out)) = (k + j + 1)%nat /\
        snd (snd (snd out))
        = sl ++ List.map (fun i => delay * 2 ^ Z.of_nat i) (seq a j) /\
        (forall e, fst out = Raise e -> Datatypes.S j = m)
  end.
Proof.
  induction m as [|m IH]; intros a s k sl Hmax; [reflexivity|].
  cbn zeta. cbn [seq List.map].
  destruct (func s) as [[v|e] s'] eqn:Hf.
  - rewrite (wrapper_loop_ok _ _ _ _ _ _ _ _ _ (invoke_eq func _ _ _ k sl Hf)).
    exists O. cbn. rewrite app_nil_r. repeat split; [lia|lia|discriminate].
  - destruct m as [|m'].
    + rewrite (wrapper_loop_last _ _ _ _ _ _ _ _ _ (invoke_eq func _ _ _ k sl Hf))
        by (rewrite Hmax by discriminate; lia).
      exists O. cbn. rewrite app_nil_r. repeat split; lia.
    + rewrite (wrapper_loop_backoff _ _ _ _ _ _ _ _ _ (invoke_eq func _ _ _ k sl Hf))
        by (rewrite Hmax by discriminate; lia).
      change (Ledger.sleep (delay * 2 ^ Z.of_nat a) (s', (Datatypes.S k, sl)))
        with (s', (Datatypes.S k, sl ++ [delay * 2 ^ Z.of_nat a])).
      specialize (IH (Datatypes.S a) s' (Datatypes.S k)
                    (sl ++ [delay * 2 ^ Z.of_nat a])).
      cbn zeta in IH. destruct IH as (j & Hj & Hk & Hsl & Hr).
      { intros _. rewrite Hmax by discriminate. f_equal. lia. }
      exists (Datatypes.S j). repeat split.
      * lia.
      * rewrite Hk. lia.
      * rewrite Hsl. cbn [seq List.map]. now rewrite <- app_assoc.
      * intros e0 He0. f_equal. now apply (Hr e0).
Qed.

(** X1.  The wrapper with any bound, any operation and a delay whose waits
    [time.sleep] takes: with no attempt allowed it returns None and does
    not invoke the operation; otherwise it sleeps [j] times, with [j]
    below the bound, for [delay], twice [delay], ..., each a wait that
    [time.sleep] takes, invokes the operation [j + 1] times, and raises
    only after the last attempt allowed. *)
Theorem retry_ledger {S : Type} (func : S -> result pyval * S)
    (max_retries delay : Z) (s : S) (k : nat) (sl : list Z) :
  (forall attempt,
     0 <= attempt < max_retries - 1 -> Ledger.sleepable (delay * 2 ^ attempt)) ->
  let out := retry_on_failure Ledger.sleep max_retries delay (Ledger.invoke func)
               (s, (k, sl)) in
  (max_retries <= 0 -> out = (Ok PNone, (s, (k, sl)))) /\
  (0 < max_retries ->
   exists j,
     Z.of_nat j < max_retries /\
     fst (snd (snd out)) = (k + j + 1)%nat /\
     snd (snd (snd out)) = sl ++ Ledger.backoffs delay j /\
     Forall Ledger.sleepable (Ledger.backoffs delay j) /\
     (forall e, fst out = Raise e -> Z.of_nat j = max_retries - 1)).
Proof.
  intros Hwait. cbn zeta. unfold retry_on_failure, range.
  pose proof (wrapper_loop_ledger func max_retries delay
                (Z.to_nat max_retries) O s k sl) as H.
  cbn zeta in H. split.
  - intros Hle. replace (Z.to_nat max_retries) with O in * by lia.
    apply H. intros Hne. contradiction.
  - intros Hpos. destruct (Z.to_nat max_retries) as [|m] eqn:Hm; [lia|].
    destruct H as (j & Hj & Hk & Hsl & Hr); [intros _; lia|].
    exists j. split; [lia|]. split; [assumption|]. split; [assumption|]. split.
    + unfold Ledger.backoffs. apply Forall_forall. intros d Hd.
      apply list_elem_of_In, in_map_iff in Hd as (a & <- & Ha).
      apply in_seq in Ha. apply Hwait. lia.
    + intros e He. specialize (Hr e He). lia.
Qed.

End RetryBounds.

Module CredentialFacts.
Import Observe WorldFacts.

Section WithExternal.
Context {U : Type} `{!External U}.

(** X2.  [get_api_credentials] returns the global as it leaves it; it calls
    the client only while the global is None; a call that raised leaves
    the empty text, so that no later call asks again; and once the
    global is not None a call changes nothing. *)
Theorem credentials_memo (w : World U) :
  let keys := fst (get_api_credentials w) in
  let w' := snd (get_api_credentials w) in
  keys = (API_KEY w', COOKIES) /\
  (API_KEY w <> PNone -> w' = w) /\
  (API_KEY w = PNone ->
   forall e u', pyairbnb_get_api_key PROXY_URL (upstream w) = (Raise e, u') ->
                API_KEY w' = PStr []) /\
  (API_KEY w = PNone ->
   forall k u', pyairbnb_get_api_key PROXY_URL (upstream w) = (Ok k, u') ->
                API_KEY w' = k /\ trace w' = trace w ++ [EvGetApiKey]) /\
  (API_KEY w' <> PNone -> get_api_credentials w' = (keys, w')).
Proof.
  destruct w as [u key csv ids tr]. cbn zeta.
  unfold get_api_credentials, call. cbn [API_KEY upstream trace].
  destruct key;
    try (cbn; split; [reflexivity|]; split; [intros _; reflexivity|];
         split; [intros H; discriminate H|];
         split; [intros H; discriminate H|];
         intros _; reflexivity).
  destruct (pyairbnb_get_api_key PROXY_URL u) as [[k|e] u1]; cbn.
  - split; [reflexivity|]. split; [intros H; now contradiction H|].
    split; [intros _ e u' H; discriminate|].
    split; [intros _ k' u' [= <- _]; split; reflexivity|].
    intros Hne. destruct k; try reflexivity. contradiction.
  - split; [reflexivity|]. split; [intros H; now contradiction H|].
    split; [reflexivity|]. split; [intros _ k' u' H; discriminate|].
    reflexivity.
Qed.

End WithExternal.
End CredentialFacts.

Module ProfileFacts.
Import Observe Invariants WorldFacts ExtractFacts.

Section WithExternal.
Context {U : Type} `{!External U}.

(** X3.  The host-profile cache: what a lookup returned for a host is what
    every later lookup returns for it, whatever the world then is and
    without touching it; the other entries of the cache are as they
    were. *)
Theorem profile_cache_hit (h : str) (cache cache' : gmap str HostProfile.t)
    (w w' : World U) (fields : HostProfile.t) :
  h <> [] ->
  fetch_host_profile_fields h cache w = (fields, cache', w') ->
  cache' !! h = Some fields /\
  (forall k, k <> h -> cache' !! k = cache !! k) /\
  (forall w2 : World U,
     fetch_host_profile_fields h cache' w2 = (fields, cache', w2)).
Proof.
  intros Hne Hf.
  assert (cache' !! h = Some fields /\ forall k, k <> h -> cache' !! k = cache !! k)
    as [Hh Hk].
  { destruct (cache !! h) as [cached|] eqn:Hc.
    - rewrite (fetch_cached _ _ _ _ Hne Hc) in Hf. injection Hf as <- <- <-. auto.
    - destruct (fetch_uncached _ _ w Hne Hc) as (f' & w'' & Hf' & _).
      rewrite Hf' in Hf. injection Hf as <- <- <-. split.
      + apply lookup_insert_eq.
      + intros k Hk. now apply lookup_insert_ne. }
  split; [assumption|]. split; [assumption|].
  intros w2. now apply fetch_cached.
Qed.

(** X4.  When the host-details call raises, the profile is the empty one, it
    is cached all the same, and the listings of the host are not asked
    for. *)
Theorem profile_client_raises (h : str) (cache : gmap str HostProfile.t)
    (w w0 w1 : World U) keys e :
  h <> [] -> cache !! h = None ->
  get_api_credentials w = (keys, w0) ->
  call (EvGetHostDetails h)
    (pyairbnb_get_host_details (fst keys) (snd keys) h LANGUAGE PROXY_URL) w0
  = (Raise e, w1) ->
  fetch_host_profile_fields h cache w
  = (HostProfile.empty, <[h := HostProfile.empty]> cache, w1).
Proof.
  intros Hne Hc Hcred Hcall. unfold fetch_host_profile_fields.
  destruct h as [|a h']; [contradiction|]. rewrite Hc, Hcred.
  destruct keys as [api_key cookies]. cbn [fst snd] in Hcall.
  now rewrite Hcall.
Qed.

(** X5.  An answer without data (falsy, no dict, or a dict with the key
    errors) leaves name, rating, review count and years empty; the
    listings of the host are still counted. *)
Theorem profile_no_data (h : str) (cache : gmap str HostProfile.t)
    (w w0 w1 w2 : World U) keys response listings :
  h <> [] -> cache !! h = None ->
  get_api_credentials w = (keys, w0) ->
  call (EvGetHostDetails h)
    (pyairbnb_get_host_details (fst keys) (snd keys) h LANGUAGE PROXY_URL) w0
  = (Ok response, w1) ->
  no_data response ->
  call (EvGetListingsFromUser h)
    (pyairbnb_get_listings_from_user h (fst keys) PROXY_URL) w1
  = (listings, w2) ->
  let fields :=
    HostProfile.mk (PStr []) (PStr []) (PStr []) (PStr []) (PStr [])
      (total_listings listings) in
  fetch_host_profile_fields h cache w = (fields, <[h := fields]> cache, w2).
Proof.
  intros Hne Hc Hcred Hcall Hno Hcall2. unfold fetch_host_profile_fields.
  destruct h as [|a h']; [contradiction|]. rewrite Hc, Hcred.
  destruct keys as [api_key cookies]. cbn [fst snd] in Hcall, Hcall2.
  rewrite Hcall.
  assert (truthy response &&
          match response with
          | PDict d => negb (has_key d (lit "errors"))
          | _ => false
          end = false) as ->.
  { destruct Hno as [->|Hno]; [reflexivity|].
    destruct response; try apply andb_false_r. rewrite Hno. apply andb_false_r. }
  now rewrite Hcall2.
Qed.

Lemma total_listings_count answer :
  exists n, 0 <= n /\ total_listings answer = PInt n.
Proof.
  unfold total_listings. destruct answer as [v|e]; [|exists 0; split; [lia|reflexivity]].
  destruct (truthy v); [|exists 0; split; [lia|reflexivity]].
  destruct v; cbn; eexists; (split; [|reflexivity]); lia.
Qed.

Lemma joined_block_years created_at this_year (h : HostProfile.t) :
  years_consistent this_year h ->
  years_consistent this_year (snd (joined_block created_at this_year h)).
Proof.
  intros Hy. unfold joined_block. destruct created_at; try exact Hy.
  destruct (fromisoformat_year (replace_Z s)) as [y|e]; [|exact Hy].
  right. exists y. split; reflexivity.
Qed.

(** The block that reads the profile keeps the two year fields filled
    together, whatever the answer holds and wherever it stops. *)
Lemma profile_block_years response this_year (h : HostProfile.t) :
  years_consistent this_year h ->
  years_consistent this_year (snd (profile_block response this_year h)).
Proof.
  intros Hy. unfold profile_block, F_bind, F_lift, F_assign, F_ret.
  repeat match goal with
         | |- context [match get ?a ?b ?c with _ => _ end] =>
             destruct (get a b c) as [?|?]; cbn [snd fst]; try exact Hy
         | |- context [match py_or ?a ?b with _ => _ end] =>
             destruct (py_or a b) as [?|?]; cbn [snd fst]; try exact Hy
         | |- context [if truthy ?a then _ else _] =>
             destruct (truthy a); cbn [snd fst]; try exact Hy
         end.
  match goal with
  | |- context [joined_block ?c ?y ?h0] =>
      pose proof (joined_block_years c y h0 Hy) as Hj;
      destruct (joined_block c y h0) as [[[]|] h1]; exact Hj
  end.
Qed.

Lemma joined_block_total created_at this_year (h : HostProfile.t) :
  HostProfile.host_total_listings (snd (joined_block created_at this_year h))
  = HostProfile.host_total_listings h.
Proof.
  unfold joined_block. destruct created_at; try reflexivity.
  destruct (fromisoformat_year (replace_Z s)); reflexivity.
Qed.

Lemma profile_block_total response this_year (h : HostProfile.t) :
  HostProfile.host_total_listings (snd (profile_block response this_year h))
  = HostProfile.host_total_listings h.
Proof.
  unfold profile_block, F_bind, F_lift, F_assign, F_ret.
  repeat match goal with
         | |- context [match get ?a ?b ?c with _ => _ end] =>
             destruct (get a b c) as [?|?]; cbn [snd fst]; try reflexivity
         | |- context [match py_or ?a ?b with _ => _ end] =>
             destruct (py_or a b) as [?|?]; cbn [snd fst]; try reflexivity
         | |- context [if truthy ?a then _ else _] =>
             destruct (truthy a); cbn [snd fst]; try reflexivity
         end.
  match goal with
  | |- context [joined_block ?c ?y ?h0] =>
      pose proof (joined_block_total c y h0) as Hj;
      destruct (joined_block c y h0) as [[[]|] h1]; exact Hj
  end.
Qed.

(** X6.  A profile fetched from the client: joined year and years active are
    both empty, or the year read in createdAt and the current year minus
    it; the number of listings is a natural number, 0 when the listings
    could not be counted. *)
Theorem profile_years (h : str) (cache cache' : gmap str HostProfile.t)
    (w w0 w1 w' : World U) keys answer (fields : HostProfile.t) :
  h <> [] -> cache !! h = None ->
  get_api_credentials w = (keys, w0) ->
  call (EvGetHostDetails h)
    (pyairbnb_get_host_details (fst keys) (snd keys) h LANGUAGE PROXY_URL) w0
  = (answer, w1) ->
  fetch_host_profile_fields h cache w = (fields, cache', w') ->
  years_consistent (datetime_now_year (upstream w1)) fields /\
  exists n, 0 <= n /\ HostProfile.host_total_listings fields = PInt n.
Proof.
  intros Hne Hc Hcred Hcall. unfold fetch_host_profile_fields.
  destruct h as [|a h']; [contradiction|]. rewrite Hc, Hcred.
  destruct keys as [api_key cookies]. cbn [fst snd] in Hcall. rewrite Hcall.
  assert (years_consistent (datetime_now_year (upstream w1)) HostProfile.empty)
    as Hy0 by (left; split; reflexivity).
  destruct answer as [response|e].
  2:{ intros [= <- _ _]. split; [exact Hy0|]. exists 0. split; [lia|reflexivity]. }
  match goal with
  | |- context [if ?b then profile_block ?r ?y ?h0 else ?z] =>
      assert (years_consistent y (snd (if b then profile_block r y h0 else z)) /\
              HostProfile.host_total_listings
                (snd (if b then profile_block r y h0 else z)) = PInt 0)
        as [Hy Ht]
        by (destruct b;
            [split; [now apply profile_block_years|apply profile_block_total]
            |split; [exact Hy0|reflexivity]]);
      destruct (if b then profile_block r y h0 else z) as [[[]|] hp]
  end; cbn [snd] in Hy, Ht.
  - match goal with
    | |- context [call (EvGetListingsFromUser ?x) ?f w1] =>
        destruct (call (EvGetListingsFromUser x) f w1) as [listings w2]
    end.
    intros [= <- _ _]. split; [exact Hy|]. apply total_listings_count.
  - intros [= <- _ _]. split; [exact Hy|]. exists 0. split; [lia|assumption].
Qed.

End WithExternal.
End ProfileFacts.

Module RowFacts.
Import Observe Invariants WorldFacts ExtractFacts EnumerationFacts LoopFacts MainFacts.

Section WithExternal.
Context {U : Type} `{!External U}.

Lemma no_host_id (d : list (str * pyval)) :
  no_host d ->
  (let host_data := match assoc d (lit "host") with Some x => x | None => PDict [] end in
   if isinstance_dict host_data then
     match get host_data (lit "id") (PStr []) with
     | Ok v => to_str v
     | Raise _ => []
     end
   else []) = [].
Proof.
  unfold no_host. cbn zeta.
  destruct (assoc d (lit "host")) as [[| | | | |hd]|]; try reflexivity.
  cbn [isinstance_dict get]. destruct (assoc hd (lit "id")); [intros ->|]; reflexivity.
Qed.

(** X7.  A payload that names no host gives a row all the same: host
    identifier, host link and host fields empty, 0 listings; no call is
    made and the cache is not touched. *)
Theorem row_without_host (room_id : str) (d : list (str * pyval))
    (cache : gmap str HostProfile.t) (w : World U) :
  no_host d ->
  extract_listing_data room_id (PDict d) cache w
  = (Ok (Row.mk room_id
           (lit "https://www.airbnb.com/rooms/" ++ room_id)
           (match assoc d (lit "title") with Some x => x | None => PStr [] end)
           (extract_license_code
              (match assoc d (lit "description") with Some x => x | None => PStr [] end))
           [] (PStr []) [] (PStr []) (PStr []) (PStr []) (PStr []) (PInt 0)),
     cache, w).
Proof.
  intros Hno. unfold extract_listing_data. rewrite !get_dict.
  pose proof (no_host_id d Hno) as Hid. cbn zeta in Hid. rewrite Hid.
  now rewrite fetch_empty.
Qed.

(** Every row [extract_listing_data] returns is for the room it was asked
    for and carries the two links built from its identifiers. *)
Lemma extract_linked (room_id : str) (details : pyval)
    (cache cache' : gmap str HostProfile.t) (w w' : World U) row :
  extract_listing_data room_id details cache w = (Ok row, cache', w') ->
  Row.room_id row = room_id /\ row_linked row.
Proof.
  unfold extract_listing_data.
  destruct (get details (lit "title") (PStr [])); [|discriminate].
  destruct (get details (lit "description") (PStr [])); [|discriminate].
  destruct (get details (lit "host") (PDict [])) as [host_data|]; [|discriminate].
  match goal with
  | |- context [fetch_host_profile_fields ?h cache w] =>
      destruct (fetch_host_profile_fields h cache w) as [[fields c2] w2]
  end.
  intros [= <- _ _]. split; [reflexivity|]. split; reflexivity.
Qed.

(** X8.  A truthy payload that is no dict: the turn adds no row and no line
    to the log, keeps the cache, and still takes the pause. *)
Theorem turn_on_non_dict (room_id : str) (st : Loop U) details (w1 : World U) :
  get_listing_details room_id (world st) = (Ok details, w1) ->
  truthy details = true -> isinstance_dict details = false ->
  loop_body room_id st
  = mkLoop (records st) (host_cache st)
      (sleep InterRequest DELAY_BETWEEN_DETAILS w1) /\
  ids_file (world (loop_body room_id st)) = ids_file (world st).
Proof.
  intros Hd Ht Hn.
  assert (loop_body room_id st
          = mkLoop (records st) (host_cache st)
              (sleep InterRequest DELAY_BETWEEN_DETAILS w1)) as Hb.
  { unfold loop_body. rewrite Hd, Ht. cbn [negb].
    now rewrite (extract_not_dict _ _ _ _ Hn). }
  split; [exact Hb|]. rewrite Hb. cbn.
  now apply get_listing_details_spec in Hd as (_ & Hi & _).
Qed.

(** One turn of the loop, with the row it may add. *)
Lemma loop_body_row (rid : str) (st : Loop U) :
  (records (loop_body rid st) = records st /\
   ids_file (world (loop_body rid st)) = ids_file (world st))
  \/
  (exists row,
     records (loop_body rid st) = records st ++ [row] /\
     Row.room_id row = rid /\ row_linked row /\
     ids_file (world (loop_body rid st))
     = Some (ids_content (world st) ++ rid ++ [LF])).
Proof.
  unfold loop_body.
  destruct (get_listing_details rid (world st)) as [[details|e] w1] eqn:Hd;
    apply get_listing_details_spec in Hd as (Hc & Hi & _).
  - destruct (truthy details); cbn [negb].
    + destruct (extract_listing_data rid details (host_cache st) w1)
        as [[[row|e] cache'] w2] eqn:Hx.
      * pose proof (extract_linked _ _ _ _ _ _ _ Hx) as [Hrid Hl].
        apply extract_effect in Hx as ((Hc2 & Hi2 & _) & _). cbn.
        right. exists row. repeat split; try assumption; try apply Hl.
        unfold ids_content. now rewrite Hi2, Hi.
      * apply extract_effect in Hx as ((Hc2 & Hi2 & _) & _). cbn.
        left. split; [reflexivity|congruence].
    + cbn. auto.
  - cbn. auto.
Qed.

Lemma process_rows (l : list str) : forall st : Loop U,
  exists rows,
    records (process l st) = records st ++ rows /\
    List.map Row.room_id rows `sublist_of` l /\
    Forall row_linked rows /\
    ids_content (world (process l st))
    = ids_content (world st) ++ log_text (List.map Row.room_id rows).
Proof.
  induction l as [|rid l IH]; intros st.
  - exists []. cbn. rewrite !app_nil_r. repeat split; constructor.
  - cbn [process].
    destruct (IH (loop_body rid st)) as (rows & Hrec & Hsub & Hl & Hlog).
    destruct (loop_body_row rid st) as [[Hr Hi]|(row & Hr & Hrid & Hrow & Hi)].
    + exists rows. repeat split.
      * now rewrite Hrec, Hr.
      * now apply sublist_cons.
      * assumption.
      * rewrite Hlog. unfold ids_content. now rewrite Hi.
    + exists (row :: rows). repeat split.
      * rewrite Hrec, Hr. now rewrite <- app_assoc.
      * cbn. rewrite Hrid. now apply sublist_skip.
      * now constructor.
      * rewrite Hlog. unfold ids_content at 1. rewrite Hi.
        cbn [List.map]. rewrite Hrid. unfold log_text. cbn.
        now rewrite <- !app_assoc.
Qed.

(** X9.  A run that gets its list of rooms ends normally, and its table and
    its log agree: the rows are for rooms that were still to do, in the
    order of the enumeration and none twice, each with its two links,
    and the lines added to the log are the rooms of the rows. *)
Theorem table_matches_log (HOST_URL : option str) (host_id : str)
    (w w2 : World U) (room_ids : list str) :
  resolves_to HOST_URL host_id ->
  get_room_ids_from_host host_id (write_csv [] w) = (Ok room_ids, w2) ->
  exists rows wf,
    main HOST_URL w = (Ok tt, wf) /\
    csv_file wf = Some rows /\
    List.map Row.room_id rows
      `sublist_of` remaining_of room_ids (load_processed_ids w) /\
    NoDup (List.map Row.room_id rows) /\
    Forall row_linked rows /\
    ids_content wf = ids_content w ++ log_text (List.map Row.room_id rows).
Proof.
  intros Hres Hen. rewrite (main_resolved _ _ _ Hres), Hen. cbn zeta.
  change (load_processed_ids (write_csv [] w)) with (load_processed_ids w).
  set (l := remaining_of room_ids (load_processed_ids w)).
  destruct (process_rows l (mkLoop [] ∅ w2)) as (rows & Hrec & Hsub & Hl & Hlog).
  cbn in Hrec, Hlog.
  exists rows, (write_csv (records (process l (mkLoop [] ∅ w2)))
                  (world (process l (mkLoop [] ∅ w2)))).
  split; [reflexivity|]. split; [cbn; now rewrite Hrec|].
  split; [assumption|]. split.
  - refine (sublist_NoDup _ _ _ Hsub).
    apply remaining_of_nodup. eapply get_room_ids_nodup. exact Hen.
  - split; [assumption|].
    change (ids_content (write_csv (records (process l (mkLoop [] ∅ w2)))
                           (world (process l (mkLoop [] ∅ w2)))))
      with (ids_content (world (process l (mkLoop [] ∅ w2)))).
    rewrite Hlog. f_equal.
    apply get_room_ids_extends in Hen as (_ & Hi & _).
    unfold ids_content. now rewrite Hi.
Qed.

(** X10.  When the enumeration raises, the exception leaves [main]; the table
    is there with its header and no row, the log is as it was, and no
    listing was fetched and no sleep taken. *)
Theorem enumeration_failure_leaves_header (HOST_URL : option str) (host_id : str)
    (w w2 : World U) e :
  resolves_to HOST_URL host_id ->
  get_room_ids_from_host host_id (write_csv [] w) = (Raise e, w2) ->
  main HOST_URL w = (Raise e, w2) /\
  csv_file w2 = Some [] /\
  ids_file w2 = ids_file w /\
  detail_calls (trace w2) = detail_calls (trace w) /\
  sleeps (trace w2) = sleeps (trace w).
Proof.
  intros Hres Hen. rewrite (main_resolved _ _ _ Hres), Hen.
  split; [reflexivity|].
  pose proof (get_room_ids_extends _ _ _ _ Hen) as Hext.
  destruct (enumeration_quiet _ _ Hext) as [Hs Hdc].
  destruct Hext as (Hc & Hi & _). cbn in Hc, Hi, Hs, Hdc. auto.
Qed.

End WithExternal.
End RowFacts.

Module HostCacheFacts.
Import Observe Invariants WorldFacts ExtractFacts EnumerationFacts LoopFacts MainFacts.

Lemma host_calls_app tr1 tr2 :
  host_calls (tr1 ++ tr2) = host_calls tr1 ++ host_calls tr2.
Proof. induction tr1 as [|[] tr1 IH]; cbn; congruence. Qed.

Lemma host_calls_none (evs : list event) :
  Forall (fun e => match e with EvGetHostDetails _ => False | _ => True end) evs ->
  host_calls evs = [].
Proof.
  induction evs as [|e evs IH]; [reflexivity|].
  intros Hf. apply Forall_cons in Hf as [He Hf].
  destruct e; cbn; auto. contradiction.
Qed.

Section WithExternal.
Context {U : Type} `{!External U}.

(** The events of a retried call are the call and the backoffs. *)
Lemma wrapper_loop_events ev f max_retries delay attempts :
  forall (w w1 : World U) r,
    wrapper_loop (sleep Backoff) max_retries delay (call ev f) attempts w = (r, w1) ->
    exists evs, trace w1 = trace w ++ evs /\ Forall (fun e => e = ev \/ is_sleep e) evs.
Proof.
  induction attempts as [|a rest IH]; intros w w1 r; cbn [wrapper_loop].
  - intros [= _ <-]. exists []. rewrite app_nil_r. auto.
  - destruct (call ev f w) as [[v|e] w'] eqn:Hc;
      pose proof (call_trace _ _ _ _ _ Hc) as T.
    + intros [= _ <-]. exists [ev]. split; [assumption|]. constructor; auto.
    + destruct (a =? max_retries - 1).
      * intros [= _ <-]. exists [ev]. split; [assumption|]. constructor; auto.
      * intros Hw. apply IH in Hw as (evs & Ht & Hf).
        rewrite sleep_trace, T in Ht.
        exists (ev :: EvSleep Backoff (delay * 2 ^ a) :: evs).
        rewrite Ht, <- !app_assoc. split; [reflexivity|].
        constructor; [now left|]. constructor; [right; exact I|assumption].
Qed.

Lemma get_listing_details_host_calls (rid : str) (w w1 : World U) r :
  get_listing_details rid w = (r, w1) ->
  host_calls (trace w1) = host_calls (trace w).
Proof.
  intros Hd. apply wrapper_loop_events in Hd as (evs & -> & Hf).
  rewrite host_calls_app, (host_calls_none evs), app_nil_r; [reflexivity|].
  eapply Forall_impl; [exact Hf|]. intros [] [Heq|Hs]; try exact I; try discriminate.
  destruct Hs.
Qed.

Lemma extends_host_calls (P : event -> Prop) (w w' : World U) :
  (forall e, P e -> match e with EvGetHostDetails _ => False | _ => True end) ->
  extends_with P w w' -> host_calls (trace w') = host_calls (trace w).
Proof.
  intros HP (_ & _ & evs & -> & Hf).
  rewrite host_calls_app, (host_calls_none evs), app_nil_r; [reflexivity|].
  eapply Forall_impl; [exact Hf|]. exact HP.
Qed.

(** A lookup either is answered without a call (no host, or a cached
    one) or makes one host-details call and caches what it returns. *)
Lemma fetch_host_calls (h : str) (cache cache' : gmap str HostProfile.t)
    (w w' : World U) (fields : HostProfile.t) :
  fetch_host_profile_fields h cache w = (fields, cache', w') ->
  (cache' = cache /\ w' = w) \/
  (h <> [] /\ cache !! h = None /\ cache' = <[h := fields]> cache /\
   host_calls (trace w') = host_calls (trace w) ++ [h]).
Proof.
  destruct (cache !! h) as [cached|] eqn:Hc; destruct h as [|a h'];
    try (rewrite fetch_empty; intros [= _ <- <-]; now left).
  { rewrite (fetch_cached _ _ _ cached) by (discriminate || assumption).
    intros [= _ <- <-]. now left. }
  unfold fetch_host_profile_fields. rewrite Hc.
  destruct (get_api_credentials w) as [[api_key cookies] w0] eqn:Hcred.
  apply get_api_credentials_extends in Hcred.
  apply (extends_host_calls _ _ _) in Hcred; [|now intros ? ->].
  match goal with
  | |- context [call (EvGetHostDetails ?x) ?f w0] =>
      destruct (call (EvGetHostDetails x) f w0) as [answer w1] eqn:Hcall
  end.
  apply call_trace in Hcall.
  assert (host_calls (trace w1) = host_calls (trace w) ++ [a :: h']) as H1.
  { rewrite Hcall, host_calls_app, Hcred. reflexivity. }
  intros Hf. right. split; [discriminate|]. split; [reflexivity|].
  destruct answer as [response|e].
  2:{ injection Hf as <- <- <-. split; [reflexivity|assumption]. }
  revert Hf.
  match goal with
  | |- context [if ?b then profile_block ?r ?y ?h0 else ?z] =>
      destruct (if b then profile_block r y h0 else z) as [[[]|] hp]
  end.
  - match goal with
    | |- context [call (EvGetListingsFromUser ?x) ?f w1] =>
        destruct (call (EvGetListingsFromUser x) f w1) as [listings w2] eqn:Hcall2
    end.
    apply call_trace in Hcall2.
    intros [= <- <- <-]. split; [reflexivity|].
    rewrite Hcall2, host_calls_app, H1. cbn. now rewrite app_nil_r.
  - intros [= <- <- <-]. split; [reflexivity|assumption].
Qed.

Lemma loop_body_host_calls (rid : str) (st : Loop U) (base hs : list str) :
  host_calls (trace (world st)) = base ++ hs ->
  NoDup hs -> Forall (fun h => h <> []) hs ->
  (forall h, h ∈ hs -> is_Some (host_cache st !! h)) ->
  exists hs',
    host_calls (trace (world (loop_body rid st))) = base ++ hs' /\
    NoDup hs' /\ Forall (fun h => h <> []) hs' /\
    (forall h, h ∈ hs' -> is_Some (host_cache (loop_body rid st) !! h)).
Proof.
  intros Hb Hnd Hne Hin. unfold loop_body.
  destruct (get_listing_details rid (world st)) as [[details|e] w1] eqn:Hd;
    apply get_listing_details_host_calls in Hd.
  2:{ exists hs. cbn [world host_cache].
      rewrite sleep_trace, host_calls_app, Hd, Hb. cbn [host_calls].
      rewrite app_nil_r. auto. }
  destruct (truthy details); cbn [negb].
  2:{ exists hs. cbn [world host_cache]. rewrite Hd. auto. }
  assert (forall r cache' w2,
            extract_listing_data rid details (host_cache st) w1 = (r, cache', w2) ->
            (cache' = host_cache st /\ w2 = w1) \/
            (exists h, h <> [] /\ host_cache st !! h = None /\
                       (exists f, cache' = <[h := f]> (host_cache st)) /\
                       host_calls (trace w2) = host_calls (trace w1) ++ [h])) as Hx.
  { intros r cache' w2. unfold extract_listing_data.
    destruct (get details (lit "title") (PStr [])); [|intros [= _ <- <-]; now left].
    destruct (get details (lit "description") (PStr [])); [|intros [= _ <- <-]; now left].
    destruct (get details (lit "host") (PDict [])); [|intros [= _ <- <-]; now left].
    match goal with
    | |- context [fetch_host_profile_fields ?h (host_cache st) w1] =>
        destruct (fetch_host_profile_fields h (host_cache st) w1)
          as [[fields c2] w3] eqn:Hf;
        apply fetch_host_calls in Hf as [[-> ->]|(Hh & Hc & -> & Hcalls)];
        intros [= _ <- <-]; [now left|right; exists h; eauto 6]
    end. }
  destruct (extract_listing_data rid details (host_cache st) w1)
    as [[r cache'] w2] eqn:He.
  destruct (Hx _ _ _ eq_refl) as [[-> ->]|(h & Hh & Hc & (f & ->) & Hcalls)].
  - exists hs. destruct r; cbn [world host_cache];
      rewrite sleep_trace, host_calls_app; cbn [host_calls];
      rewrite app_nil_r; cbn [trace save_processed_id set_ids_file];
      rewrite Hd, Hb; auto.
  - exists (hs ++ [h]).
    assert (h ∉ hs) as Hfresh.
    { intros Hmem. apply Hin in Hmem as [x Hx'].
      pose proof (eq_trans (eq_sym Hx') Hc). discriminate. }
    assert (NoDup (hs ++ [h])) as Hnd'.
    { apply NoDup_app. split; [assumption|]. split.
      - intros x Hx1 Hx2. apply list_elem_of_singleton in Hx2 as ->. contradiction.
      - apply NoDup_singleton. }
    assert (Forall (fun h => h <> []) (hs ++ [h])) as Hne'.
    { apply Forall_app. split; [assumption|]. now constructor. }
    assert (forall k, k ∈ hs ++ [h] -> is_Some (<[h := f]> (host_cache st) !! k)) as Hin'.
    { intros k Hk. destruct (decide (k = h)) as [->|Hkh].
      - rewrite lookup_insert_eq. eauto.
      - rewrite lookup_insert_ne by congruence. apply Hin.
        apply elem_of_app in Hk as [Hk|Hk]; [assumption|].
        apply list_elem_of_singleton in Hk. contradiction. }
    destruct r; cbn [world host_cache];
      rewrite sleep_trace, host_calls_app; cbn [host_calls];
      rewrite app_nil_r; cbn [trace save_processed_id set_ids_file];
      rewrite Hcalls, Hd, Hb, <- app_assoc; auto.
Qed.

Lemma process_host_calls (l : list str) : forall (st : Loop U) (base hs : list str),
  host_calls (trace (world st)) = base ++ hs ->
  NoDup hs -> Forall (fun h => h <> []) hs ->
  (forall h, h ∈ hs -> is_Some (host_cache st !! h)) ->
  exists hs',
    host_calls (trace (world (process l st))) = base ++ hs' /\
    NoDup hs' /\ Forall (fun h => h <> []) hs'.
Proof.
  induction l as [|rid l IH]; intros st base hs Hb Hnd Hne Hin.
  - exists hs. auto.
  - cbn [process].
    destruct (loop_body_host_calls rid st base hs Hb Hnd Hne Hin)
      as (hs1 & Hb1 & Hnd1 & Hne1 & Hin1).
    exact (IH _ _ _ Hb1 Hnd1 Hne1 Hin1).
Qed.

(** X11.  In one run the details of a host are asked for at most once, and
    never for the empty host identifier. *)
Theorem host_details_asked_once (HOST_URL : option str) (w : World U) :
  exists hs,
    host_calls (trace (snd (main HOST_URL w))) = host_calls (trace w) ++ hs /\
    NoDup hs /\ Forall (fun h => h <> []) hs.
Proof.
  assert (exists hs : list str,
             host_calls (trace w) = host_calls (trace w) ++ hs /\
             NoDup hs /\ Forall (fun h => h <> []) hs) as Hnone.
  { exists []. rewrite app_nil_r. split; [reflexivity|]. split; constructor. }
  unfold main. destruct (strip _) as [|c s]; [exact Hnone|].
  destruct (parse_host_id_from_url (c :: s)) as [[|a host_id]|e]; try exact Hnone.
  destruct (get_room_ids_from_host (a :: host_id) (write_csv [] w))
    as [[room_ids|e] w2] eqn:Hen;
    apply get_room_ids_extends in Hen;
    apply (extends_host_calls _ _ _) in Hen; try (now intros [] Hev);
    cbn [trace write_csv set_csv_file] in Hen.
  2:{ cbn [snd]. rewrite Hen. exact Hnone. }
  cbn zeta. cbn [snd].
  destruct (process_host_calls
              (remaining_of room_ids (load_processed_ids (write_csv [] w)))
              (mkLoop [] ∅ w2) (host_calls (trace w)) [])
    as (hs & Hb & Hnd & Hne).
  - cbn. now rewrite app_nil_r.
  - constructor.
  - constructor.
  - intros h Hh. now apply elem_of_nil in Hh.
  - exists hs. auto.
Qed.

End WithExternal.
End HostCacheFacts.

Module CallFacts.
Import Observe Invariants WorldFacts ExtractFacts EnumerationFacts LoopFacts MainFacts.

Lemma calls_of_elem (l : list str) : forall (counts : list nat) (x : str),
  x ∈ calls_of l counts -> x ∈ l.
Proof.
  induction l as [|rid l IH]; intros [|k counts] x; cbn; try (intros Hx; now apply elem_of_nil in Hx).
  intros Hx. apply elem_of_app in Hx as [Hx|Hx].
  - apply list_elem_of_In, repeat_spec in Hx. subst. now left.
  - right. eapply IH, Hx.
Qed.

Section WithExternal.
Context {U : Type} `{!External U}.

Lemma loop_body_detail_calls (rid : str) (st : Loop U) :
  exists k, (1 <= k <= 3)%nat /\
    detail_calls (trace (world (loop_body rid st)))
    = detail_calls (trace (world st)) ++ repeat rid k.
Proof.
  unfold loop_body.
  destruct (get_listing_details rid (world st)) as [[details|e] w1] eqn:Hd;
    apply get_listing_details_spec in Hd as (_ & _ & b & Hb & _ & Hdc & _);
    exists (Datatypes.S (length b));
    (split; [destruct Hb as [->|[->| ->]]; cbn; lia|]).
  - destruct (truthy details); cbn [negb]; [|exact Hdc].
    destruct (extract_listing_data rid details (host_cache st) w1)
      as [[[row|e] cache'] w2] eqn:Hx;
      apply extract_effect in Hx as (Hext & _);
      apply extends_profile_quiet in Hext as [_ Hq]; cbn [world];
      rewrite sleep_trace, detail_calls_app; cbn; rewrite app_nil_r;
      cbn in Hq; now rewrite Hq.
  - cbn [world]. rewrite sleep_trace, detail_calls_app. cbn.
    now rewrite app_nil_r.
Qed.

Lemma process_detail_calls (l : list str) : forall st : Loop U,
  exists counts,
    length counts = length l /\
    Forall (fun k => (1 <= k <= 3)%nat) counts /\
    detail_calls (trace (world (process l st)))
    = detail_calls (trace (world st)) ++ calls_of l counts.
Proof.
  induction l as [|rid l IH]; intros st.
  - exists []. cbn. rewrite app_nil_r. repeat split. constructor.
  - cbn [process].
    destruct (loop_body_detail_calls rid st) as (k & Hk & Hdc).
    destruct (IH (loop_body rid st)) as (counts & Hlen & Hall & Hcalls).
    exists (k :: counts). split; [cbn; congruence|]. split; [now constructor|].
    rewrite Hcalls, Hdc. cbn. now rewrite <- app_assoc.
Qed.

(** X12.  The listings a run asks the client for: each room still to do, in
    the order of the enumeration, one to three calls each; never a room
    the log already holds. *)
Theorem detail_calls_of_run (HOST_URL : option str) (host_id : str)
    (w w2 : World U) (room_ids : list str) :
  resolves_to HOST_URL host_id ->
  get_room_ids_from_host host_id (write_csv [] w) = (Ok room_ids, w2) ->
  exists counts,
    length counts = length (remaining_of room_ids (load_processed_ids w)) /\
    Forall (fun k => (1 <= k <= 3)%nat) counts /\
    detail_calls (trace (snd (main HOST_URL w)))
    = detail_calls (trace w)
      ++ calls_of (remaining_of room_ids (load_processed_ids w)) counts /\
    Forall (fun rid => rid ∈ room_ids /\ rid ∉ load_processed_ids w)
      (calls_of (remaining_of room_ids (load_processed_ids w)) counts).
Proof.
  intros Hres Hen. rewrite (main_resolved _ _ _ Hres), Hen. cbn zeta. cbn [snd].
  change (load_processed_ids (write_csv [] w)) with (load_processed_ids w).
  set (l := remaining_of room_ids (load_processed_ids w)).
  destruct (process_detail_calls l (mkLoop [] ∅ w2)) as (counts & Hlen & Hall & Hcalls).
  exists counts. split; [assumption|]. split; [assumption|]. split.
  - cbn [trace write_csv set_csv_file]. rewrite Hcalls. cbn [world]. f_equal.
    apply get_room_ids_extends in Hen.
    now apply enumeration_quiet in Hen as [_ Hq].
  - apply Forall_forall. intros rid Hrid.
    apply calls_of_elem in Hrid. now apply remaining_of_elem in Hrid.
Qed.

End WithExternal.
End CallFacts.

Module TextFacts.
Import Observe Invariants.

Lemma drop_while_stops p (s : str) :
  match drop_while p s with [] => True | c :: _ => p c = false end.
Proof.
  induction s as [|c s IH]; [exact I|]. simpl.
  destruct (p c) eqn:E; [exact IH|exact E].
Qed.

Lemma drop_while_suffix p (s : str) : exists pre, s = pre ++ drop_while p s.
Proof.
  induction s as [|c s [pre IH]]; [now exists []|]. simpl.
  destruct (p c); [|now exists []]. exists (c :: pre). simpl. now f_equal.
Qed.

Lemma drop_while_fix p (s : str) :
  match s with [] => True | c :: _ => p c = false end -> drop_while p s = s.
Proof. destruct s as [|c s]; [reflexivity|]. simpl. now intros ->. Qed.

Lemma drop_while_idem p (s : str) :
  drop_while p (drop_while p s) = drop_while p s.
Proof. apply drop_while_fix, drop_while_stops. Qed.

(** [s.strip().strip()] is [s.strip()]. *)
Lemma strip_idem (s : str) : strip (strip s) = strip s.
Proof.
  unfold strip, lstrip, rstrip.
  pose proof (drop_while_stops is_space s) as Hu.
  set (u := drop_while is_space s) in *.
  destruct (drop_while_suffix is_space (rev u)) as [pre Hpre].
  pose proof (drop_while_idem is_space (rev u)) as Hv.
  set (v := drop_while is_space (rev u)) in *.
  apply (f_equal (@rev ascii)) in Hpre.
  rewrite rev_involutive, rev_app_distr in Hpre.
  assert (drop_while is_space (rev v) = rev v) as ->.
  { apply drop_while_fix. destruct (rev v) as [|c t]; [exact I|].
    rewrite Hpre in Hu. exact Hu. }
  now rewrite rev_involutive, Hv.
Qed.

Lemma strip_plain (s : str) :
  Forall (fun c => is_space c = false) s -> strip s = s.
Proof.
  intros Hs. unfold strip, lstrip, rstrip.
  rewrite (drop_while_fix _ s) by (destruct Hs; [exact I|assumption]).
  apply Forall_rev in Hs.
  rewrite (drop_while_fix _ (rev s)) by (destruct Hs; [exact I|assumption]).
  apply rev_involutive.
Qed.

Lemma in_drop_while p (s : str) c : In c (drop_while p s) -> In c s.
Proof.
  destruct (drop_while_suffix p s) as [pre Hpre]. intros Hc.
  rewrite Hpre. apply in_or_app. now right.
Qed.

Lemma in_strip (s : str) c : In c (strip s) -> In c s.
Proof.
  unfold strip, lstrip, rstrip. intros Hc.
  apply in_rev, in_drop_while, in_rev, in_drop_while in Hc. exact Hc.
Qed.

(** The words [s.split()] gives: none is empty, none holds whitespace,
    and their characters are characters of [s]. *)
Lemma split_from_words (s : str) : forall cur : str,
  Forall (fun c => is_space c = false) cur ->
  Forall (fun w => word_like w /\ forall c, In c w -> In c (cur ++ s))
    (split_from cur s).
Proof.
  induction s as [|x s IH]; intros cur Hcur; cbn [split_from].
  - destruct cur as [|c cur]; constructor; [|constructor].
    split; [split; [discriminate|assumption]|]. intros c0. now rewrite app_nil_r.
  - destruct (is_space x) eqn:Hx.
    + assert (Forall (fun w => word_like w /\ forall c, In c w -> In c (cur ++ x :: s))
                (split_from [] s)) as Hrest.
      { eapply Forall_impl; [apply (IH []); constructor|].
        intros w [Hw Hin]. split; [assumption|]. intros c Hc.
        apply in_or_app. right. right. now apply Hin. }
      destruct cur as [|c cur]; [exact Hrest|]. constructor; [|exact Hrest].
      split; [split; [discriminate|assumption]|].
      intros c0 Hc0. apply in_or_app. now left.
    + eapply Forall_impl; [apply (IH (cur ++ [x]))|].
      * apply Forall_app. split; [assumption|]. now constructor.
      * intros w [Hw Hin]. split; [assumption|]. intros c Hc.
        apply Hin in Hc. now rewrite <- app_assoc in Hc.
Qed.

Lemma digit_char (k : N) : (k < 10)%N -> is_decimal (ascii_of_N (48 + k)) = true.
Proof.
  intros Hk.
  assert (k = 0 \/ k = 1 \/ k = 2 \/ k = 3 \/ k = 4 \/ k = 5 \/ k = 6 \/ k = 7
          \/ k = 8 \/ k = 9)%N as Hcases by lia.
  repeat (destruct Hcases as [->|Hcases]; [reflexivity|]). now subst.
Qed.

Lemma digits_of_pos_decimal (fuel : nat) : forall (n : N) (acc : str),
  Forall (fun c => is_decimal c = true) acc ->
  Forall (fun c => is_decimal c = true) (digits_of_pos fuel n acc).
Proof.
  induction fuel as [|fuel IH]; intros n acc Hacc; [exact Hacc|].
  cbn [digits_of_pos].
  assert (is_decimal (ascii_of_N (48 + n mod 10)) = true) as Hd
    by (apply digit_char, N.mod_lt; discriminate).
  destruct (n <? 10)%N; [now constructor|]. apply IH. now constructor.
Qed.

Lemma digits_of_pos_acc (fuel : nat) : forall (n : N) (acc : str),
  acc <> [] -> digits_of_pos fuel n acc <> [].
Proof.
  induction fuel as [|fuel IH]; intros n acc Hacc; [exact Hacc|].
  cbn [digits_of_pos]. destruct (n <? 10)%N; [discriminate|].
  apply IH. discriminate.
Qed.

Lemma str_of_N_decimal (n : N) :
  str_of_N n <> [] /\ Forall (fun c => is_decimal c = true) (str_of_N n).
Proof.
  unfold str_of_N. split.
  - cbn [digits_of_pos]. destruct (n <? 10)%N; [discriminate|].
    apply digits_of_pos_acc. discriminate.
  - apply digits_of_pos_decimal. constructor.
Qed.

Lemma decimal_not_space c : is_decimal c = true -> is_space c = false.
Proof.
  unfold is_decimal, is_space, between. intros Hd.
  apply andb_true_iff in Hd as [H1 H2].
  apply N.leb_le in H1, H2.
  assert ((13 <? code c)%N = true) as H13 by (apply N.ltb_lt; lia).
  assert ((32 <? code c)%N = true) as H32 by (apply N.ltb_lt; lia).
  rewrite N.ltb_antisym in H13, H32.
  apply negb_true_iff in H13, H32. rewrite H13, H32, !andb_false_r. cbn [orb].
  apply orb_false_iff. split; apply N.eqb_neq; lia.
Qed.

Lemma str_of_Z_nonempty (z : Z) : str_of_Z z <> [].
Proof. destruct z; cbn; try discriminate. apply str_of_N_decimal. Qed.

Lemma str_of_nat_digits (z : Z) :
  0 <= z -> isdigit (strip (str_of_Z z)) = true /\ strip (str_of_Z z) = str_of_Z z.
Proof.
  intros Hz.
  assert (str_of_Z z <> [] /\ Forall (fun c => is_decimal c = true) (str_of_Z z))
    as [Hne Hd].
  { destruct z as [|p|p]; [split; [discriminate|repeat constructor]| |lia].
    apply str_of_N_decimal. }
  assert (strip (str_of_Z z) = str_of_Z z) as Hs.
  { apply strip_plain. eapply Forall_impl; [exact Hd|]. apply decimal_not_space. }
  split; [|exact Hs]. rewrite Hs. unfold isdigit.
  destruct (str_of_Z z) as [|c s] eqn:E; [contradiction|].
  apply forallb_forall. intros x Hx. rewrite Forall_forall in Hd.
  unfold py_isdigit_char. rewrite (Hd x) by now apply list_elem_of_In. reflexivity.
Qed.

Lemma str_of_neg_not_digits (p : positive) :
  isdigit (strip (str_of_Z (Zneg p))) = false.
Proof.
  assert (strip (str_of_Z (Zneg p)) = str_of_Z (Zneg p)) as ->.
  { apply strip_plain. cbn [str_of_Z]. constructor; [reflexivity|].
    eapply Forall_impl; [apply str_of_N_decimal|]. apply decimal_not_space. }
  reflexivity.
Qed.

End TextFacts.

Module ProgressLog.
Import Observe Invariants WorldFacts LoopFacts LogFacts TextFacts.

Section WithExternal.
Context {U : Type} `{!External U}.

(** X13.  Saving an identifier and loading the log again: on a log that ends
    in a complete line, a plain identifier is added to the set that is
    read back, nothing else is, and the log again ends in a complete
    line. *)
Theorem save_then_load (rid : str) (w : World U) :
  closed_log (ids_content w) -> plain_id rid ->
  load_processed_ids (save_processed_id rid w) = load_processed_ids w ∪ {[rid]} /\
  closed_log (ids_content (save_processed_id rid w)).
Proof.
  intros Hc Hrid.
  assert (ids_content (save_processed_id rid w) = ids_content w ++ rid ++ [LF]) as Hs
    by reflexivity.
  split.
  - rewrite !load_processed_ids_content, Hs.
    assert (file_lines (rid ++ [LF]) = [rid ++ [LF]]) as Hline.
    { pose proof (file_lines_log_text [rid]) as Hl. unfold log_text in Hl.
      cbn [List.map concat] in Hl. rewrite app_nil_r in Hl. apply Hl.
      now constructor. }
    apply set_eq. intros x.
    rewrite elem_of_union, elem_of_singleton, !stripped_lines_elem.
    rewrite (file_lines_app _ _ Hc), Hline. split.
    + intros (line & Hin & Hst & Hne). apply in_app_or in Hin as [Hin|[<-|[]]].
      * left. eauto.
      * right. now rewrite (strip_line _ Hrid) in Hst.
    + intros [(line & Hin & Hst)| ->].
      * exists line. split; [apply in_or_app; now left|assumption].
      * exists (rid ++ [LF]). split; [apply in_or_app; right; now left|].
        split; [now apply strip_line|apply Hrid].
  - rewrite Hs. right. exists (ids_content w ++ rid). now rewrite <- app_assoc.
Qed.

(** X14.  What is read back from the log is never the empty string and has no
    whitespace at either end, whatever the file holds. *)
Theorem loaded_ids_trimmed (w : World U) (x : str) :
  x ∈ load_processed_ids w -> x <> [] /\ strip x = x.
Proof.
  rewrite load_processed_ids_content, stripped_lines_elem.
  intros (line & _ & <- & Hne). split; [assumption|apply strip_idem].
Qed.

(** X15.  Whitespace around the value of HOST_URL does not change the run, and
    a variable that is not set runs as an empty one. *)
Theorem host_url_padding (s : str) (w : World U) :
  main (Some s) w = main (Some (strip s)) w /\
  main None w = main (Some []) w.
Proof.
  split; [|reflexivity]. unfold main. now rewrite strip_idem.
Qed.

End WithExternal.
End ProgressLog.

Module LicenseNormal.
Import Observe Invariants ReFacts LicenseFacts TextFacts.

(** X16.  The license code is a sequence of words joined by single spaces:
    no word is empty or holds whitespace, so the code has no line break
    and no blank at either end; and no word holds a comma.  The empty
    code is the empty sequence. *)
Theorem license_code_words (text : pyval) :
  exists ws,
    extract_license_code text = join (lit " ") ws /\
    Forall word_like ws /\
    Forall (fun w => ~ In Pattern.comma w) ws.
Proof.
  unfold extract_license_code.
  destruct (truthy text); cbn [negb];
    [|exists []; split; [reflexivity|split; constructor]].
  destruct (Re.search_group true Pattern.license_prefix Pattern.license_value
              (Re.sub false Pattern.tag (lit " ") (to_str text))) as [val|] eqn:Hs;
    [|exists []; split; [reflexivity|split; constructor]].
  apply search_group_sound in Hs as (pre & t & rest & _ & Hm & _).
  apply match_group_sound in Hm as (a & _ & _ & Hval).
  apply matches_license_value in Hval as [_ Hval].
  exists (split (strip val)). split; [reflexivity|].
  pose proof (split_from_words (strip val) [] (List.Forall_nil _)) as Hw.
  fold (split (strip val)) in Hw. split.
  - eapply Forall_impl; [exact Hw|]. now intros w [Hword _].
  - eapply Forall_impl; [exact Hw|]. intros w [_ Hin] Hcomma.
    apply Hin, in_strip in Hcomma. rewrite Forall_forall in Hval.
    apply list_elem_of_In, Hval in Hcomma. discriminate.
Qed.

End LicenseNormal.

Module EnumerationShapes.
Import Observe Invariants WorldFacts EnumerationFacts TextFacts.

Lemma fromkeys_fold_skip (x : str) (l : list str) : forall keys : list str,
  x ∈ keys ->
  fold_left (fun keys k => if bool_decide (k ∈ keys) then keys else keys ++ [k]) l keys
  = fold_left (fun keys k => if bool_decide (k ∈ keys) then keys else keys ++ [k])
      (List.filter (fun k => negb (bool_decide (k = x))) l) keys.
Proof.
  induction l as [|a l IH]; intros keys Hx; [reflexivity|]. cbn [fold_left List.filter].
  destruct (bool_decide (a = x)) eqn:Ha; cbn [negb].
  - apply bool_decide_eq_true in Ha. subst a.
    rewrite bool_decide_eq_true_2 by assumption. now apply IH.
  - cbn [fold_left]. apply IH.
    destruct (bool_decide (a ∈ keys)); [assumption|].
    apply elem_of_app. now left.
Qed.

Lemma fromkeys_fold_head (x : str) (l : list str) : forall keys : list str,
  x ∉ l ->
  fold_left (fun keys k => if bool_decide (k ∈ keys) then keys else keys ++ [k])
    l (x :: keys)
  = x :: fold_left (fun keys k => if bool_decide (k ∈ keys) then keys else keys ++ [k])
           l keys.
Proof.
  induction l as [|a l IH]; intros keys Hx; [reflexivity|]. cbn [fold_left].
  apply not_elem_of_cons in Hx as [Hxa Hx].
  destruct (bool_decide (a ∈ keys)) eqn:Ha.
  - apply bool_decide_eq_true in Ha.
    rewrite bool_decide_eq_true_2 by (now right). now apply IH.
  - apply bool_decide_eq_false in Ha.
    rewrite bool_decide_eq_false_2.
    + change ((x :: keys) ++ [a]) with (x :: (keys ++ [a])). now apply IH.
    + intros Hin. apply elem_of_cons in Hin as [->|Hin]; contradiction.
Qed.

(** X17.  [dict.fromkeys] keeps the first occurrence of every identifier: the
    head of the list stays at the head, and the rest is the rest without
    the head, treated the same way.  Doing it twice changes nothing. *)
Theorem dict_fromkeys_first_seen :
  (forall (x : str) (l : list str),
     dict_fromkeys (x :: l)
     = x :: dict_fromkeys (List.filter (fun k => negb (bool_decide (k = x))) l)) /\
  (forall l : list str, dict_fromkeys (dict_fromkeys l) = dict_fromkeys l).
Proof.
  split.
  - intros x l. unfold dict_fromkeys. cbn [fold_left].
    rewrite bool_decide_eq_false_2 by apply not_elem_of_nil. cbn [app].
    rewrite (fromkeys_fold_skip x l [x]) by now left.
    apply fromkeys_fold_head.
    intros Hin. apply list_elem_of_In, filter_In in Hin as [_ Hx].
    now rewrite bool_decide_eq_true_2 in Hx.
  - intros l. unfold dict_fromkeys at 1.
    apply (fromkeys_fold_id (dict_fromkeys l) []). apply dict_fromkeys_nodup.
Qed.

Lemma room_ids_loop_ints (ns : list Z) : forall acc : list str,
  room_ids_loop acc (List.map PInt ns)
  = Ok (acc ++ List.map str_of_Z (List.filter (fun n => 0 <=? n) ns)).
Proof.
  induction ns as [|n ns IH]; intros acc; cbn [List.map room_ids_loop List.filter].
  - now rewrite app_nil_r.
  - unfold room_ids_step. cbn [isinstance_dict to_str repr].
    destruct (0 <=? n) eqn:Hn.
    + apply Z.leb_le in Hn. destruct (str_of_nat_digits n Hn) as [-> ->].
      rewrite IH. cbn [List.map]. now rewrite <- app_assoc.
    + apply Z.leb_gt in Hn. destruct n as [|p|p]; try lia.
      rewrite str_of_neg_not_digits. apply IH.
Qed.

Lemma to_str_truthy (v : pyval) : truthy v = true -> to_str v <> [].
Proof.
  destruct v as [|[]|z|[|c s]|l|d]; cbn; try discriminate.
  intros _. apply str_of_Z_nonempty.
Qed.

Lemma room_ids_step_nonempty (ids ids' : list str) (it : pyval) :
  Forall (fun rid => rid <> []) ids ->
  room_ids_step ids it = Ok ids' ->
  Forall (fun rid => rid <> []) ids'.
Proof.
  intros Hids. unfold room_ids_step. destruct (isinstance_dict it).
  - destruct (item_rid it) as [rid|e]; [|discriminate].
    destruct (truthy rid) eqn:Ht; intros [= <-]; [|assumption].
    apply Forall_app. split; [assumption|]. constructor; [|constructor].
    now apply to_str_truthy.
  - destruct (isdigit (strip (to_str it))) eqn:Hd; intros [= <-]; [|assumption].
    apply Forall_app. split; [assumption|]. constructor; [|constructor].
    now destruct (strip (to_str it)).
Qed.

Lemma room_ids_loop_nonempty (items : list pyval) : forall ids ids' : list str,
  Forall (fun rid => rid <> []) ids ->
  room_ids_loop ids items = Ok ids' ->
  Forall (fun rid => rid <> []) ids'.
Proof.
  induction items as [|it items IH]; intros ids ids' Hids; cbn [room_ids_loop].
  - now intros [= <-].
  - destruct (room_ids_step ids it) as [ids1|e] eqn:Hs; [|discriminate].
    apply IH. eapply room_ids_step_nonempty; eassumption.
Qed.

Section WithExternal.
Context {U : Type} `{!External U}.

(** X18.  An answer of the client that is None or empty gives no room and no
    error. *)
Theorem enumeration_of_nothing (host_id : str) (w w0 w1 : World U) keys answer :
  get_api_credentials w = (keys, w0) ->
  call (EvGetListingsFromUser host_id)
    (pyairbnb_get_listings_from_user host_id (fst keys) PROXY_URL) w0
  = (Ok answer, w1) ->
  truthy answer = false ->
  get_room_ids_from_host host_id w = (Ok [], w1).
Proof.
  intros Hcred Hcall Ht. unfold get_room_ids_from_host. rewrite Hcred.
  destruct keys as [api_key cookies]. cbn [fst] in Hcall.
  now rewrite Hcall, Ht.
Qed.

(** X19.  Items that are bare integers: the non-negative ones are kept as
    their decimal text, first occurrences only; the negative ones are
    dropped. *)
Theorem enumeration_of_bare_ints (host_id : str) (w w0 w1 : World U) keys
    (n : Z) (ns : list Z) :
  get_api_credentials w = (keys, w0) ->
  call (EvGetListingsFromUser host_id)
    (pyairbnb_get_listings_from_user host_id (fst keys) PROXY_URL) w0
  = (Ok (PList (List.map PInt (n :: ns))), w1) ->
  get_room_ids_from_host host_id w
  = (Ok (dict_fromkeys
           (List.map str_of_Z (List.filter (fun n => 0 <=? n) (n :: ns)))), w1).
Proof.
  intros Hcred Hcall. unfold get_room_ids_from_host. rewrite Hcred.
  destruct keys as [api_key cookies]. cbn [fst] in Hcall. rewrite Hcall.
  cbn [truthy List.map iter]. change (PInt n :: List.map PInt ns)
    with (List.map PInt (n :: ns)).
  now rewrite room_ids_loop_ints.
Qed.

(** X20.  The identifiers the enumeration returns are never empty, and none
    comes twice. *)
Theorem enumerated_ids_distinct (host_id : str) (w w2 : World U) (room_ids : list str) :
  get_room_ids_from_host host_id w = (Ok room_ids, w2) ->
  Forall (fun rid => rid <> []) room_ids /\ NoDup room_ids.
Proof.
  intros Hen. split; [|exact (get_room_ids_nodup _ _ _ _ Hen)].
  revert Hen. unfold get_room_ids_from_host.
  destruct (get_api_credentials w) as [[api_key cookies] w0].
  match goal with
  | |- context [call (EvGetListingsFromUser host_id) ?f w0] =>
      destruct (call (EvGetListingsFromUser host_id) f w0) as [answer w1]
  end.
  destruct answer as [answer|e]; [|discriminate].
  destruct (iter _) as [items|e]; [|discriminate].
  destruct (room_ids_loop [] items) as [ids|e] eqn:Hl; [|discriminate].
  intros [= <- _]. apply Forall_forall. intros rid Hrid.
  apply (proj1 (dict_fromkeys_elem _ _)) in Hrid.
  apply (room_ids_loop_nonempty _ _ _ (List.Forall_nil _)) in Hl.
  rewrite Forall_forall in Hl. exact (Hl rid Hrid).
Qed.

End WithExternal.
End EnumerationShapes.

Module ProfileAnswers.
Import Observe Invariants WorldFacts ExtractFacts EnumerationFacts.

Section WithExternal.
Context {U : Type} `{!External U}.

Lemma profile_block_full (d data node stats pres cont up reviews : list (str * pyval))
    (created : str) (y this_year : Z) :
  sub_dict d (lit "data") data ->
  sub_dict data (lit "node") node ->
  sub_dict node (lit "hostRatingStats") stats ->
  sub_dict data (lit "presentation") pres ->
  sub_dict pres (lit "userProfileContainer") cont ->
  sub_dict cont (lit "userProfile") up ->
  sub_dict up (lit "reviewsReceivedFromGuests") reviews ->
  assoc up (lit "createdAt") = Some (PStr created) -> created <> [] ->
  fromisoformat_year (replace_Z created) = Ok y ->
  profile_block (PDict d) this_year HostProfile.empty
  = (Some tt,
     HostProfile.mk
       (let smart := value_at up (lit "smartName") (PStr []) in
        if truthy smart then smart
        else value_at up (lit "displayFirstName") (PStr []))
       (value_at stats (lit "ratingAverage") (PStr []))
       (value_at reviews (lit "count") (PStr []))
       (PInt y) (PInt (this_year - y)) (PInt 0)).
Proof.
  unfold sub_dict, value_at.
  intros Hdata Hnode Hstats Hpres Hcont Hup Hrev Hcreated Hne Hy.
  assert (truthy (PDict up) = true) as Hup_t.
  { destruct up; [discriminate Hcreated|reflexivity]. }
  assert (truthy (PStr created) = true) as Hcr_t.
  { destruct created; [contradiction|reflexivity]. }
  unfold profile_block, F_bind, F_lift, F_assign, F_ret.
  cbn [get]. rewrite Hdata. cbn [get]. rewrite Hnode. cbn [get]. rewrite Hstats.
  cbn [get]. rewrite Hpres. cbn [get]. rewrite Hcont. cbn [get]. rewrite Hup.
  rewrite Hup_t. cbn [get]. unfold py_or.
  destruct (truthy match assoc up (lit "smartName") with
                   | Some x => x
                   | None => PStr []
                   end);
    rewrite Hrev; cbn [get]; rewrite Hcreated, Hcr_t;
    unfold joined_block, F_assign; rewrite Hy; reflexivity.
Qed.

(** X21.  An answer with every part in place: the rating from the rating
    statistics, the name (the smart name, or the first name when that is
    empty), the number of reviews, the year of [createdAt] and the years
    since, and the count of the host's listings. *)
Theorem profile_of_full_answer (h : str) (cache : gmap str HostProfile.t)
    (w w0 w1 w2 : World U) keys listings
    (d data node stats pres cont up reviews : list (str * pyval))
    (created : str) (y : Z) :
  h <> [] -> cache !! h = None ->
  get_api_credentials w = (keys, w0) ->
  call (EvGetHostDetails h)
    (pyairbnb_get_host_details (fst keys) (snd keys) h LANGUAGE PROXY_URL) w0
  = (Ok (PDict d), w1) ->
  has_key d (lit "errors") = false ->
  sub_dict d (lit "data") data ->
  sub_dict data (lit "node") node ->
  sub_dict node (lit "hostRatingStats") stats ->
  sub_dict data (lit "presentation") pres ->
  sub_dict pres (lit "userProfileContainer") cont ->
  sub_dict cont (lit "userProfile") up ->
  sub_dict up (lit "reviewsReceivedFromGuests") reviews ->
  assoc up (lit "createdAt") = Some (PStr created) -> created <> [] ->
  fromisoformat_year (replace_Z created) = Ok y ->
  call (EvGetListingsFromUser h)
    (pyairbnb_get_listings_from_user h (fst keys) PROXY_URL) w1
  = (listings, w2) ->
  let fields :=
    HostProfile.mk
      (let smart := value_at up (lit "smartName") (PStr []) in
       if truthy smart then smart
       else value_at up (lit "displayFirstName") (PStr []))
      (value_at stats (lit "ratingAverage") (PStr []))
      (value_at reviews (lit "count") (PStr []))
      (PInt y) (PInt (datetime_now_year (upstream w1) - y))
      (total_listings listings) in
  fetch_host_profile_fields h cache w = (fields, <[h := fields]> cache, w2).
Proof.
  intros Hne Hc Hcred Hcall Herr Hdata Hnode Hstats Hpres Hcont Hup Hrev
    Hcreated Hcr Hy Hcall2.
  unfold fetch_host_profile_fields.
  destruct h as [|a h']; [contradiction|]. rewrite Hc, Hcred.
  destruct keys as [api_key cookies]. cbn [fst snd] in Hcall, Hcall2.
  rewrite Hcall.
  assert (truthy (PDict d) = true) as ->.
  { destruct d; [discriminate Hdata|reflexivity]. }
  rewrite Herr. cbn [negb andb].
  rewrite (profile_block_full d data node stats pres cont up reviews created y _
             Hdata Hnode Hstats Hpres Hcont Hup Hrev Hcreated Hcr Hy).
  rewrite Hcall2. reflexivity.
Qed.

(** X22.  An answer whose data is no dict: reading it raises, the exception is
    swallowed, the profile stays empty and is cached, and the listings
    of the host are not asked for. *)
Theorem profile_of_broken_answer (h : str) (cache : gmap str HostProfile.t)
    (w w0 w1 : World U) keys (d : list (str * pyval)) (v : pyval) :
  h <> [] -> cache !! h = None ->
  get_api_credentials w = (keys, w0) ->
  call (EvGetHostDetails h)
    (pyairbnb_get_host_details (fst keys) (snd keys) h LANGUAGE PROXY_URL) w0
  = (Ok (PDict d), w1) ->
  has_key d (lit "errors") = false ->
  assoc d (lit "data") = Some v -> isinstance_dict v = false ->
  fetch_host_profile_fields h cache w
  = (HostProfile.empty, <[h := HostProfile.empty]> cache, w1).
Proof.
  intros Hne Hc Hcred Hcall Herr Hdata Hv.
  unfold fetch_host_profile_fields.
  destruct h as [|a h']; [contradiction|]. rewrite Hc, Hcred.
  destruct keys as [api_key cookies]. cbn [fst snd] in Hcall.
  rewrite Hcall.
  assert (truthy (PDict d) = true) as ->.
  { destruct d; [discriminate Hdata|reflexivity]. }
  rewrite Herr. cbn [negb andb].
  unfold profile_block, F_bind, F_lift. cbn [get]. rewrite Hdata.
  destruct v; try discriminate Hv; reflexivity.
Qed.

End WithExternal.
End ProfileAnswers.

Module TagFacts.
Import Observe LicenseShape ReFacts LicenseFacts.

Lemma tags_replaced_gt (s out : str) :
  tags_replaced s out -> In Pattern.gt out -> In Pattern.gt s.
Proof.
  induction 1 as [|s rest out Htag _ IH|c s out _ _ IH]; intros Hin.
  - assumption.
  - destruct Htag as (body & -> & _ & _).
    change (lit " " ++ out) with (" "%char :: out) in Hin. destruct Hin as [Hsp|Hin]; [discriminate Hsp|].
    apply in_or_app. right. apply in_or_app. right.
    apply in_or_app. right. now apply IH.
  - destruct Hin as [->|Hin]; [now left|right; now apply IH].
Qed.

Lemma tags_replaced_head (s out out' : str) (x : ascii) :
  tags_replaced s out -> out = x :: out' -> x <> Pattern.gt ->
  match s with [] => False | y :: _ => y <> Pattern.gt end.
Proof.
  intros Hr. destruct Hr as [|s rest out Htag _|c s out _ _].
  - discriminate.
  - destruct Htag as (body & -> & _ & _). intros _ _. discriminate.
  - now intros [= -> _].
Qed.

Lemma first_gt (s : str) :
  In Pattern.gt s ->
  exists body rest,
    s = body ++ Pattern.gt :: rest /\ Forall (fun c => c <> Pattern.gt) body.
Proof.
  induction s as [|c s IH]; [contradiction|]. intros Hin.
  destruct (Ascii.ascii_dec c Pattern.gt) as [->|Hc].
  - exists [], s. split; [reflexivity|constructor].
  - destruct Hin as [Heq|Hin]; [now subst|].
    destruct (IH Hin) as (body & rest & -> & Hall).
    exists (c :: body), rest. split; [reflexivity|now constructor].
Qed.

Lemma tag_after_lt (s : str) :
  match s with [] => False | y :: _ => y <> Pattern.gt end ->
  In Pattern.gt s -> exists rest, tag_at (lit "<" ++ s) rest.
Proof.
  intros Hhead Hin. destruct (first_gt s Hin) as (body & rest & -> & Hall).
  exists rest, body. split; [reflexivity|]. split; [|assumption].
  destruct body; [|discriminate]. cbn in Hhead. contradiction.
Qed.

Lemma no_tag_left (s out : str) :
  tags_replaced s out ->
  forall pre t rest, out = pre ++ t -> ~ tag_at t rest.
Proof.
  induction 1 as [|s rest0 out Htag Hr IH|c s out Hno Hr IH]; intros pre t rest Heq.
  - destruct pre, t; try discriminate. intros Ht. apply tag_at_length in Ht.
    cbn in Ht. lia.
  - destruct pre as [|x pre].
    + cbn in Heq. subst t. intros (body & Hb & _). discriminate Hb.
    + injection Heq as _ Heq. now apply (IH pre).
  - destruct pre as [|x pre].
    + cbn in Heq. subst t. intros (body & Hb & Hne & Hall).
      injection Hb as -> Hout.
      destruct body as [|b body]; [contradiction|].
      apply Forall_cons_1 in Hall as Hb0. destruct Hb0 as [Hb0 _].
      assert (In Pattern.gt out) as Hgt.
      { rewrite Hout. apply in_or_app. right. now left. }
      destruct (tag_after_lt s) as [rest' Htag'].
      * apply (tags_replaced_head s out (body ++ lit ">" ++ rest) b Hr);
          [exact Hout|exact Hb0].
      * now apply (tags_replaced_gt s out).
      * exact (Hno rest' Htag').
    + injection Heq as _ Heq. now apply (IH pre).
Qed.

Lemma tags_replaced_clean (t : str) :
  (forall pre u rest, t = pre ++ u -> ~ tag_at u rest) -> tags_replaced t t.
Proof.
  induction t as [|c t IH]; intros Hno; [constructor|].
  apply tr_keep.
  - intros rest. now apply (Hno []).
  - apply IH. intros pre u rest ->. now apply (Hno (c :: pre)).
Qed.

(** X23.  After the tags of a text are replaced no tag is left in it, so
    that replacing them again changes nothing. *)
Theorem tag_removal_settles (s : str) :
  (forall pre t rest,
     Re.sub false Pattern.tag (lit " ") s = pre ++ t -> ~ tag_at t rest) /\
  Re.sub false Pattern.tag (lit " ") (Re.sub false Pattern.tag (lit " ") s)
  = Re.sub false Pattern.tag (lit " ") s.
Proof.
  pose proof (no_tag_left _ _ (sub_tags_replaced s)) as Hno.
  split; [exact Hno|].
  apply (tags_replaced_unique _ _ (sub_tags_replaced _)).
  now apply tags_replaced_clean.
Qed.

End TagFacts.

(* ===================================================================== *)
(** * The match the license search settles on *)
(* ===================================================================== *)

Module MatchOrder.
Import Re ReShape ReFacts.






(** ** The order of the remainders, pattern by pattern *)











End MatchOrder.

Module PrefixOrder.
Import Re ReShape ReFacts LicenseShape LicenseFacts MatchOrder.

(** ** Characters *)






(** ** The second words *)













(** ** The keywords *)

Lemma rem_seq ic r1 r2 (s : str) :
  remainders ic (Seq r1 r2) s = flat_map (remainders ic r2) (remainders ic r1 s).
Proof. reflexivity. Qed.



Lemma rem_keyword_nil (w1 : str) (r : regex) (s : str) :
  remainders true (word w1) s = [] -> remainders true (Seq (word w1) r) s = [].
Proof. intros H. rewrite rem_seq, H. reflexivity. Qed.







End PrefixOrder.

Module LicenseChoice.
Import Re ReShape ReFacts LicenseShape LicenseReading LicenseFacts.
Import MatchOrder PrefixOrder TextFacts.

(** ** Letters in either case *)











(** ** The match at one place *)


(** ** The search *)


(** ** One reading only is chosen *)



(** ** Words *)












(** With License No: XYZ the value is not read from the colon on: the
    keyword with its colon and its blank reaches further. *)
Example value_after_separators :
  ~ chosen (lit "License No: XYZ") [] (lit "License No") (lit ": XYZ").
Proof.
  intros (_ & _ & Hlong).
  assert (reading (lit "License No: XYZ") [] (lit "License No: ") (lit "XYZ")) as Hr.
  { exists (lit "License No"), (lit ": "), []. split; [reflexivity|].
    split; [reflexivity|]. split.
    - exists (lit "License"), [lit "Number"; lit "No"; lit "No."; lit "Code"],
        (lit "No"), (lit "License"), (lit " "), (lit "No").
      split; [cbn; tauto|]. split; [cbn; tauto|]. split; [reflexivity|].
      split; [repeat constructor|]. split; [discriminate|].
      split; [repeat constructor|repeat constructor].
    - split; [repeat constructor; now left|]. split; [discriminate|].
      split; [|exact I]. repeat constructor; discriminate. }
  specialize (Hlong _ _ Hr). cbn in Hlong. lia.
Qed.

End LicenseChoice.

(* ===================================================================== *)
(** * Runs on the scripted world *)
(* ===================================================================== *)

Module Runs.
Import Observe Marking Shape LicenseShape Fixtures Samples.
Import LicenseFacts RetryFacts ExtractFacts LoopFacts PipelineProperties.

Lemma resolves_HOST : resolves_to (U := Scripted.t) HOST (lit "12345678").
Proof. split; [vm_compute; reflexivity|discriminate]. Qed.

Lemma in_processed (rid : str) (w : World Scripted.t) :
  bool_decide (rid ∈ load_processed_ids w) = true -> rid ∈ load_processed_ids w.
Proof. apply bool_decide_eq_true_1. Qed.

Lemma rerun_idempotence_witness :
  let w0 := Scripted.fresh small_market in
  let w1 := snd (main HOST w0) in
  let wb := snd (get_room_ids_from_host (lit "12345678")
                   (write_csv [] (new_process w1))) in
  main HOST w0 = (Ok tt, w1) /\
  marks_all [lit "5"] w0 w1 /\
  (forall rid, rid ∈ [lit "5"] -> rid ∈ load_processed_ids w1) /\
  main HOST (new_process w1) = (Ok tt, write_csv [] wb) /\
  csv_file (write_csv [] wb) = Some [] /\
  ids_file (write_csv [] wb) = ids_file w1 /\
  detail_calls (trace (write_csv [] wb)) = detail_calls (trace w1) /\
  sleeps (trace (write_csv [] wb)) = sleeps (trace w1).
Proof.
  intros w0 w1 wb.
  destruct (RerunFacts.rerun_idempotence HOST (lit "12345678") w0
              (snd (get_room_ids_from_host (lit "12345678") (write_csv [] w0)))
              [lit "5"])
    as (w1' & Hmain & Hrerun).
  - exact resolves_HOST.
  - vm_compute. reflexivity.
  - now left.
  - apply Forall_cons. split; [|apply List.Forall_nil].
    split; [discriminate|]. apply Forall_cons. split; [reflexivity|apply List.Forall_nil].
  - assert (w1' = w1) as -> by (unfold w1; now rewrite Hmain).
    assert (marks_all [lit "5"] w0 w1) as Hmarks by (vm_compute; reflexivity).
    destruct (Hrerun Hmarks) as [Hall Hsecond].
    split; [exact Hmain|]. split; [exact Hmarks|]. split; [exact Hall|].
    apply Hsecond. vm_compute. reflexivity.
Defined.

(** C1 as stated fails: on a log whose last line has no line feed the
    first run marks the one listing, and the second run fetches it
    again. *)
Lemma rerun_open_log_counterexample :
  ~ (forall (HOST_URL : option str) (host_id : str)
       (w0 w1 wa wb : World Scripted.t) (room_ids : list str),
       resolves_to HOST_URL host_id ->
       get_room_ids_from_host host_id (write_csv [] w0) = (Ok room_ids, wa) ->
       main HOST_URL w0 = (Ok tt, w1) ->
       marks_all room_ids w0 w1 ->
       get_room_ids_from_host host_id (write_csv [] (new_process w1))
       = (Ok room_ids, wb) ->
       main HOST_URL (new_process w1) = (Ok tt, write_csv [] wb) /\
       csv_file (write_csv [] wb) = Some [] /\
       ids_file (write_csv [] wb) = ids_file w1 /\
       detail_calls (trace (write_csv [] wb)) = detail_calls (trace w1) /\
       sleeps (trace (write_csv [] wb)) = sleeps (trace w1)).
Proof.
  intros H.
  specialize (H HOST (lit "12345678") open_log (snd (main HOST open_log))
                (snd (get_room_ids_from_host (lit "12345678")
                        (write_csv [] open_log)))
                (snd (get_room_ids_from_host (lit "12345678")
                        (write_csv [] (new_process (snd (main HOST open_log))))))
                [lit "5"]).
  destruct H as (Hmain & _).
  - exact resolves_HOST.
  - vm_compute. reflexivity.
  - vm_compute. reflexivity.
  - vm_compute. reflexivity.
  - vm_compute. reflexivity.
  - vm_compute in Hmain. discriminate Hmain.
Qed.


Lemma retry_policy_witness :
  retry_on_failure (sleep_counted no_sleep) 3 2 (counted scripted_op)
    ([Raise TypeError; Raise ValueError; Ok (PInt 1)], O)
  = (Ok (PInt 1), ([], 3%nat)) /\
  retry_on_failure (sleep_counted no_sleep) 3 2 (counted scripted_op)
    ([Raise TypeError; Raise ValueError; Raise AttributeError; Ok (PInt 1)], O)
  = (Raise AttributeError, ([Ok (PInt 1)], 3%nat)) /\
  wrapper_loop no_sleep 5 3 scripted_op [2; 3; 4] [Raise TypeError; Ok PNone]
  = wrapper_loop no_sleep 5 3 scripted_op [3; 4] (no_sleep (3 * 2 ^ 2) [Ok PNone]).
Proof.
  destruct (retry_policy no_sleep) as (H1 & H2 & H3).
  split; [|split].
  - apply (H1 scripted_op
              [Raise TypeError; Raise ValueError; Ok (PInt 1)]
              [Raise ValueError; Ok (PInt 1)] [Ok (PInt 1)] []
              TypeError ValueError (PInt 1) O); reflexivity.
  - apply (H2 scripted_op
              [Raise TypeError; Raise ValueError; Raise AttributeError; Ok (PInt 1)]
              [Raise ValueError; Raise AttributeError; Ok (PInt 1)]
              [Raise AttributeError; Ok (PInt 1)] [Ok (PInt 1)]
              TypeError ValueError AttributeError O); reflexivity.
  - apply (H3 5 3 scripted_op 2 [3; 4] [Raise TypeError; Ok PNone] [Ok PNone]
              TypeError); [reflexivity|lia].
Defined.




(** C9 as stated fails: the pause is taken after a listing that is
    skipped because its fetch raised. *)
Lemma pause_after_failed_fetch_counterexample :
  ~ (forall (rid : str) (st : Loop Scripted.t) e (w1 : World Scripted.t),
       get_listing_details rid (world st) = (Raise e, w1) ->
       sleeps (trace (world (loop_body rid st))) = sleeps (trace w1)).
Proof.
  intros H.
  specialize (H (lit "42") (mkLoop [] ∅ (Scripted.fresh market)) Scripted.unavailable
                (snd (get_listing_details (lit "42") (Scripted.fresh market)))).
  assert (get_listing_details (lit "42")
            (world (mkLoop [] ∅ (Scripted.fresh market)))
          = (Raise Scripted.unavailable,
             snd (get_listing_details (lit "42") (Scripted.fresh market)))) as Hd
    by (vm_compute; reflexivity).
  specialize (H Hd). vm_compute in H. discriminate.
Qed.

Lemma suspension_points_witness :
  (exists backoffs,
     (backoffs = [] \/ backoffs = [2] \/ backoffs = [2; 4]) /\
     sleeps (trace (snd (get_listing_details (lit "42") (Scripted.fresh market))))
     = sleeps (trace (Scripted.fresh market)) ++ List.map (pair Backoff) backoffs /\
     sleeps (trace (world (loop_body (lit "42") (mkLoop [] ∅ (Scripted.fresh market)))))
     = sleeps (trace (snd (get_listing_details (lit "42") (Scripted.fresh market))))
       ++ inter_request_delay) /\
  (sleeps (trace (Scripted.fresh market)) = sleeps (trace (Scripted.fresh market)) \/
   exists host_id room_ids w2,
     resolves_to (U := Scripted.t) None host_id /\
     get_room_ids_from_host host_id (write_csv [] (Scripted.fresh market))
     = (Ok room_ids, w2) /\
     sleeps (trace w2) = sleeps (trace (Scripted.fresh market)) /\
     sleeps (trace (Scripted.fresh market))
     = sleeps (trace (world
         (process (remaining_of room_ids
                     (load_processed_ids (write_csv [] (Scripted.fresh market))))
            (mkLoop [] ∅ w2))))).
Proof.
  destruct (suspension_points (U := Scripted.t)) as (H1 & H2).
  split.
  - apply (H1 (lit "42") (mkLoop [] ∅ (Scripted.fresh market))
              (Raise Scripted.unavailable)).
    vm_compute. reflexivity.
  - apply (H2 None (Scripted.fresh market) (Scripted.fresh market) (Ok tt)).
    reflexivity.
Defined.

Lemma null_host_id_witness :
  exists row fields cache' w',
    extract_listing_data (lit "7") (payload "Villa" (PDict [(lit "id", PNone)]))
      ∅ (Scripted.fresh market)
    = (Ok row, cache', w') /\
    Row.host_id row = lit "None" /\
    Row.host_profile_url row = lit "https://www.airbnb.com/users/show/None" /\
    fetch_host_profile_fields (lit "None") ∅ (Scripted.fresh market)
    = (fields, cache', w') /\
    Row.host_name row = HostProfile.host_name fields /\
    Row.host_rating row = HostProfile.host_rating fields /\
    Row.host_total_listings_in_dubai row = HostProfile.host_total_listings fields /\
    match (∅ : gmap str HostProfile.t) !! lit "None" with
    | Some cached => fields = cached /\ cache' = ∅ /\ w' = Scripted.fresh market
    | None =>
        cache' = <[lit "None" := fields]> ∅ /\
        In (EvGetHostDetails (lit "None")) (trace w')
    end.
Proof.
  apply (null_host_id (lit "7") _ [(lit "id", PNone)] ∅ (Scripted.fresh market));
    reflexivity.
Defined.

(** C6, where the script departs from it: an item whose listing is None
    yields no identifier, and the enumeration raises instead of skipping
    it; the exception leaves [main]. *)
Theorem enumeration_raises_on_null_listing :
  room_ids_loop [] [PDict [(lit "listing", PNone)]] = Raise AttributeError /\
  fst (get_room_ids_from_host (lit "12345678") (Scripted.fresh null_listing_market))
  = Raise AttributeError /\
  fst (main HOST (Scripted.fresh null_listing_market)) = Raise AttributeError.
Proof. repeat split; vm_compute; reflexivity. Qed.

(** C7, where the script departs from it: with no host reference, or
    with one that does not resolve, [main] returns before it writes the
    empty table; no file is created and the client is not called. *)
Theorem aborted_run_writes_no_table :
  main None (Scripted.fresh market) = (Ok tt, Scripted.fresh market) /\
  main (Some (lit "not a host")) (Scripted.fresh market)
  = (Ok tt, Scripted.fresh market) /\
  csv_file (Scripted.fresh market) = None /\
  trace (Scripted.fresh market) = [].
Proof. repeat split; vm_compute; reflexivity. Qed.

(** The enumeration of the specification: 5, 3, 5, 7 gives 5, 3, 7. *)
Example dedup_5_3_5_7 :
  dict_fromkeys [lit "5"; lit "3"; lit "5"; lit "7"] = [lit "5"; lit "3"; lit "7"].
Proof. vm_compute. reflexivity. Qed.

End Runs.

(* ===================================================================== *)
(** * The further properties on the scripted world *)
(* ===================================================================== *)

Module FurtherRuns.
Import Observe Invariants LicenseShape Fixtures Samples.

Lemma resolves_sample : resolves_to (U := Scripted.t) HOST (lit "12345678").
Proof. split; [vm_compute; reflexivity|discriminate]. Qed.

Lemma in_loaded (rid : str) (w : World Scripted.t) :
  bool_decide (rid ∈ load_processed_ids w) = true -> rid ∈ load_processed_ids w.
Proof. apply bool_decide_eq_true_1. Qed.

Lemma retry_ledger_witness :
  let out := retry_on_failure Ledger.sleep 3 2 (Ledger.invoke scripted_op)
               ([Raise TypeError; Ok (PInt 1)], (O, [])) in
  (forall attempt, 0 <= attempt < 3 - 1 -> Ledger.sleepable (2 * 2 ^ attempt)) /\
  0 < 3 /\
  exists j,
    Z.of_nat j < 3 /\
    fst (snd (snd out)) = (0 + j + 1)%nat /\
    snd (snd (snd out)) = [] ++ Ledger.backoffs 2 j /\
    Forall Ledger.sleepable (Ledger.backoffs 2 j) /\
    (forall e, fst out = Raise e -> Z.of_nat j = 3 - 1).
Proof.
  intros out.
  assert (forall attempt,
            0 <= attempt < 3 - 1 -> Ledger.sleepable (2 * 2 ^ attempt)) as Hwait.
  { intros attempt Ha. assert (attempt = 0 \/ attempt = 1) as [->| ->] by lia;
      unfold Ledger.sleepable; cbn; lia. }
  split; [exact Hwait|]. split; [lia|].
  apply (proj2 (RetryBounds.retry_ledger scripted_op 3 2
                  [Raise TypeError; Ok (PInt 1)] O [] Hwait)).
  lia.
Defined.

Lemma credentials_memo_witness :
  let w := Scripted.fresh market in
  let w' := snd (get_api_credentials w) in
  API_KEY w = PNone /\
  API_KEY w' = PStr (lit "key") /\
  trace w' = trace w ++ [EvGetApiKey] /\
  get_api_credentials w' = (fst (get_api_credentials w), w').
Proof.
  intros w w'.
  pose proof (CredentialFacts.credentials_memo w) as H. cbn zeta in H.
  destruct H as (_ & _ & _ & H4 & H5).
  destruct (H4 eq_refl (PStr (lit "key")) market eq_refl) as [Hk Ht].
  split; [reflexivity|]. split; [exact Hk|]. split; [exact Ht|].
  apply H5. rewrite Hk. discriminate.
Defined.

Lemma profile_cache_hit_witness :
  let out := fetch_host_profile_fields (lit "77") ∅ (Scripted.fresh market) in
  snd (fst out) !! lit "77" = Some (fst (fst out)) /\
  (forall k, k <> lit "77" ->
     snd (fst out) !! k = (∅ : gmap str HostProfile.t) !! k) /\
  (forall w2 : World Scripted.t,
     fetch_host_profile_fields (lit "77") (snd (fst out)) w2
     = (fst (fst out), snd (fst out), w2)).
Proof.
  intros out.
  apply (ProfileFacts.profile_cache_hit (lit "77") ∅ (snd (fst out))
           (Scripted.fresh market) (snd out) (fst (fst out))).
  - discriminate.
  - subst out. now destruct (fetch_host_profile_fields _ _ _) as [[f c] w'].
Defined.

Lemma profile_client_raises_witness :
  fetch_host_profile_fields (lit "77") ∅
    (Scripted.fresh (host_market (Raise Scripted.unavailable)))
  = (HostProfile.empty, <[lit "77" := HostProfile.empty]> ∅,
     asked (host_market (Raise Scripted.unavailable))).
Proof.
  apply (ProfileFacts.profile_client_raises (lit "77") ∅
           (Scripted.fresh (host_market (Raise Scripted.unavailable)))
           (keyed (host_market (Raise Scripted.unavailable)))
           (asked (host_market (Raise Scripted.unavailable)))
           (PStr (lit "key"), COOKIES) Scripted.unavailable).
  - discriminate.
  - reflexivity.
  - vm_compute. reflexivity.
  - vm_compute. reflexivity.
Defined.

Lemma profile_no_data_witness :
  let fields :=
    HostProfile.mk (PStr []) (PStr []) (PStr []) (PStr []) (PStr [])
      (total_listings (fst (counted_listings (host_market (Ok (PDict [])))))) in
  fetch_host_profile_fields (lit "77") ∅
    (Scripted.fresh (host_market (Ok (PDict []))))
  = (fields, <[lit "77" := fields]> ∅,
     snd (counted_listings (host_market (Ok (PDict []))))).
Proof.
  apply (ProfileFacts.profile_no_data (lit "77") ∅
           (Scripted.fresh (host_market (Ok (PDict []))))
           (keyed (host_market (Ok (PDict []))))
           (asked (host_market (Ok (PDict []))))
           (snd (counted_listings (host_market (Ok (PDict [])))))
           (PStr (lit "key"), COOKIES) (PDict [])
           (fst (counted_listings (host_market (Ok (PDict [])))))).
  - discriminate.
  - reflexivity.
  - vm_compute. reflexivity.
  - vm_compute. reflexivity.
  - now left.
  - vm_compute. reflexivity.
Defined.

Lemma profile_years_witness :
  let out := fetch_host_profile_fields (lit "77") ∅
               (Scripted.fresh (host_market (Ok (PDict full_answer)))) in
  years_consistent 2024 (fst (fst out)) /\
  exists n, 0 <= n /\ HostProfile.host_total_listings (fst (fst out)) = PInt n.
Proof.
  intros out.
  change 2024
    with (datetime_now_year (upstream (asked (host_market (Ok (PDict full_answer)))))).
  apply (ProfileFacts.profile_years (lit "77") ∅ (snd (fst out))
           (Scripted.fresh (host_market (Ok (PDict full_answer))))
           (keyed (host_market (Ok (PDict full_answer))))
           (asked (host_market (Ok (PDict full_answer))))
           (snd out)
           (PStr (lit "key"), COOKIES) (Ok (PDict full_answer)) (fst (fst out))).
  - discriminate.
  - reflexivity.
  - vm_compute. reflexivity.
  - vm_compute. reflexivity.
  - subst out. now destruct (fetch_host_profile_fields _ _ _) as [[f c] w'].
Defined.

Lemma profile_of_full_answer_witness :
  let fields :=
    HostProfile.mk (PStr (lit "Ada")) (PInt 5) (PInt 12) (PInt 2019) (PInt 5)
      (PInt 1) in
  fetch_host_profile_fields (lit "77") ∅
    (Scripted.fresh (host_market (Ok (PDict full_answer))))
  = (fields, <[lit "77" := fields]> ∅,
     snd (counted_listings (host_market (Ok (PDict full_answer))))).
Proof.
  intros fields.
  refine (eq_trans
            (ProfileAnswers.profile_of_full_answer (lit "77") ∅
               (Scripted.fresh (host_market (Ok (PDict full_answer))))
               (keyed (host_market (Ok (PDict full_answer))))
               (asked (host_market (Ok (PDict full_answer))))
               (snd (counted_listings (host_market (Ok (PDict full_answer)))))
               (PStr (lit "key"), COOKIES)
               (fst (counted_listings (host_market (Ok (PDict full_answer)))))
               full_answer data node stats presentation container user_profile
               reviews (lit "2019-03-01T10:00:00Z") 2019
               _ _ _ _ _ _ _ _ _ _ _ _ _ _ _ _) _).
  - discriminate.
  - reflexivity.
  - vm_compute. reflexivity.
  - vm_compute. reflexivity.
  - vm_compute. reflexivity.
  - vm_compute. reflexivity.
  - vm_compute. reflexivity.
  - vm_compute. reflexivity.
  - vm_compute. reflexivity.
  - vm_compute. reflexivity.
  - vm_compute. reflexivity.
  - vm_compute. reflexivity.
  - vm_compute. reflexivity.
  - discriminate.
  - vm_compute. reflexivity.
  - vm_compute. reflexivity.
  - vm_compute. reflexivity.
Defined.

Lemma profile_of_broken_answer_witness :
  fetch_host_profile_fields (lit "77") ∅
    (Scripted.fresh (host_market (Ok (PDict [(lit "data", PNone)]))))
  = (HostProfile.empty, <[lit "77" := HostProfile.empty]> ∅,
     asked (host_market (Ok (PDict [(lit "data", PNone)])))).
Proof.
  apply (ProfileAnswers.profile_of_broken_answer (lit "77") ∅
           (Scripted.fresh (host_market (Ok (PDict [(lit "data", PNone)]))))
           (keyed (host_market (Ok (PDict [(lit "data", PNone)]))))
           (asked (host_market (Ok (PDict [(lit "data", PNone)]))))
           (PStr (lit "key"), COOKIES) [(lit "data", PNone)] PNone).
  - discriminate.
  - reflexivity.
  - vm_compute. reflexivity.
  - vm_compute. reflexivity.
  - vm_compute. reflexivity.
  - vm_compute. reflexivity.
  - reflexivity.
Defined.

Lemma row_without_host_witness :
  extract_listing_data (lit "5")
    (PDict [(lit "title", PStr (lit "Loft")); (lit "host", PNone)])
    ∅ (Scripted.fresh market)
  = (Ok (Row.mk (lit "5")
           (lit "https://www.airbnb.com/rooms/" ++ lit "5")
           (PStr (lit "Loft"))
           (extract_license_code (PStr []))
           [] (PStr []) [] (PStr []) (PStr []) (PStr []) (PStr []) (PInt 0)),
     ∅, Scripted.fresh market).
Proof.
  apply (RowFacts.row_without_host (lit "5")
           [(lit "title", PStr (lit "Loft")); (lit "host", PNone)]
           ∅ (Scripted.fresh market)).
  vm_compute. exact I.
Defined.

Lemma turn_on_non_dict_witness :
  let st := mkLoop [] ∅ (Scripted.fresh text_market) in
  let w1 := snd (get_listing_details (lit "5") (world st)) in
  loop_body (lit "5") st
  = mkLoop (records st) (host_cache st) (sleep InterRequest DELAY_BETWEEN_DETAILS w1) /\
  ids_file (world (loop_body (lit "5") st)) = ids_file (world st).
Proof.
  intros st w1.
  apply (RowFacts.turn_on_non_dict (lit "5") st (PStr (lit "oops")) w1).
  - vm_compute. reflexivity.
  - reflexivity.
  - reflexivity.
Defined.

Lemma table_matches_log_witness :
  let w := Scripted.fresh market in
  exists rows wf,
    main HOST w = (Ok tt, wf) /\
    csv_file wf = Some rows /\
    List.map Row.room_id rows
      `sublist_of` remaining_of [lit "5"; lit "42"; lit "7"] (load_processed_ids w) /\
    NoDup (List.map Row.room_id rows) /\
    Forall row_linked rows /\
    ids_content wf = ids_content w ++ log_text (List.map Row.room_id rows).
Proof.
  intros w.
  apply (RowFacts.table_matches_log HOST (lit "12345678") w
           (snd (get_room_ids_from_host (lit "12345678") (write_csv [] w)))
           [lit "5"; lit "42"; lit "7"]).
  - exact resolves_sample.
  - vm_compute. reflexivity.
Defined.

Lemma enumeration_failure_leaves_header_witness :
  let w := Scripted.fresh null_listing_market in
  let w2 := snd (get_room_ids_from_host (lit "12345678") (write_csv [] w)) in
  main HOST w = (Raise AttributeError, w2) /\
  csv_file w2 = Some [] /\
  ids_file w2 = ids_file w /\
  detail_calls (trace w2) = detail_calls (trace w) /\
  sleeps (trace w2) = sleeps (trace w).
Proof.
  intros w w2.
  apply (RowFacts.enumeration_failure_leaves_header HOST (lit "12345678") w w2
           AttributeError).
  - exact resolves_sample.
  - vm_compute. reflexivity.
Defined.

Lemma detail_calls_of_run_witness :
  let w := Scripted.fresh market in
  exists counts,
    length counts
    = length (remaining_of [lit "5"; lit "42"; lit "7"] (load_processed_ids w)) /\
    Forall (fun k => (1 <= k <= 3)%nat) counts /\
    detail_calls (trace (snd (main HOST w)))
    = detail_calls (trace w)
      ++ calls_of (remaining_of [lit "5"; lit "42"; lit "7"] (load_processed_ids w))
           counts /\
    Forall (fun rid => rid ∈ [lit "5"; lit "42"; lit "7"] /\ rid ∉ load_processed_ids w)
      (calls_of (remaining_of [lit "5"; lit "42"; lit "7"] (load_processed_ids w))
         counts).
Proof.
  intros w.
  apply (CallFacts.detail_calls_of_run HOST (lit "12345678") w
           (snd (get_room_ids_from_host (lit "12345678") (write_csv [] w)))
           [lit "5"; lit "42"; lit "7"]).
  - exact resolves_sample.
  - vm_compute. reflexivity.
Defined.

Lemma save_then_load_witness :
  let w := Scripted.fresh market in
  load_processed_ids (save_processed_id (lit "5") w)
  = load_processed_ids w ∪ {[lit "5"]} /\
  closed_log (ids_content (save_processed_id (lit "5") w)).
Proof.
  intros w. apply (ProgressLog.save_then_load (lit "5") w).
  - now left.
  - split; [discriminate|]. repeat constructor.
Defined.

Lemma loaded_ids_trimmed_witness :
  lit "5" ∈ load_processed_ids padded_log /\
  lit "5" <> [] /\ strip (lit "5") = lit "5".
Proof.
  assert (lit "5" ∈ load_processed_ids padded_log) as Hin
    by (apply in_loaded; vm_compute; reflexivity).
  split; [exact Hin|].
  exact (ProgressLog.loaded_ids_trimmed padded_log (lit "5") Hin).
Defined.

Lemma enumeration_of_nothing_witness :
  get_room_ids_from_host (lit "12345678") (Scripted.fresh (listing_market (Ok PNone)))
  = (Ok [],
     snd (get_room_ids_from_host (lit "12345678")
            (Scripted.fresh (listing_market (Ok PNone))))).
Proof.
  apply (EnumerationShapes.enumeration_of_nothing (lit "12345678")
           (Scripted.fresh (listing_market (Ok PNone)))
           (keyed (listing_market (Ok PNone)))
           _ (PStr (lit "key"), COOKIES) PNone).
  - vm_compute. reflexivity.
  - vm_compute. reflexivity.
  - reflexivity.
Defined.

Lemma enumeration_of_bare_ints_witness :
  let u := listing_market (Ok (PList (List.map PInt [5; -3; 5; 0]))) in
  get_room_ids_from_host (lit "12345678") (Scripted.fresh u)
  = (Ok (dict_fromkeys
           (List.map str_of_Z (List.filter (fun n => 0 <=? n) [5; -3; 5; 0]))),
     snd (get_room_ids_from_host (lit "12345678") (Scripted.fresh u))).
Proof.
  intros u.
  apply (EnumerationShapes.enumeration_of_bare_ints (lit "12345678")
           (Scripted.fresh u) (keyed u) _ (PStr (lit "key"), COOKIES) 5 [-3; 5; 0]).
  - vm_compute. reflexivity.
  - vm_compute. reflexivity.
Defined.

Lemma enumerated_ids_distinct_witness :
  Forall (fun rid : str => rid <> []) [lit "5"; lit "42"; lit "7"] /\
  NoDup [lit "5"; lit "42"; lit "7"].
Proof.
  apply (EnumerationShapes.enumerated_ids_distinct (lit "12345678")
           (Scripted.fresh market)
           (snd (get_room_ids_from_host (lit "12345678") (Scripted.fresh market)))
           [lit "5"; lit "42"; lit "7"]).
  vm_compute. reflexivity.
Defined.

Lemma tag_removal_settles_witness :
  Re.sub false Pattern.tag (lit " ") (lit "<p>x</p>") = lit " x " /\
  ~ tag_at (lit " x ") [] /\
  Re.sub false Pattern.tag (lit " ") (Re.sub false Pattern.tag (lit " ") (lit "<p>x</p>"))
  = Re.sub false Pattern.tag (lit " ") (lit "<p>x</p>").
Proof.
  split; [reflexivity|]. split.
  - apply (proj1 (TagFacts.tag_removal_settles (lit "<p>x</p>")) [] (lit " x ") []).
    reflexivity.
  - apply (proj2 (TagFacts.tag_removal_settles (lit "<p>x</p>"))).
Defined.

Lemma room_ids_loop_guarded_witness :
  exists room_ids',
    room_ids_loop [] [PDict [(lit "room_id", PInt 5)]; PInt 3; PDict []]
    = Ok room_ids'.
Proof.
  apply (EnumerationFacts.room_ids_loop_guarded
           [PDict [(lit "room_id", PInt 5)]; PInt 3; PDict []] []).
  apply Forall_cons. split; [left; vm_compute; discriminate|].
  apply Forall_cons. split; [exact I|].
  apply Forall_cons. split; [right; right; exact I|].
  apply List.Forall_nil.
Defined.

Lemma first_run_marks_all_witness :
  exists w1,
    main HOST (Scripted.fresh small_market) = (Ok tt, w1) /\
    forall rid, rid ∈ [lit "5"] -> rid ∈ load_processed_ids w1.
Proof.
  apply (LogFacts.first_run_marks_all HOST (lit "12345678")
           (Scripted.fresh small_market)
           (snd (get_room_ids_from_host (lit "12345678")
                   (write_csv [] (Scripted.fresh small_market))))
           [lit "5"]).
  - exact resolves_sample.
  - vm_compute. reflexivity.
  - now left.
  - repeat constructor. discriminate.
  - intros pre rid post Heq.
    assert (pre = [] /\ rid = lit "5" /\ post = []) as (-> & -> & ->).
    { change (remaining_of [lit "5"]
                (load_processed_ids (write_csv [] (Scripted.fresh small_market))))
        with [lit "5"] in Heq.
      destruct pre as [|x pre].
      - injection Heq as <- <-. auto.
      - injection Heq as _ Heq. destruct pre; discriminate. }
    eexists _, _. split; [vm_compute; reflexivity|]. split; reflexivity.
Defined.

End FurtherRuns.
